(** * A thread-caching allocator: shallow embedding of [mem_allocator/allocator.cpp]

    The three tiers of [MyAllocator] (thread cache, transfer cache, page heap)
    are embedded as pure functions over an explicit [State].  Raw storage is a
    finite map from byte addresses to 64-bit words: every access the allocator
    makes is to the single word of a [BlockHeader] / [FreeBlockHeader], and all
    block addresses it produces are multiples of 8, so one map cell per header
    is exact for aligned pointers.  The operating system is an oracle: each
    entry point receives the answer [mmap] would give if it is called, and
    every [mmap] / [munmap] call is appended to [os_log]. *)

From Stdlib Require Import ZArith Lia.
From stdpp Require Import base option list gmap.

Local Open Scope Z_scope.

(** ** Machine integers *)

(** [size_t] and pointers: 64-bit, unsigned, wrapping. *)
Definition wrap64 (z : Z) : Z := z mod 2 ^ 64.

(** [int]: 32-bit two's complement.  Signed overflow has no defined result
    in the source language; the embedding wraps, and every statement about a
    counter assumes that it stays representable. *)
Definition INT_MAX : Z := 2 ^ 31 - 1.
Definition wrap_int (z : Z) : Z := (z + 2 ^ 31) mod 2 ^ 32 - 2 ^ 31.

(** [int += size_t]: the sum is formed in [size_t] and converted back. *)
Definition int_add_size_t (i n : Z) : Z := wrap_int (wrap64 (wrap64 i + n)).

(** ** Constants of the translation unit *)

Definition PAGE_SHIFT : Z := 12.
Definition SIZE_CLASSES : list Z := [8; 16; 32; 64; 128; 256; 512; 1024].
Definition MAX_SMALL_ALLOC_SIZE : Z := 1024.
Definition SCAVENGE_THRESHOLD : Z := 128.
(** [sizeof(span_memory)], [sizeof(BlockHeader)] and [sizeof(Span)] on LP64:
    two [size_t], two pointers and a padded [bool]. *)
Definition sizeof_span_memory : Z := 4096 * 10.
Definition sizeof_BlockHeader : Z := 8.
Definition sizeof_Span : Z := 40.

(** ** Data model *)

Record Span := MkSpan {
  start_page_id : Z;
  num_pages : Z;
  next : Z;
  prev : Z;
  is_free : bool
}.

(** [span_memory] is a zero-initialised static array. *)
Definition zero_Span : Span := MkSpan 0 0 0 0 false.
#[export] Instance Span_inhabited : Inhabited Span := populate zero_Span.

(** [TransferCache]: the field [list] of the source is [tc_list] here; the
    mutex has no sequential content. *)
Record TransferCache := MkTransferCache {
  tc_list : Z;
  count : Z
}.
#[export] Instance TransferCache_inhabited : Inhabited TransferCache :=
  populate (MkTransferCache 0 0).

Record ThreadCache := MkThreadCache {
  free_lists : list Z;
  list_lengths : list Z
}.

Inductive OsCall :=
  | Mmap (len : Z) (res : option Z)
  | Munmap (addr len : Z).

(** The whole program state seen by one thread: raw memory, the trace of
    system calls (most recent first), the span descriptor pool
    ([span_memory], keyed by byte offset, and [span_offset]), the page heap's
    [page_map], the eight transfer caches and the calling thread's
    [my_cache]. *)
Record State := MkState {
  mem : gmap Z Z;
  os_log : list OsCall;
  span_memory : gmap Z Span;
  span_offset : Z;
  page_map : gmap Z Z;
  transfer_caches : list TransferCache;
  my_cache : ThreadCache
}.

Definition set_mem (m : gmap Z Z) (st : State) : State :=
  MkState m (os_log st) (span_memory st) (span_offset st) (page_map st)
          (transfer_caches st) (my_cache st).
Definition log_call (c : OsCall) (st : State) : State :=
  MkState (mem st) (c :: os_log st) (span_memory st) (span_offset st)
          (page_map st) (transfer_caches st) (my_cache st).
Definition set_span_memory (sm : gmap Z Span) (st : State) : State :=
  MkState (mem st) (os_log st) sm (span_offset st) (page_map st)
          (transfer_caches st) (my_cache st).
Definition set_span_offset (o : Z) (st : State) : State :=
  MkState (mem st) (os_log st) (span_memory st) o (page_map st)
          (transfer_caches st) (my_cache st).
Definition set_page_map (pm : gmap Z Z) (st : State) : State :=
  MkState (mem st) (os_log st) (span_memory st) (span_offset st) pm
          (transfer_caches st) (my_cache st).
Definition set_transfer_cache (i : nat) (tc : TransferCache) (st : State) : State :=
  MkState (mem st) (os_log st) (span_memory st) (span_offset st) (page_map st)
          (<[i := tc]> (transfer_caches st)) (my_cache st).
Definition set_my_cache (c : ThreadCache) (st : State) : State :=
  MkState (mem st) (os_log st) (span_memory st) (span_offset st) (page_map st)
          (transfer_caches st) c.

Definition set_free_list (i : nat) (p : Z) (c : ThreadCache) : ThreadCache :=
  MkThreadCache (<[i := p]> (free_lists c)) (list_lengths c).
Definition set_list_length (i : nat) (n : Z) (c : ThreadCache) : ThreadCache :=
  MkThreadCache (free_lists c) (<[i := n]> (list_lengths c)).

(** Word-sized loads and stores; memory never written reads as zero, as a
    fresh anonymous mapping does.  Faults are not modelled: a load from a
    page that the trace has unmapped returns the word last stored there,
    where the program would be stopped by the operating system. *)
Definition load (m : gmap Z Z) (a : Z) : Z := default 0 (m !! a).
Definition store (a v : Z) (m : gmap Z Z) : gmap Z Z := <[a := v]> m.

(** A freshly constructed allocator with empty caches. *)
Definition init_state : State :=
  MkState ∅ [] ∅ 0 ∅ (replicate 8 (MkTransferCache 0 0))
          (MkThreadCache (replicate 8 0) (replicate 8 0)).

(** ** Size-class table *)

(** The loop of [getSizeClassIndex], scanning [SIZE_CLASSES] from index [i]. *)
Fixpoint class_scan (size i : Z) (classes : list Z) : Z :=
  match classes with
  | [] => 8
  | c :: rest => if size <=? c then i else class_scan size (i + 1) rest
  end.

Definition getSizeClassIndex (size : Z) : Z := class_scan size 0 SIZE_CLASSES.

Definition getClassSizeFromIndex (index : Z) : Z :=
  if 8 <=? index then 0 else nth (Z.to_nat index) SIZE_CLASSES 0.

(** ** Page heap *)

Definition allocate_span_memory (size : Z) (st : State) : option Z * State :=
  if sizeof_span_memory <? wrap64 (span_offset st + size) then (None, st)
  else (Some (span_offset st),
        set_span_offset (wrap64 (span_offset st + size)) st).

Definition lookupSpan (ptr : Z) (st : State) : option Z :=
  page_map st !! Z.shiftr ptr PAGE_SHIFT.

(** [for (i = 0; i < num_pages; ++i) page_map[start + i] = span], with [k]
    iterations left. *)
Fixpoint map_pages (k : nat) (i start span : Z) (pm : gmap Z Z) : gmap Z Z :=
  match k with
  | O => pm
  | S k' => map_pages k' (i + 1) start span (<[wrap64 (start + i) := span]> pm)
  end.

(** [for (i = 0; i < num_pages; ++i) page_map.erase(start + i)]. *)
Fixpoint erase_pages (k : nat) (i start : Z) (pm : gmap Z Z) : gmap Z Z :=
  match k with
  | O => pm
  | S k' => erase_pages k' (i + 1) start (delete (wrap64 (start + i)) pm)
  end.

(** [os] is the result of the [mmap] call: [None] for [MAP_FAILED]. *)
Definition allocateSpan (os : option Z) (n : Z) (st : State) : option Z * State :=
  let total_size := wrap64 (Z.shiftl n PAGE_SHIFT) in
  let st1 := log_call (Mmap total_size os) st in
  match os with
  | None => (None, st1)
  | Some new_mem =>
      match allocate_span_memory sizeof_Span st1 with
      | (None, st2) => (None, log_call (Munmap new_mem total_size) st2)
      | (Some span, st2) =>
          let d := MkSpan (Z.shiftr new_mem PAGE_SHIFT) n 0 0 false in
          let st3 := set_span_memory (<[span := d]> (span_memory st2)) st2 in
          (Some span,
           set_page_map
             (map_pages (Z.to_nat n) 0 (start_page_id d) span (page_map st3)) st3)
      end
  end.

Definition deallocateSpan (span : Z) (st : State) : State :=
  let d := span_memory st !!! span in
  let st1 := log_call (Munmap (wrap64 (Z.shiftl (start_page_id d) PAGE_SHIFT))
                              (wrap64 (Z.shiftl (num_pages d) PAGE_SHIFT))) st in
  set_page_map
    (erase_pages (Z.to_nat (num_pages d)) 0 (start_page_id d) (page_map st1)) st1.

(** ** Transfer cache *)

(** Carving loop of [fetchFromTransferCache]: block [i] of the page at
    [start] is linked in front of the central list [head]. *)
Fixpoint carve (k : nat) (i start bsz : Z) (m : gmap Z Z) (head : Z)
  : gmap Z Z * Z :=
  match k with
  | O => (m, head)
  | S k' =>
      let block_ptr := wrap64 (start + wrap64 (i * bsz)) in
      carve k' (i + 1) start bsz (store block_ptr head m) block_ptr
  end.

(** The two tail-finding loops: follow [next] at most [k] times while
    [tail && tail->next]. *)
Fixpoint walk (k : nat) (m : gmap Z Z) (tail : Z) : Z :=
  match k with
  | O => tail
  | S k' =>
      if (tail =? 0) || (load m tail =? 0) then tail
      else walk k' m (load m tail)
  end.

(** The [if (tc.count == 0)] block.  The flag is [false] when the block
    leaves the whole function by [return], in the state given by the second
    component. *)
Definition refill_central (os : option Z) (class_index : Z) (st : State)
  : bool * State :=
  let ci := Z.to_nat class_index in
  let tc := transfer_caches st !!! ci in
  if count tc =? 0 then
    let block_size := getClassSizeFromIndex class_index in
    if block_size =? 0 then (false, st)
    else
      let actual_block_size := wrap64 (block_size + sizeof_BlockHeader) in
      let num_blocks_to_fetch :=
        if 4096 / actual_block_size =? 0 then 1 else 4096 / actual_block_size in
      match allocateSpan os 1 st with
      | (None, st1) => (false, st1)
      | (Some span, st1) =>
          let start :=
            wrap64 (Z.shiftl (start_page_id (span_memory st1 !!! span)) PAGE_SHIFT) in
          let '(m, head) :=
            carve (Z.to_nat num_blocks_to_fetch) 0 start actual_block_size
                  (mem st1) (tc_list tc) in
          (true,
           set_transfer_cache ci
             (MkTransferCache head (int_add_size_t (count tc) num_blocks_to_fetch))
             (set_mem m st1))
      end
  else (true, st).

(** The part after the refill: move up to 32 blocks to the thread cache. *)
Definition transfer_to_thread (class_index : Z) (st : State) : State :=
  let ci := Z.to_nat class_index in
  let tc := transfer_caches st !!! ci in
  let blocks_to_transfer := Z.min (count tc) 32 in
  let head := tc_list tc in
  let tail := walk (Z.to_nat (blocks_to_transfer - 1)) (mem st) head in
  if tail =? 0 then st
  else
    let st1 :=
      set_transfer_cache ci
        (MkTransferCache (load (mem st) tail)
                         (wrap_int (count tc - blocks_to_transfer)))
        (set_mem (store tail 0 (mem st)) st) in
    set_my_cache
      (set_list_length ci blocks_to_transfer
         (set_free_list ci head (my_cache st1))) st1.

Definition fetchFromTransferCache (os : option Z) (class_index : Z) (st : State)
  : State :=
  if 8 <=? class_index then st
  else
    match refill_central os class_index st with
    | (false, st1) => st1
    | (true, st1) => transfer_to_thread class_index st1
    end.

Definition releaseToTransferCache (class_index : Z) (st : State) : State :=
  let ci := Z.to_nat class_index in
  if (8 <=? class_index) || (list_lengths (my_cache st) !!! ci =? 0) then st
  else
    let tc := transfer_caches st !!! ci in
    let len := list_lengths (my_cache st) !!! ci in
    let head := free_lists (my_cache st) !!! ci in
    let tail := walk (Z.to_nat (len - 1)) (mem st) head in
    let m := if tail =? 0 then mem st else store tail (tc_list tc) (mem st) in
    let st1 :=
      set_transfer_cache ci (MkTransferCache head (wrap_int (count tc + len)))
                         (set_mem m st) in
    set_my_cache (set_list_length ci 0 (set_free_list ci 0 (my_cache st1))) st1.

(** ** Facade *)

Definition allocate_large (os : option Z) (size : Z) (st : State) : Z * State :=
  let total_size := wrap64 (size + sizeof_BlockHeader) in
  let n := Z.shiftr (wrap64 (total_size + 4095)) PAGE_SHIFT in
  match allocateSpan os n st with
  | (None, st1) => (0, st1)
  | (Some span, st1) =>
      let header :=
        wrap64 (Z.shiftl (start_page_id (span_memory st1 !!! span)) PAGE_SHIFT) in
      (wrap64 (header + sizeof_BlockHeader),
       set_mem (store header size (mem st1)) st1)
  end.

(** Pop the head of the (non-empty) thread-cache list and stamp its header. *)
Definition pop_block (index : Z) (st : State) : Z * State :=
  let i := Z.to_nat index in
  let block := free_lists (my_cache st) !!! i in
  let c1 := set_free_list i (load (mem st) block) (my_cache st) in
  let c2 := set_list_length i (wrap_int (list_lengths c1 !!! i - 1)) c1 in
  (wrap64 (block + sizeof_BlockHeader),
   set_mem (store block (getClassSizeFromIndex index) (mem st))
           (set_my_cache c2 st)).

Definition allocate_small (os : option Z) (size : Z) (st : State) : Z * State :=
  let index := getSizeClassIndex size in
  if 8 <=? index then (0, st)
  else if free_lists (my_cache st) !!! Z.to_nat index =? 0 then
    let st1 := fetchFromTransferCache os index st in
    if free_lists (my_cache st1) !!! Z.to_nat index =? 0 then (0, st1)
    else pop_block index st1
  else pop_block index st.

Definition allocate (os : option Z) (size : Z) (st : State) : Z * State :=
  if size =? 0 then (0, st)
  else if MAX_SMALL_ALLOC_SIZE <? size then allocate_large os size st
  else allocate_small os size st.

Definition deallocate (ptr : Z) (st : State) : State :=
  if ptr =? 0 then st
  else
    let header := wrap64 (ptr - sizeof_BlockHeader) in
    let size := load (mem st) header in
    if MAX_SMALL_ALLOC_SIZE <? size then
      match lookupSpan header st with
      | None => st
      | Some span => deallocateSpan span st
      end
    else
      let index := getSizeClassIndex size in
      if 8 <=? index then st
      else
        let i := Z.to_nat index in
        let m := store header (free_lists (my_cache st) !!! i) (mem st) in
        let c1 := set_free_list i header (my_cache st) in
        let c2 := set_list_length i (wrap_int (list_lengths c1 !!! i + 1)) c1 in
        let st1 := set_my_cache c2 (set_mem m st) in
        if SCAVENGE_THRESHOLD <? list_lengths (my_cache st1) !!! i
        then releaseToTransferCache index st1
        else st1.

(** * Specification vocabulary *)

(** The bump pool cannot hold one more [Span] descriptor. *)
Definition pool_exhausted (st : State) : Prop :=
  sizeof_span_memory < wrap64 (span_offset st + sizeof_Span).

(** The page heap cannot serve a request: [mmap] answers [MAP_FAILED] or the
    descriptor pool is exhausted. *)
Definition span_request_fails (os : option Z) (st : State) : Prop :=
  os = None \/ pool_exhausted st.

(** The arrays of [TransferCache] and [ThreadCache] have eight slots. *)
Definition arrays_ok (st : State) : Prop :=
  length (transfer_caches st) = 8%nat /\
  length (free_lists (my_cache st)) = 8%nat /\
  length (list_lengths (my_cache st)) = 8%nat.

(** [transfer_caches[c]], [my_cache.free_lists[c]], [my_cache.list_lengths[c]]. *)
Definition central (st : State) (c : Z) : TransferCache :=
  transfer_caches st !!! Z.to_nat c.
Definition thread_list (st : State) (c : Z) : Z :=
  free_lists (my_cache st) !!! Z.to_nat c.
Definition thread_len (st : State) (c : Z) : Z :=
  list_lengths (my_cache st) !!! Z.to_nat c.

(** Address of the header that precedes a user pointer. *)
Definition header_of (ptr : Z) : Z := wrap64 (ptr - sizeof_BlockHeader).

(** A run of [deallocate] calls, first pointer first. *)
Definition deallocate_all (ptrs : list Z) (st : State) : State :=
  fold_left (fun s p => deallocate p s) ptrs st.

(** The small-object push of [deallocate], before the scavenging test. *)
Definition push_free (c header : Z) (st : State) : State :=
  let i := Z.to_nat c in
  set_my_cache
    (set_list_length i (wrap_int (list_lengths (my_cache st) !!! i + 1))
       (set_free_list i header (my_cache st)))
    (set_mem (store header (free_lists (my_cache st) !!! i) (mem st)) st).

(** A concrete scavenging scenario: 129 blocks of class 8, sixteen bytes
    apart from address 4096, each header holding 8. *)
Definition scavenge_ptrs : list Z :=
  map (fun i => 4096 + 16 * Z.of_nat i + 8) (seq 0 129).
Definition scavenge_state : State :=
  set_mem (fold_right (fun p m => store (header_of p) 8 m) ∅ scavenge_ptrs)
          init_state.

(** Intrusive free lists.  [segment m head l stop]: following [next] from
    [head] visits exactly the blocks [l], all non-null, and then reaches
    [stop].  A [chain] is a null-terminated segment: [l] is the list of
    blocks reachable from [head]. *)
Fixpoint segment (m : gmap Z Z) (head : Z) (l : list Z) (stop : Z) : Prop :=
  match l with
  | [] => head = stop
  | b :: rest => head = b /\ b <> 0 /\ segment m (load m b) rest stop
  end.

Definition chain (m : gmap Z Z) (head : Z) (l : list Z) : Prop :=
  segment m head l 0.

(** Addresses of the blocks number [i], [i+1], ..., [i+k-1] of size [bsz]
    in the page at [start]. *)
Definition block_addrs (start bsz : Z) (i k : nat) : list Z :=
  map (fun j => start + Z.of_nat j * bsz) (seq i k).

(** The count field of the transfer cache of class [c] is the number of
    blocks reachable from its list head. *)
Definition count_inv (st : State) (c : Z) : Prop :=
  exists l, chain (mem st) (tc_list (central st c)) l /\
            count (central st c) = Z.of_nat (length l).

(** Well-formed caches.  [L c] and [T c] are the blocks of the transfer
    cache and of the calling thread's cache for class [c]: every list is a
    null-terminated chain in memory whose length is the recorded counter
    (representable as an [int]), and no block sits on two lists. *)
Record caches_wf (st : State) (L T : Z -> list Z) : Prop := MkCachesWf {
  wf_arrays : arrays_ok st;
  wf_central : forall c, 0 <= c < 8 ->
    chain (mem st) (tc_list (central st c)) (L c) /\
    count (central st c) = Z.of_nat (length (L c)) /\
    Z.of_nat (length (L c)) <= INT_MAX;
  wf_thread : forall c, 0 <= c < 8 ->
    chain (mem st) (thread_list st c) (T c) /\
    thread_len st c = Z.of_nat (length (T c));
  wf_sep_central : forall c c' x, 0 <= c < 8 -> 0 <= c' < 8 ->
    x ∈ L c -> x ∈ L c' -> c = c';
  wf_sep_thread : forall c c' x, 0 <= c < 8 -> 0 <= c' < 8 ->
    x ∈ T c -> x ∈ T c' -> c = c';
  wf_sep_cross : forall c c' x, 0 <= c < 8 -> 0 <= c' < 8 ->
    x ∈ L c -> x ∈ T c' -> False
}.

(** The answer of [mmap] for one page, as the operating system guarantees
    it: a page-aligned, non-null address whose page lies in the address space
    and holds no block that is currently on a free list. *)
Definition fresh_page (os : option Z) (L T : Z -> list Z) : Prop :=
  forall a, os = Some a ->
    0 < a /\ a mod 4096 = 0 /\ a + 4096 <= 2 ^ 64 /\
    forall c x, 0 <= c < 8 -> x ∈ L c \/ x ∈ T c -> ~ (a <= x < a + 4096).

(** Replace the list of class [c]. *)
Definition upd (f : Z -> list Z) (c : Z) (v : list Z) : Z -> list Z :=
  fun c' => if c' =? c then v else f c'.

(** The operating system's view.  Page [p] starts inside the region
    [[addr, addr + len)]; for page-aligned regions these are exactly the
    pages of the region. *)
Definition region_has_page (addr len p : Z) : bool :=
  (addr <=? p * 4096) && (p * 4096 <? addr + len).

(** Is page [p] mapped after the system calls of [log] (most recent
    first)? *)
Fixpoint page_mapped (log : list OsCall) (p : Z) : bool :=
  match log with
  | [] => false
  | Mmap len (Some a) :: rest => region_has_page a len p || page_mapped rest p
  | Mmap _ None :: rest => page_mapped rest p
  | Munmap a len :: rest => negb (region_has_page a len p) && page_mapped rest p
  end.

(** What [mmap] guarantees when it succeeds for [len] bytes: a non-empty,
    page-aligned region inside the address space, none of whose pages is
    mapped already. *)
Definition mmap_fresh (log : list OsCall) (len : Z) (os : option Z) : Prop :=
  forall a, os = Some a ->
    0 < len /\ 0 < a /\ a mod 4096 = 0 /\ a + len <= 2 ^ 64 /\
    forall p, region_has_page a len p = true -> page_mapped log p = false.

(** Page [p] lies in the page range of the span whose descriptor is at
    [sp]. *)
Definition span_covers (st : State) (sp p : Z) : Prop :=
  start_page_id (span_memory st !!! sp) <= p <
  start_page_id (span_memory st !!! sp) + num_pages (span_memory st !!! sp).

(** States of the page heap reachable from a fresh allocator by
    [allocateSpan] and [deallocateSpan], together with the set of live spans:
    those returned by [allocateSpan] and not yet given to [deallocateSpan].
    Page counts are below [2^52], as at every call site, so that the byte
    size does not wrap; [deallocateSpan] receives live spans only. *)
Inductive heap_reachable : State -> gset Z -> Prop :=
  | reach_init : heap_reachable init_state ∅
  | reach_alloc st live os n span st' :
      heap_reachable st live ->
      0 <= n < 2 ^ 52 ->
      mmap_fresh (os_log st) (wrap64 (Z.shiftl n PAGE_SHIFT)) os ->
      allocateSpan os n st = (Some span, st') ->
      heap_reachable st' ({[span]} ∪ live)
  | reach_alloc_failed st live os n st' :
      heap_reachable st live ->
      0 <= n < 2 ^ 52 ->
      mmap_fresh (os_log st) (wrap64 (Z.shiftl n PAGE_SHIFT)) os ->
      allocateSpan os n st = (None, st') ->
      heap_reachable st' live
  | reach_dealloc st live span :
      heap_reachable st live ->
      span ∈ live ->
      heap_reachable (deallocateSpan span st) (live ∖ {[span]}).

(** The inductive invariant behind the ownership index. *)
Record heap_inv (st : State) (live : gset Z) : Prop := MkHeapInv {
  hi_offset : 0 <= span_offset st <= sizeof_span_memory;
  hi_live : forall sp, sp ∈ live -> 0 <= sp < span_offset st;
  hi_geom : forall sp, sp ∈ live ->
    0 < start_page_id (span_memory st !!! sp) /\
    0 < num_pages (span_memory st !!! sp) /\
    start_page_id (span_memory st !!! sp) + num_pages (span_memory st !!! sp)
      <= 2 ^ 52;
  hi_owned : forall sp p, sp ∈ live -> span_covers st sp p ->
    page_map st !! p = Some sp;
  hi_index : forall p sp, page_map st !! p = Some sp ->
    sp ∈ live /\ span_covers st sp p;
  hi_mapped : forall p sp, page_map st !! p = Some sp ->
    page_mapped (os_log st) p = true
}.

(** ** Runs of the public interface *)

(** One call of the facade, with the answer [mmap] gives if it is reached. *)
Inductive Op :=
  | OpAllocate (os : option Z) (size : Z)
  | OpDeallocate (ptr : Z).

Definition step (op : Op) (st : State) : State :=
  match op with
  | OpAllocate os size => snd (allocate os size st)
  | OpDeallocate ptr => deallocate ptr st
  end.

Definition run (ops : list Op) (st : State) : State :=
  fold_left (fun s op => step op s) ops st.

(** [allocate] followed at once by [deallocate] of its result. *)
Definition allocate_then_free (os : option Z) (size : Z) (st : State) : State :=
  deallocate (fst (allocate os size st)) (snd (allocate os size st)).
(** Repeated allocation and release of one object of [size] bytes, the
    [mmap] answers being [answers] in turn. *)
Definition churn (answers : list Z) (size : Z) (st : State) : State :=
  fold_left (fun s a => allocate_then_free (Some a) size s) answers st.
(** ** Live blocks *)

(** [x] is on one of the sixteen free lists. *)
Definition on_lists (L T : Z -> list Z) (x : Z) : Prop :=
  exists c, 0 <= c < 8 /\ (x ∈ L c \/ x ∈ T c).

(** Size of a block of class [c], header included. *)
Definition block_bytes (c : Z) : Z := getClassSizeFromIndex c + sizeof_BlockHeader.

(** [x] is one of the blocks that the carving loop cuts out of a page owned
    by class [c]; [P] records the class of every carved page. *)
Definition slot (P : gmap Z Z) (c x : Z) : Prop :=
  P !! (x / 4096) = Some c /\
  exists i, 0 <= i < 4096 / block_bytes c /\
            x = x / 4096 * 4096 + i * block_bytes c.

(** The invariant of the small-object tiers.  [L] and [T] list the free
    blocks as in [caches_wf], no thread-cache list being longer than
    [bound]; [A] is the set of blocks handed out and not yet freed (by
    header address); [P] maps each carved page to its class. *)
Record alloc_inv (bound : nat) (st : State) (L T : Z -> list Z) (A : gset Z)
       (P : gmap Z Z) : Prop := MkAllocInv {
  ai_wf : caches_wf st L T;
  ai_bound : forall c, 0 <= c < 8 -> (length (T c) <= bound)%nat;
  ai_sep : forall x, x ∈ A -> on_lists L T x -> False;
  ai_free_slot : forall c x, 0 <= c < 8 -> x ∈ L c \/ x ∈ T c -> slot P c x;
  ai_live_slot : forall x, x ∈ A ->
    exists c, 0 <= c < 8 /\ slot P c x /\
              load (mem st) x = getClassSizeFromIndex c;
  ai_range : forall x, x ∈ A \/ on_lists L T x -> 0 < x < 2 ^ 64 - 8;
  ai_mapped : forall x, x ∈ A \/ on_lists L T x ->
    page_mapped (os_log st) (x / 4096) = true
}.

(** States reachable from a fresh allocator by small allocations and by
    frees of blocks that are live, with the set of live blocks.  [mmap]
    behaves as in [mmap_fresh]; the counters of the transfer caches stay
    clear of [INT_MAX]. *)
Inductive small_reachable : State -> gset Z -> Prop :=
  | sr_init : small_reachable init_state ∅
  | sr_allocate st A os size :
      small_reachable st A ->
      0 < size <= MAX_SMALL_ALLOC_SIZE ->
      mmap_fresh (os_log st) 4096 os ->
      small_reachable
        (snd (allocate os size st))
        (if fst (allocate os size st) =? 0 then A
         else {[header_of (fst (allocate os size st))]} ∪ A)
  | sr_deallocate st A h :
      small_reachable st A ->
      h ∈ A ->
      (forall c, 0 <= c < 8 -> count (central st c) <= INT_MAX - 129) ->
      small_reachable (deallocate (h + sizeof_BlockHeader) st) (A ∖ {[h]}).

(** * Properties *)

(** ** Size classes *)

Ltac pick_case :=
  first [ split; [lia | reflexivity]
        | left; split; [lia | reflexivity]
        | right; pick_case ].

Lemma getClassSizeFromIndex_cases (j : Z) :
  0 <= j < 8 ->
  (j = 0 /\ getClassSizeFromIndex j = 8) \/
  (j = 1 /\ getClassSizeFromIndex j = 16) \/
  (j = 2 /\ getClassSizeFromIndex j = 32) \/
  (j = 3 /\ getClassSizeFromIndex j = 64) \/
  (j = 4 /\ getClassSizeFromIndex j = 128) \/
  (j = 5 /\ getClassSizeFromIndex j = 256) \/
  (j = 6 /\ getClassSizeFromIndex j = 512) \/
  (j = 7 /\ getClassSizeFromIndex j = 1024).
Proof.
  intros Hj.
  assert (j = 0 \/ j = 1 \/ j = 2 \/ j = 3 \/ j = 4 \/ j = 5 \/ j = 6 \/ j = 7)
    as Hc by lia.
  repeat (destruct Hc as [-> | Hc]); try subst j; pick_case.
Qed.

Lemma getSizeClassIndex_cases (s : Z) :
  (s <= 8 /\ getSizeClassIndex s = 0) \/
  (8 < s <= 16 /\ getSizeClassIndex s = 1) \/
  (16 < s <= 32 /\ getSizeClassIndex s = 2) \/
  (32 < s <= 64 /\ getSizeClassIndex s = 3) \/
  (64 < s <= 128 /\ getSizeClassIndex s = 4) \/
  (128 < s <= 256 /\ getSizeClassIndex s = 5) \/
  (256 < s <= 512 /\ getSizeClassIndex s = 6) \/
  (512 < s <= 1024 /\ getSizeClassIndex s = 7) \/
  (1024 < s /\ getSizeClassIndex s = 8).
Proof.
  unfold getSizeClassIndex, SIZE_CLASSES; cbn [class_scan].
  repeat (match goal with
          | |- context [?a <=? ?b] => destruct (Z.leb_spec a b)
          end; [ pick_case | ]).
  pick_case.
Qed.

(** C3. For [0 < s <= 1024], [getSizeClassIndex s] is a valid class whose
    byte value is at least [s], and every smaller class is too small; the
    index is monotone in the size; above 1024 the result is the sentinel 8. *)
Theorem getSizeClassIndex_smallest_class :
  (forall s, 0 < s <= MAX_SMALL_ALLOC_SIZE ->
     0 <= getSizeClassIndex s < 8 /\
     In (getClassSizeFromIndex (getSizeClassIndex s)) SIZE_CLASSES /\
     s <= getClassSizeFromIndex (getSizeClassIndex s) /\
     (forall j, 0 <= j < getSizeClassIndex s -> getClassSizeFromIndex j < s)) /\
  (forall s s', s <= s' -> getSizeClassIndex s <= getSizeClassIndex s') /\
  (forall s, MAX_SMALL_ALLOC_SIZE < s -> getSizeClassIndex s = 8).
Proof.
  unfold MAX_SMALL_ALLOC_SIZE. split; [| split].
  - intros s Hs.
    destruct (getSizeClassIndex_cases s) as
      [[H ->]|[[H ->]|[[H ->]|[[H ->]|[[H ->]|[[H ->]|[[H ->]|[[H ->]|[H ->]]]]]]]]];
      try lia;
      (split; [lia | split; [vm_compute; auto 10 | split;
         [vm_compute (getClassSizeFromIndex _); lia |]]]);
      intros j Hj;
      destruct (getClassSizeFromIndex_cases j) as
        [[-> ->]|[[-> ->]|[[-> ->]|[[-> ->]|[[-> ->]|[[-> ->]|[[-> ->]|[-> ->]]]]]]]];
      lia.
  - intros s s' Hle.
    destruct (getSizeClassIndex_cases s) as
      [[H ->]|[[H ->]|[[H ->]|[[H ->]|[[H ->]|[[H ->]|[[H ->]|[[H ->]|[H ->]]]]]]]]];
    destruct (getSizeClassIndex_cases s') as
      [[H' ->]|[[H' ->]|[[H' ->]|[[H' ->]|[[H' ->]|[[H' ->]|[[H' ->]|[[H' ->]|[H' ->]]]]]]]]];
    lia.
  - intros s Hbig.
    destruct (getSizeClassIndex_cases s) as
      [[H' ->]|[[H' ->]|[[H' ->]|[[H' ->]|[[H' ->]|[[H' ->]|[[H' ->]|[[H' ->]|[H' ->]]]]]]]]];
    lia.
Qed.

Lemma getSizeClassIndex_smallest_class_witness :
  (0 <= getSizeClassIndex 9 < 8 /\
   In (getClassSizeFromIndex (getSizeClassIndex 9)) SIZE_CLASSES /\
   9 <= getClassSizeFromIndex (getSizeClassIndex 9) /\
   (forall j, 0 <= j < getSizeClassIndex 9 -> getClassSizeFromIndex j < 9)) /\
  getSizeClassIndex 8 <= getSizeClassIndex 9 /\
  getSizeClassIndex 1025 = 8.
Proof.
  destruct getSizeClassIndex_smallest_class as (Hsmall & Hmono & Hlarge).
  split; [apply (Hsmall 9); unfold MAX_SMALL_ALLOC_SIZE; lia|].
  split; [apply (Hmono 8 9); lia|].
  apply (Hlarge 1025). unfold MAX_SMALL_ALLOC_SIZE. lia.
Defined.

(** ** Arithmetic helpers *)

Lemma wrap64_small (z : Z) : 0 <= z < 2 ^ 64 -> wrap64 z = z.
Proof. intros H. unfold wrap64. now apply Z.mod_small. Qed.

Lemma wrap64_range (z : Z) : 0 <= wrap64 z < 2 ^ 64.
Proof. unfold wrap64. apply Z.mod_pos_bound. lia. Qed.

Lemma wrap_int_small (z : Z) : - 2 ^ 31 <= z <= INT_MAX -> wrap_int z = z.
Proof.
  unfold wrap_int, INT_MAX. intros H.
  rewrite Z.mod_small; lia.
Qed.

Lemma shiftr_page (a : Z) : Z.shiftr a PAGE_SHIFT = a / 4096.
Proof. unfold PAGE_SHIFT. now rewrite Z.shiftr_div_pow2 by lia. Qed.

Lemma shiftl_page (a : Z) : Z.shiftl a PAGE_SHIFT = a * 4096.
Proof. unfold PAGE_SHIFT. now rewrite Z.shiftl_mul_pow2 by lia. Qed.

Lemma page_of_aligned (a addr : Z) :
  a mod 4096 = 0 -> a <= addr < a + 4096 -> addr / 4096 = a / 4096.
Proof.
  intros Ha Hr.
  pose proof (Z.div_mod a 4096 ltac:(lia)) as Hd.
  symmetry. apply (Z.div_unique addr 4096 (a / 4096) (addr - a)); lia.
Qed.

Lemma load_store_eq (a v : Z) (m : gmap Z Z) : load (store a v m) a = v.
Proof. unfold load, store. now rewrite lookup_insert_eq. Qed.

Lemma load_store_ne (a b v : Z) (m : gmap Z Z) :
  a <> b -> load (store a v m) b = load m b.
Proof. intros H. unfold load, store. now rewrite lookup_insert_ne. Qed.

(** ** Degenerate arguments *)

(** C9. [allocate(0)] returns null and [deallocate(nullptr)] returns at once:
    in both cases the state (memory, system-call trace, page map and every
    cache) is the one before the call, whatever the memory holds, so no
    header is read or written. *)
Theorem allocate_zero_deallocate_null (os : option Z) (st : State) (m : gmap Z Z) :
  allocate os 0 st = (0, st) /\
  deallocate 0 st = st /\
  deallocate 0 (set_mem m st) = set_mem m st.
Proof. repeat split. Qed.

(** A pointer that is not within the first [sizeof(BlockHeader)] bytes of a
    page lies on the same page as its header; every pointer returned by
    [allocate] is of this kind. *)
Lemma header_same_page (ptr : Z) (st : State) :
  0 <= ptr < 2 ^ 64 -> sizeof_BlockHeader <= ptr mod 4096 ->
  lookupSpan ptr st = lookupSpan (header_of ptr) st.
Proof.
  unfold sizeof_BlockHeader, lookupSpan, header_of. intros Hr Hoff.
  pose proof (Z.div_mod ptr 4096 ltac:(lia)) as Hd.
  pose proof (Z.mod_pos_bound ptr 4096 ltac:(lia)) as Hm.
  assert (0 <= ptr / 4096) by (apply Z.div_pos; lia).
  rewrite wrap64_small by (unfold sizeof_BlockHeader; lia).
  rewrite !shiftr_page. f_equal.
  apply (Z.div_unique (ptr - 8) 4096 (ptr / 4096) (ptr mod 4096 - 8)); lia.
Qed.

(** C10, as stated, fails on the code: the page that [deallocate] looks up
    is the page of the header, not the page of the pointer.  A 4088-byte
    object fills the one page of its span at 40960 exactly; its last
    payload word, at 45048, holds 5000.  The pointer 45056, one past the end
    of the object, lies on page 11, which has no entry in the index, and
    the word before it holds a size above 1024; yet [deallocate] finds page
    10 through that word and unmaps the span. *)
Lemma deallocate_pointer_page_counterexample :
  let st0 := snd (allocate (Some 40960) 4088 init_state) in
  let st := set_mem (store 45048 5000 (mem st0)) st0 in
  ~ (45056 <> 0 ->
     MAX_SMALL_ALLOC_SIZE < load (mem st) (header_of 45056) ->
     lookupSpan 45056 st = None ->
     os_log (deallocate 45056 st) = os_log st /\
     page_map (deallocate 45056 st) = page_map st).
Proof.
  cbv zeta. intros H.
  destruct H as [Hlog _];
    [lia | vm_compute; reflexivity | vm_compute; reflexivity |].
  vm_compute in Hlog. discriminate Hlog.
Qed.

(** C10, amended.  A non-null pointer whose header holds a size above 1024
    while the page of that header (the address [lookupSpan] receives, which
    is also the page of the pointer unless the pointer is within 8 bytes of
    a page start) has no entry in [page_map]: [deallocate] returns with the
    state untouched, so nothing is unmapped and the index, the transfer
    caches and the thread cache are as before. *)
Theorem deallocate_large_unknown_page (ptr : Z) (st : State) :
  ptr <> 0 ->
  MAX_SMALL_ALLOC_SIZE < load (mem st) (header_of ptr) ->
  lookupSpan (header_of ptr) st = None ->
  deallocate ptr st = st /\
  os_log (deallocate ptr st) = os_log st /\
  page_map (deallocate ptr st) = page_map st /\
  transfer_caches (deallocate ptr st) = transfer_caches st /\
  my_cache (deallocate ptr st) = my_cache st /\
  (0 <= ptr < 2 ^ 64 -> sizeof_BlockHeader <= ptr mod 4096 ->
   lookupSpan ptr st = None).
Proof.
  intros Hp Hsz Hl.
  assert (deallocate ptr st = st) as ->.
  { unfold deallocate.
    destruct (Z.eqb_spec ptr 0) as [|_]; [contradiction|].
    fold (header_of ptr).
    apply Z.ltb_lt in Hsz. cbv zeta. now rewrite Hsz, Hl. }
  repeat split.
  intros Hr Hoff. now rewrite header_same_page.
Qed.

Lemma deallocate_large_unknown_page_witness :
  let st := set_mem (store 4096 5000 ∅) init_state in
  deallocate 4104 st = st /\
  os_log (deallocate 4104 st) = os_log st /\
  page_map (deallocate 4104 st) = page_map st /\
  transfer_caches (deallocate 4104 st) = transfer_caches st /\
  my_cache (deallocate 4104 st) = my_cache st /\
  (0 <= 4104 < 2 ^ 64 -> sizeof_BlockHeader <= 4104 mod 4096 ->
   lookupSpan 4104 st = None).
Proof.
  apply (deallocate_large_unknown_page 4104 (set_mem (store 4096 5000 ∅) init_state)).
  - lia.
  - vm_compute. reflexivity.
  - vm_compute. reflexivity.
Defined.

(** ** The page heap seen from its callers *)

Lemma allocateSpan_mmap_failed (n : Z) (st : State) :
  allocateSpan None n st =
  (None, log_call (Mmap (wrap64 (Z.shiftl n PAGE_SHIFT)) None) st).
Proof. reflexivity. Qed.

Lemma allocateSpan_pool_exhausted (a n : Z) (st : State) :
  sizeof_span_memory < wrap64 (span_offset st + sizeof_Span) ->
  allocateSpan (Some a) n st =
  (None, log_call (Munmap a (wrap64 (Z.shiftl n PAGE_SHIFT)))
           (log_call (Mmap (wrap64 (Z.shiftl n PAGE_SHIFT)) (Some a)) st)).
Proof.
  intros H. apply Z.ltb_lt in H.
  unfold allocateSpan, allocate_span_memory. cbn. now rewrite H.
Qed.

Lemma allocateSpan_mapped (a n : Z) (st : State) :
  wrap64 (span_offset st + sizeof_Span) <= sizeof_span_memory ->
  allocateSpan (Some a) n st =
  (Some (span_offset st),
   MkState (mem st)
           (Mmap (wrap64 (Z.shiftl n PAGE_SHIFT)) (Some a) :: os_log st)
           (<[span_offset st := MkSpan (Z.shiftr a PAGE_SHIFT) n 0 0 false]>
              (span_memory st))
           (wrap64 (span_offset st + sizeof_Span))
           (map_pages (Z.to_nat n) 0 (Z.shiftr a PAGE_SHIFT) (span_offset st)
                      (page_map st))
           (transfer_caches st) (my_cache st)).
Proof.
  intros H. apply Z.ltb_ge in H.
  unfold allocateSpan, allocate_span_memory. cbn. now rewrite H.
Qed.

Lemma pool_exhausted_dec (st : State) :
  pool_exhausted st \/ wrap64 (span_offset st + sizeof_Span) <= sizeof_span_memory.
Proof. unfold pool_exhausted. lia. Qed.

(** Whenever [allocateSpan] fails, only the system-call trace has grown. *)
Lemma allocateSpan_None (os : option Z) (n : Z) (st st' : State) :
  allocateSpan os n st = (None, st') ->
  (os = None \/ pool_exhausted st) /\
  os_log st' <> os_log st /\
  mem st' = mem st /\ span_memory st' = span_memory st /\
  span_offset st' = span_offset st /\ page_map st' = page_map st /\
  transfer_caches st' = transfer_caches st /\ my_cache st' = my_cache st.
Proof.
  intros H. destruct os as [a|].
  - destruct (pool_exhausted_dec st) as [Hx|Hx].
    + rewrite allocateSpan_pool_exhausted in H by exact Hx.
      injection H as <-. cbn. repeat split; auto.
      intros Heq. apply (f_equal length) in Heq. cbn in Heq. lia.
    + rewrite allocateSpan_mapped in H by exact Hx. discriminate.
  - rewrite allocateSpan_mmap_failed in H. injection H as <-. cbn.
    repeat split; auto.
    intros Heq. apply (f_equal length) in Heq. cbn in Heq. lia.
Qed.

Lemma allocateSpan_Some (os : option Z) (n : Z) (st st' : State) (span : Z) :
  allocateSpan os n st = (Some span, st') ->
  exists a, os = Some a /\
    wrap64 (span_offset st + sizeof_Span) <= sizeof_span_memory /\
    span = span_offset st /\
    st' = MkState (mem st)
           (Mmap (wrap64 (Z.shiftl n PAGE_SHIFT)) (Some a) :: os_log st)
           (<[span_offset st := MkSpan (Z.shiftr a PAGE_SHIFT) n 0 0 false]>
              (span_memory st))
           (wrap64 (span_offset st + sizeof_Span))
           (map_pages (Z.to_nat n) 0 (Z.shiftr a PAGE_SHIFT) (span_offset st)
                      (page_map st))
           (transfer_caches st) (my_cache st).
Proof.
  intros H. destruct os as [a|].
  - destruct (pool_exhausted_dec st) as [Hx|Hx].
    + rewrite allocateSpan_pool_exhausted in H by exact Hx. discriminate.
    + rewrite allocateSpan_mapped in H by exact Hx.
      injection H as <- <-. exists a. repeat split; auto.
  - rewrite allocateSpan_mmap_failed in H. discriminate.
Qed.

(** ** Large allocations *)

(** The page count of the large path, [(total_size + 4095) >> PAGE_SHIFT]
    in [size_t] arithmetic. *)
Lemma large_page_count (size : Z) :
  Z.shiftr (wrap64 (wrap64 (size + sizeof_BlockHeader) + 4095)) PAGE_SHIFT =
  wrap64 (wrap64 (size + sizeof_BlockHeader) + 4095) / 4096.
Proof. apply shiftr_page. Qed.

(** Without wrap-around that count is the exact round-up to whole pages. *)
Lemma large_page_count_exact (size : Z) :
  0 <= size -> size + sizeof_BlockHeader + 4095 < 2 ^ 64 ->
  let pages := wrap64 (wrap64 (size + sizeof_BlockHeader) + 4095) / 4096 in
  wrap64 (size + sizeof_BlockHeader) = size + sizeof_BlockHeader /\
  4096 * (pages - 1) < size + sizeof_BlockHeader <= 4096 * pages.
Proof.
  unfold sizeof_BlockHeader. intros H0 H. cbv zeta.
  rewrite (wrap64_small (size + 8)) by lia.
  rewrite (wrap64_small (size + 8 + 4095)) by lia.
  split; [reflexivity|].
  pose proof (Z.div_mod (size + 8 + 4095) 4096 ltac:(lia)).
  pose proof (Z.mod_pos_bound (size + 8 + 4095) 4096 ltac:(lia)). lia.
Qed.

(** The large path always reaches the operating system. *)
Lemma allocate_large_os_log (os : option Z) (size : Z) (st : State) :
  os_log (snd (allocate_large os size st)) <> os_log st.
Proof.
  unfold allocate_large.
  destruct (allocateSpan os _ st) as [[span|] st1] eqn:Hr; cbn [fst snd].
  - apply allocateSpan_Some in Hr as (a & _ & _ & _ & ->). cbn.
    intros Heq. apply (f_equal length) in Heq. cbn in Heq. lia.
  - now apply allocateSpan_None in Hr as (_ & Hlog & _).
Qed.

(** X21. Sizes 1024 and 1025 fall on either side of the small/large test: a
    request of 1024 is served from the thread cache of class 7 when that
    holds a block, without any system call, while a request of 1025 always
    goes to the page heap.  On the large path the byte total is [size + sizeof(BlockHeader)] and the
    number of pages asked from the page heap is that total rounded up to
    whole pages (both formed in [size_t]; exact whenever
    [size + sizeof(BlockHeader) + 4095] fits in 64 bits); if the page heap
    fails the result is null, otherwise the header at the start of the span
    receives the exact [size] and the result is the address just past it. *)
Theorem allocate_large_path (os : option Z) (size : Z) (st : State) :
  MAX_SMALL_ALLOC_SIZE < size < 2 ^ 64 ->
  (forall a, os = Some a -> 0 <= a < 2 ^ 64) ->
  let total_size := wrap64 (size + sizeof_BlockHeader) in
  let pages := wrap64 (total_size + 4095) / 4096 in
  let r := allocateSpan os pages st in
  allocate os 1024 st = allocate_small os 1024 st /\
  (thread_list st 7 <> 0 ->
   allocate os 1024 st = pop_block 7 st /\
   os_log (snd (allocate os 1024 st)) = os_log st) /\
  allocate os 1025 st = allocate_large os 1025 st /\
  os_log (snd (allocate os 1025 st)) <> os_log st /\
  allocate os size st = allocate_large os size st /\
  (size + sizeof_BlockHeader + 4095 < 2 ^ 64 ->
   total_size = size + sizeof_BlockHeader /\
   4096 * (pages - 1) < size + sizeof_BlockHeader <= 4096 * pages) /\
  match fst r with
  | None => allocate os size st = (0, snd r)
  | Some span =>
      let header := 4096 * start_page_id (span_memory (snd r) !!! span) in
      allocate os size st =
        (header + sizeof_BlockHeader,
         set_mem (store header size (mem (snd r))) (snd r)) /\
      load (mem (snd (allocate os size st)))
           (fst (allocate os size st) - sizeof_BlockHeader) = size /\
      (forall a, os = Some a -> a mod 4096 = 0 ->
                 fst (allocate os size st) = a + sizeof_BlockHeader)
  end.
Proof.
  intros Hsz Hos total_size pages r. unfold MAX_SMALL_ALLOC_SIZE in Hsz.
  assert (allocate os size st = allocate_large os size st) as Hlarge.
  { unfold allocate, MAX_SMALL_ALLOC_SIZE.
    destruct (Z.eqb_spec size 0); [lia|].
    destruct (Z.ltb_spec 1024 size); [reflexivity | lia]. }
  split; [reflexivity|].
  split.
  { intros Hne. unfold thread_list in Hne.
    assert (allocate os 1024 st = pop_block 7 st) as ->; [| now split].
    change (allocate os 1024 st) with (allocate_small os 1024 st).
    unfold allocate_small. change (getSizeClassIndex 1024) with 7.
    cbn [Z.leb Z.compare Pos.compare Pos.compare_cont].
    now destruct (Z.eqb_spec (free_lists (my_cache st) !!! Z.to_nat 7) 0). }
  split; [reflexivity|].
  split; [apply allocate_large_os_log|].
  split; [exact Hlarge|].
  split; [intros Hov; apply large_page_count_exact; lia|].
  rewrite Hlarge. unfold allocate_large.
  rewrite large_page_count. fold total_size. fold pages. fold r.
  destruct r as [[span|] st1] eqn:Hr; cbn [fst snd]; [| reflexivity].
  apply allocateSpan_Some in Hr as (a & -> & Hroom & -> & ->).
  cbn [span_memory mem]. rewrite lookup_total_insert_eq. cbn [start_page_id].
  specialize (Hos a eq_refl).
  rewrite shiftr_page, shiftl_page.
  assert (0 <= a / 4096 * 4096 <= a) as Hhdr.
  { pose proof (Z.div_mod a 4096 ltac:(lia)).
    pose proof (Z.mod_pos_bound a 4096 ltac:(lia)). lia. }
  rewrite (wrap64_small (a / 4096 * 4096)) by lia.
  assert (a / 4096 * 4096 + sizeof_BlockHeader < 2 ^ 64) as Hend.
  { unfold sizeof_BlockHeader.
    assert (a / 4096 < 2 ^ 52) by (apply Z.div_lt_upper_bound; lia). lia. }
  rewrite wrap64_small by (unfold sizeof_BlockHeader in *; lia).
  replace (4096 * (a / 4096)) with (a / 4096 * 4096) by lia.
  split; [reflexivity|]. cbn [fst snd mem set_mem]. split.
  - replace (a / 4096 * 4096 + sizeof_BlockHeader - sizeof_BlockHeader)
      with (a / 4096 * 4096) by lia.
    apply load_store_eq.
  - intros a' [= <-] Hal.
    pose proof (Z.div_mod a 4096 ltac:(lia)). lia.
Qed.

Lemma allocate_large_path_witness :
  let os := Some 40960 in
  let size := 2000 in
  let st := init_state in
  let total_size := wrap64 (size + sizeof_BlockHeader) in
  let pages := wrap64 (total_size + 4095) / 4096 in
  let r := allocateSpan os pages st in
  allocate os 1024 st = allocate_small os 1024 st /\
  (thread_list st 7 <> 0 ->
   allocate os 1024 st = pop_block 7 st /\
   os_log (snd (allocate os 1024 st)) = os_log st) /\
  allocate os 1025 st = allocate_large os 1025 st /\
  os_log (snd (allocate os 1025 st)) <> os_log st /\
  allocate os size st = allocate_large os size st /\
  (size + sizeof_BlockHeader + 4095 < 2 ^ 64 ->
   total_size = size + sizeof_BlockHeader /\
   4096 * (pages - 1) < size + sizeof_BlockHeader <= 4096 * pages) /\
  match fst r with
  | None => allocate os size st = (0, snd r)
  | Some span =>
      let header := 4096 * start_page_id (span_memory (snd r) !!! span) in
      allocate os size st =
        (header + sizeof_BlockHeader,
         set_mem (store header size (mem (snd r))) (snd r)) /\
      load (mem (snd (allocate os size st)))
           (fst (allocate os size st) - sizeof_BlockHeader) = size /\
      (forall a, os = Some a -> a mod 4096 = 0 ->
                 fst (allocate os size st) = a + sizeof_BlockHeader)
  end.
Proof.
  apply (allocate_large_path (Some 40960) 2000 init_state).
  - unfold MAX_SMALL_ALLOC_SIZE. lia.
  - intros a [= <-]. lia.
Defined.

(** C4, at the failing input.  For [size = 2^64 - 1] the byte total
    [size + sizeof(BlockHeader)] wraps around to 7, so [allocate] asks the
    page heap for a single page instead of the total rounded up to whole
    pages; with [mmap] answering 40960 the result is 40968 with the full
    size in the header, although one page is far less than [size + 8]
    bytes.  For [size = 2^64 - 8] the total does not wrap but the round-up
    does: zero pages are requested. *)
Theorem allocate_size_max_one_page :
  let size := 2 ^ 64 - 1 in
  let r := allocate (Some 40960) size init_state in
  MAX_SMALL_ALLOC_SIZE < size < 2 ^ 64 /\
  os_log (snd r) = [Mmap 4096 (Some 40960)] /\
  fst r = 40968 /\
  load (mem (snd r)) 40960 = size /\
  4096 * 1 < size + sizeof_BlockHeader /\
  os_log (snd (allocate None (2 ^ 64 - 8) init_state)) = [Mmap 0 None].
Proof. vm_compute. repeat split; reflexivity. Qed.

(** C5. Round trip of a 2000-byte object: the word just before the returned
    pointer holds 2000, the span is the one page of the mapping, and after
    [deallocate] no address of that page is found by [lookupSpan]: the span's
    entry has left [page_map] and the page was unmapped. *)
Theorem large_round_trip (a : Z) (st : State) :
  0 <= a -> a mod 4096 = 0 -> a + 4096 <= 2 ^ 64 ->
  wrap64 (span_offset st + sizeof_Span) <= sizeof_span_memory ->
  let r := allocate (Some a) 2000 st in
  let st2 := deallocate (fst r) (snd r) in
  fst r = a + sizeof_BlockHeader /\
  load (mem (snd r)) (fst r - sizeof_BlockHeader) = 2000 /\
  span_memory (snd r) !!! span_offset st = MkSpan (a / 4096) 1 0 0 false /\
  (forall addr, a <= addr < a + 4096 ->
                lookupSpan addr (snd r) = Some (span_offset st)) /\
  (forall addr, a <= addr < a + 4096 -> lookupSpan addr st2 = None) /\
  os_log st2 = Munmap a 4096 :: Mmap 4096 (Some a) :: os_log st.
Proof.
  intros Ha Hal Hend Hroom r st2.
  assert (a / 4096 * 4096 = a) as Hpage.
  { pose proof (Z.div_mod a 4096 ltac:(lia)). lia. }
  assert (0 <= a / 4096 < 2 ^ 52) as Hpid.
  { split; [apply Z.div_pos; lia | apply Z.div_lt_upper_bound; lia]. }
  assert (r = (a + sizeof_BlockHeader,
               MkState (store a 2000 (mem st))
                 (Mmap 4096 (Some a) :: os_log st)
                 (<[span_offset st := MkSpan (a / 4096) 1 0 0 false]>
                    (span_memory st))
                 (wrap64 (span_offset st + sizeof_Span))
                 (<[a / 4096 := span_offset st]> (page_map st))
                 (transfer_caches st) (my_cache st))) as Hr.
  { subst r. unfold allocate, allocate_large. cbn [Z.eqb Z.ltb Z.compare
      MAX_SMALL_ALLOC_SIZE Pos.compare Pos.compare_cont].
    change (Z.shiftr (wrap64 (wrap64 (2000 + sizeof_BlockHeader) + 4095))
                     PAGE_SHIFT) with 1.
    rewrite allocateSpan_mapped by exact Hroom.
    cbn [span_memory mem]. rewrite lookup_total_insert_eq. cbn [start_page_id].
    rewrite shiftr_page, shiftl_page, Hpage.
    rewrite (wrap64_small a) by lia.
    rewrite wrap64_small by (unfold sizeof_BlockHeader; lia).
    unfold set_mem. cbn.
    change (Z.to_nat 1) with 1%nat. cbn [map_pages].
    change (wrap64 (Z.shiftl 1 PAGE_SHIFT)) with 4096.
    rewrite (wrap64_small (a / 4096 + 0)) by lia.
    now rewrite Z.add_0_r. }
  assert (st2 = MkState (store a 2000 (mem st))
                 (Munmap a 4096 :: Mmap 4096 (Some a) :: os_log st)
                 (<[span_offset st := MkSpan (a / 4096) 1 0 0 false]>
                    (span_memory st))
                 (wrap64 (span_offset st + sizeof_Span))
                 (delete (a / 4096) (<[a / 4096 := span_offset st]> (page_map st)))
                 (transfer_caches st) (my_cache st)) as Hst2.
  { subst st2. rewrite Hr. cbn [fst snd]. unfold deallocate.
    destruct (Z.eqb_spec (a + sizeof_BlockHeader) 0) as [E|_];
      [unfold sizeof_BlockHeader in E; lia|].
    replace (a + sizeof_BlockHeader - sizeof_BlockHeader) with a by lia.
    rewrite (wrap64_small a) by lia. cbn [mem].
    rewrite load_store_eq. cbn [Z.ltb Z.compare MAX_SMALL_ALLOC_SIZE
      Pos.compare Pos.compare_cont].
    unfold lookupSpan. cbn [page_map]. rewrite shiftr_page, lookup_insert_eq.
    unfold deallocateSpan. cbn [span_memory].
    rewrite lookup_total_insert_eq. cbn [start_page_id num_pages].
    rewrite shiftl_page, Hpage. rewrite (wrap64_small a) by lia.
    unfold set_page_map, log_call. cbn.
    change (Z.to_nat 1) with 1%nat. cbn [erase_pages].
    change (wrap64 (Z.shiftl 1 PAGE_SHIFT)) with 4096.
    rewrite (wrap64_small (a / 4096 + 0)) by lia.
    now rewrite Z.add_0_r. }
  rewrite Hst2, Hr. cbn [fst snd mem os_log span_memory].
  split; [reflexivity|]. split.
  { replace (a + sizeof_BlockHeader - sizeof_BlockHeader) with a by lia.
    apply load_store_eq. }
  split; [apply lookup_total_insert_eq|].
  split; [| split; [| reflexivity]].
  - intros addr Haddr. unfold lookupSpan. cbn [page_map].
    rewrite shiftr_page, (page_of_aligned a addr) by assumption.
    apply lookup_insert_eq.
  - intros addr Haddr. unfold lookupSpan. cbn [page_map].
    rewrite shiftr_page, (page_of_aligned a addr) by assumption.
    apply lookup_delete_eq.
Qed.

Lemma large_round_trip_witness :
  let a := 40960 in
  let st := init_state in
  let r := allocate (Some a) 2000 st in
  let st2 := deallocate (fst r) (snd r) in
  fst r = a + sizeof_BlockHeader /\
  load (mem (snd r)) (fst r - sizeof_BlockHeader) = 2000 /\
  span_memory (snd r) !!! span_offset st = MkSpan (a / 4096) 1 0 0 false /\
  (forall addr, a <= addr < a + 4096 ->
                lookupSpan addr (snd r) = Some (span_offset st)) /\
  (forall addr, a <= addr < a + 4096 -> lookupSpan addr st2 = None) /\
  os_log st2 = Munmap a 4096 :: Mmap 4096 (Some a) :: os_log st.
Proof.
  apply (large_round_trip 40960 init_state).
  - lia.
  - reflexivity.
  - lia.
  - vm_compute. discriminate.
Defined.

(** ** Failure of the page heap *)

Lemma getSizeClassIndex_range (s : Z) : 0 <= getSizeClassIndex s <= 8.
Proof.
  destruct (getSizeClassIndex_cases s) as
    [[H ->]|[[H ->]|[[H ->]|[[H ->]|[[H ->]|[[H ->]|[[H ->]|[[H ->]|[H ->]]]]]]]]];
    lia.
Qed.

Lemma getClassSizeFromIndex_bounds (j : Z) :
  0 <= j < 8 -> 8 <= getClassSizeFromIndex j <= 1024.
Proof.
  intros Hj.
  destruct (getClassSizeFromIndex_cases j Hj) as
    [[-> ->]|[[-> ->]|[[-> ->]|[[-> ->]|[[-> ->]|[[-> ->]|[[-> ->]|[-> ->]]]]]]]];
    lia.
Qed.

Lemma transfer_to_thread_os_log (ci : Z) (st : State) :
  os_log (transfer_to_thread ci st) = os_log st.
Proof. unfold transfer_to_thread. cbv zeta. now destruct (_ =? 0). Qed.

Lemma pop_block_os_log (index : Z) (st : State) :
  os_log (snd (pop_block index st)) = os_log st.
Proof. reflexivity. Qed.

(** C6. When the page heap cannot serve ([mmap] fails or the descriptor pool
    is exhausted) and this call of [allocate] did reach the operating system,
    the result is null; memory, page map and every cache are as before the
    call, and on the small path the thread cache's list for the class is
    still empty.  The embedding is a total function: there is no other
    outcome. *)
Theorem allocate_span_failure_null (os : option Z) (size : Z) (st : State) :
  span_request_fails os st ->
  os_log (snd (allocate os size st)) <> os_log st ->
  fst (allocate os size st) = 0 /\
  mem (snd (allocate os size st)) = mem st /\
  page_map (snd (allocate os size st)) = page_map st /\
  transfer_caches (snd (allocate os size st)) = transfer_caches st /\
  my_cache (snd (allocate os size st)) = my_cache st /\
  (size <= MAX_SMALL_ALLOC_SIZE ->
   free_lists (my_cache (snd (allocate os size st)))
     !!! Z.to_nat (getSizeClassIndex size) = 0).
Proof.
  intros Hfail. unfold allocate.
  destruct (Z.eqb_spec size 0) as [|Hnz]; [cbn; congruence|].
  destruct (Z.ltb_spec MAX_SMALL_ALLOC_SIZE size) as [Hbig|Hsmall].
  - unfold allocate_large.
    destruct (allocateSpan os _ st) as [[span|] st1] eqn:Hr; cbn [fst snd].
    + apply allocateSpan_Some in Hr as (a & -> & Hroom & _).
      destruct Hfail as [|Hx]; [discriminate | unfold pool_exhausted in Hx; lia].
    + apply allocateSpan_None in Hr as (_ & _ & Hm & _ & _ & Hp & Ht & Hc).
      intros _. repeat split; auto. lia.
  - unfold allocate_small.
    pose proof (getSizeClassIndex_range size) as Hidx.
    destruct (Z.leb_spec 8 (getSizeClassIndex size)) as [|Hlt];
      [cbn; congruence|].
    destruct (Z.eqb_spec (free_lists (my_cache st)
                            !!! Z.to_nat (getSizeClassIndex size)) 0)
      as [Hempty|Hne]; [| rewrite pop_block_os_log; congruence].
    unfold fetchFromTransferCache.
    destruct (Z.leb_spec 8 (getSizeClassIndex size)); [lia|].
    unfold refill_central. cbv zeta.
    destruct (Z.eqb_spec (count (transfer_caches st
                                   !!! Z.to_nat (getSizeClassIndex size))) 0)
      as [Hc0|Hcn].
    + pose proof (getClassSizeFromIndex_bounds (getSizeClassIndex size)
                    ltac:(lia)) as Hcb.
      destruct (Z.eqb_spec (getClassSizeFromIndex (getSizeClassIndex size)) 0);
        [lia|].
      destruct (allocateSpan os 1 st) as [[span|] st1] eqn:Hr.
      * apply allocateSpan_Some in Hr as (a & -> & Hroom & _).
        destruct Hfail as [|Hx];
          [discriminate | unfold pool_exhausted in Hx; lia].
      * apply allocateSpan_None in Hr as (_ & _ & Hm & _ & _ & Hp & Ht & Hc).
        rewrite Hc, Hempty. cbn [Z.eqb fst snd]. intros _.
        rewrite Hc. repeat split; auto.
    + set (st1 := transfer_to_thread _ st).
      pose proof (transfer_to_thread_os_log (getSizeClassIndex size) st) as Hl.
      fold st1 in Hl.
      destruct (_ =? 0); [cbn; congruence|].
      rewrite pop_block_os_log. congruence.
Qed.

Lemma allocate_span_failure_null_witness :
  let os := @None Z in
  let size := 100 in
  let st := init_state in
  fst (allocate os size st) = 0 /\
  mem (snd (allocate os size st)) = mem st /\
  page_map (snd (allocate os size st)) = page_map st /\
  transfer_caches (snd (allocate os size st)) = transfer_caches st /\
  my_cache (snd (allocate os size st)) = my_cache st /\
  (size <= MAX_SMALL_ALLOC_SIZE ->
   free_lists (my_cache (snd (allocate os size st)))
     !!! Z.to_nat (getSizeClassIndex size) = 0).
Proof.
  apply (allocate_span_failure_null None 100 init_state).
  - left. reflexivity.
  - vm_compute. discriminate.
Defined.

(** ** Scavenging *)

Lemma small_size_of_class (s c : Z) :
  getSizeClassIndex s = c -> c < 8 -> s <= MAX_SMALL_ALLOC_SIZE.
Proof.
  unfold MAX_SMALL_ALLOC_SIZE. intros <- Hc.
  destruct (getSizeClassIndex_cases s) as
    [[H E]|[[H E]|[[H E]|[[H E]|[[H E]|[[H E]|[[H E]|[[H E]|[H E]]]]]]]]];
    rewrite E in Hc; lia.
Qed.

Lemma deallocate_small_step (p c : Z) (st : State) :
  p <> 0 -> 0 <= c < 8 ->
  getSizeClassIndex (load (mem st) (header_of p)) = c ->
  deallocate p st =
  if SCAVENGE_THRESHOLD <? thread_len (push_free c (header_of p) st) c
  then releaseToTransferCache c (push_free c (header_of p) st)
  else push_free c (header_of p) st.
Proof.
  intros Hp Hc Hidx. unfold deallocate.
  destruct (Z.eqb_spec p 0); [contradiction|].
  fold (header_of p). cbv zeta.
  pose proof (small_size_of_class _ _ Hidx ltac:(lia)) as Hs.
  destruct (Z.ltb_spec MAX_SMALL_ALLOC_SIZE (load (mem st) (header_of p)));
    [lia|].
  rewrite Hidx. destruct (Z.leb_spec 8 c); [lia|]. reflexivity.
Qed.

Section PushFree.
Variables (c h : Z) (st : State).
Hypothesis Hc : 0 <= c < 8.
Hypothesis Hok : arrays_ok st.

Lemma push_free_arrays_ok : arrays_ok (push_free c h st).
Proof.
  destruct Hok as (H1 & H2 & H3). unfold arrays_ok, push_free. cbn.
  now rewrite !length_insert.
Qed.

Lemma push_free_thread_len :
  thread_len (push_free c h st) c = wrap_int (thread_len st c + 1).
Proof.
  destruct Hok as (H1 & H2 & H3). unfold thread_len, push_free. cbn.
  apply list_lookup_total_insert_eq. lia.
Qed.

Lemma push_free_thread_list : thread_list (push_free c h st) c = h.
Proof.
  destruct Hok as (H1 & H2 & H3). unfold thread_list, push_free. cbn.
  apply list_lookup_total_insert_eq. lia.
Qed.

Lemma push_free_mem :
  mem (push_free c h st) = store h (thread_list st c) (mem st).
Proof. reflexivity. Qed.

Lemma push_free_transfer_caches :
  transfer_caches (push_free c h st) = transfer_caches st.
Proof. reflexivity. Qed.
End PushFree.

(** Below the threshold a run of frees of one class only grows the thread
    cache: the transfer caches are untouched and only the freed headers are
    written. *)
Lemma deallocate_all_below_threshold (c : Z) (ptrs : list Z) :
  0 <= c < 8 ->
  forall st,
    arrays_ok st ->
    0 <= thread_len st c ->
    thread_len st c + Z.of_nat (length ptrs) <= SCAVENGE_THRESHOLD ->
    Forall (fun p => p <> 0 /\
                     getSizeClassIndex (load (mem st) (header_of p)) = c) ptrs ->
    NoDup (map header_of ptrs) ->
    arrays_ok (deallocate_all ptrs st) /\
    thread_len (deallocate_all ptrs st) c =
      thread_len st c + Z.of_nat (length ptrs) /\
    transfer_caches (deallocate_all ptrs st) = transfer_caches st /\
    (forall a, a ∉ map header_of ptrs ->
               load (mem (deallocate_all ptrs st)) a = load (mem st) a).
Proof.
  unfold SCAVENGE_THRESHOLD. intros Hc.
  induction ptrs as [|p ptrs IH]; intros st Hok Hlen Hsum Hall Hnd.
  - cbn. split; [exact Hok|]. split; [lia|]. split; reflexivity.
  - cbn [length map] in *. apply Forall_cons in Hall as [[Hp Hidx] Hall].
    apply NoDup_cons in Hnd as [Hnotin Hnd].
    cbn [deallocate_all fold_left].
    rewrite (deallocate_small_step p c st Hp Hc Hidx).
    rewrite push_free_thread_len by assumption.
    rewrite wrap_int_small by (unfold INT_MAX; lia).
    destruct (Z.ltb_spec SCAVENGE_THRESHOLD (thread_len st c + 1));
      [unfold SCAVENGE_THRESHOLD in *; lia|].
    fold (deallocate_all ptrs (push_free c (header_of p) st)).
    destruct (IH (push_free c (header_of p) st)) as (Hok' & Hlen' & Htc & Hmem).
    + now apply push_free_arrays_ok.
    + rewrite push_free_thread_len, wrap_int_small by
        (try assumption; unfold INT_MAX; lia). lia.
    + rewrite push_free_thread_len, wrap_int_small by
        (try assumption; unfold INT_MAX; lia). lia.
    + rewrite Forall_forall in Hall |- *. intros q Hq.
      destruct (Hall q Hq) as [Hq0 Hqi]. split; [exact Hq0|].
      rewrite push_free_mem, load_store_ne; [exact Hqi|].
      intros E. apply Hnotin. rewrite E.
      apply list_elem_of_fmap. eauto.
    + exact Hnd.
    + rewrite push_free_thread_len, wrap_int_small in Hlen' by
        (try assumption; unfold INT_MAX; lia).
      split; [exact Hok'|]. split; [lia|]. split; [exact Htc|].
      intros a Ha. rewrite Hmem, push_free_mem, load_store_ne; auto.
      * intros E. apply Ha. rewrite E. apply list_elem_of_here.
      * intros Hin. apply Ha. now apply list_elem_of_further.
Qed.

Lemma releaseToTransferCache_counts (c : Z) (st : State) :
  0 <= c < 8 -> arrays_ok st -> thread_len st c <> 0 ->
  thread_len (releaseToTransferCache c st) c = 0 /\
  thread_list (releaseToTransferCache c st) c = 0 /\
  count (central (releaseToTransferCache c st) c) =
    wrap_int (count (central st c) + thread_len st c) /\
  tc_list (central (releaseToTransferCache c st) c) = thread_list st c.
Proof.
  intros Hc (H1 & H2 & H3) Hlen. unfold releaseToTransferCache.
  destruct (Z.leb_spec 8 c); [lia|].
  unfold thread_len in Hlen.
  destruct (Z.eqb_spec (list_lengths (my_cache st) !!! Z.to_nat c) 0);
    [contradiction|].
  cbn [orb]. cbv zeta. unfold thread_len, thread_list, central. cbn.
  rewrite !list_lookup_total_insert_eq by lia. cbn. auto.
Qed.

(** C1, as stated, fails on the code: in the concrete scenario of 129 frees
    of class 8 the thread cache does not keep 97 blocks and the transfer
    cache does not gain 32. *)
Lemma scavenge_batch_counterexample :
  ~ (thread_len (deallocate_all scavenge_ptrs scavenge_state) 0 = 97 /\
     count (central (deallocate_all scavenge_ptrs scavenge_state) 0) =
       count (central scavenge_state 0) + 32).
Proof.
  assert (thread_len (deallocate_all scavenge_ptrs scavenge_state) 0 = 0) as H
    by (vm_compute; reflexivity).
  rewrite H. intros [E _]. discriminate E.
Qed.

(** C1, amended.  Starting with a thread-cache length of zero for class [c],
    129 frees of distinct blocks of that class (no allocation in between)
    cross the threshold of 128 at the last call, and
    [releaseToTransferCache] hands over the whole list: the thread cache ends
    empty (length 0, null head) and the transfer cache's count grows by 129,
    its list starting at the block freed last. *)
Theorem scavenge_releases_whole_list (c : Z) (ptrs : list Z) (st : State) :
  0 <= c < 8 ->
  arrays_ok st ->
  thread_len st c = 0 ->
  length ptrs = 129%nat ->
  Forall (fun p => p <> 0 /\
                   getSizeClassIndex (load (mem st) (header_of p)) = c) ptrs ->
  NoDup (map header_of ptrs) ->
  0 <= count (central st c) <= INT_MAX - 129 ->
  thread_len (deallocate_all ptrs st) c = 0 /\
  thread_list (deallocate_all ptrs st) c = 0 /\
  count (central (deallocate_all ptrs st) c) = count (central st c) + 129 /\
  tc_list (central (deallocate_all ptrs st) c) = header_of (List.last ptrs 0).
Proof.
  intros Hc Hok Hlen0 Hlen Hall Hnd Hcount.
  destruct ptrs as [|p0 ptrs0] using rev_ind; [discriminate|].
  clear IHptrs0. rename ptrs0 into front, p0 into p.
  rewrite length_app in Hlen. cbn in Hlen.
  apply Forall_app in Hall as [Hfront Hlast].
  apply Forall_cons in Hlast as [[Hp Hidx] _].
  rewrite map_app in Hnd. apply NoDup_app in Hnd as (Hndf & Hdisj & _).
  assert (header_of p ∉ map header_of front) as Hnotin.
  { intros Hin. apply (Hdisj _ Hin). cbn. apply list_elem_of_here. }
  unfold deallocate_all. rewrite fold_left_app. cbn [fold_left].
  fold (deallocate_all front st).
  destruct (deallocate_all_below_threshold c front Hc st Hok)
    as (Hok' & Hlen' & Htc & Hmem); auto.
  { lia. }
  { unfold SCAVENGE_THRESHOLD. lia. }
  set (st1 := deallocate_all front st) in *.
  rewrite (deallocate_small_step p c st1 Hp Hc)
    by (now rewrite Hmem by exact Hnotin).
  rewrite push_free_thread_len by assumption.
  rewrite Hlen', Hlen0.
  replace (0 + Z.of_nat (length front)) with 128 by lia.
  rewrite wrap_int_small by (unfold INT_MAX; lia).
  change (SCAVENGE_THRESHOLD <? 128 + 1) with true. cbv iota.
  destruct (releaseToTransferCache_counts c (push_free c (header_of p) st1))
    as (R1 & R2 & R3 & R4).
  { exact Hc. }
  { now apply push_free_arrays_ok. }
  { rewrite push_free_thread_len, Hlen', Hlen0 by assumption.
    replace (0 + Z.of_nat (length front)) with 128 by lia.
    rewrite wrap_int_small by (unfold INT_MAX; lia). lia. }
  rewrite R1, R2, R3, R4.
  rewrite push_free_thread_len, push_free_thread_list by assumption.
  rewrite Hlen', Hlen0.
  replace (0 + Z.of_nat (length front)) with 128 by lia.
  rewrite (wrap_int_small (128 + 1)) by (unfold INT_MAX; lia).
  unfold central at 1. rewrite push_free_transfer_caches, Htc.
  fold (central st c).
  rewrite wrap_int_small by (unfold INT_MAX in *; lia).
  rewrite List.last_last.
  repeat split; lia.
Qed.

Lemma scavenge_releases_whole_list_witness :
  thread_len (deallocate_all scavenge_ptrs scavenge_state) 0 = 0 /\
  thread_list (deallocate_all scavenge_ptrs scavenge_state) 0 = 0 /\
  count (central (deallocate_all scavenge_ptrs scavenge_state) 0) =
    count (central scavenge_state 0) + 129 /\
  tc_list (central (deallocate_all scavenge_ptrs scavenge_state) 0) =
    header_of (List.last scavenge_ptrs 0).
Proof.
  apply (scavenge_releases_whole_list 0 scavenge_ptrs scavenge_state).
  - lia.
  - repeat split.
  - reflexivity.
  - reflexivity.
  - apply (bool_decide_unpack _). vm_compute. reflexivity.
  - apply (bool_decide_unpack _). vm_compute. reflexivity.
  - vm_compute. split; discriminate.
Defined.

(** ** Free lists in memory *)

Lemma segment_app (m : gmap Z Z) (l1 l2 : list Z) :
  forall h e,
    segment m h (l1 ++ l2) e <->
    exists mid, segment m h l1 mid /\ segment m mid l2 e.
Proof.
  induction l1 as [|b l1 IH]; intros h e; cbn.
  - split.
    + intros H. exists h. auto.
    + intros (mid & -> & H). exact H.
  - split.
    + intros (-> & Hb & H). apply IH in H as (mid & H1 & H2).
      exists mid. auto.
    + intros (mid & (-> & Hb & H1) & H2). repeat split; auto.
      apply IH. eauto.
Qed.

(** Frame: a segment only depends on the [next] words of its own blocks. *)
Lemma segment_frame (m m' : gmap Z Z) (l : list Z) :
  forall h e,
    (forall x, x ∈ l -> load m' x = load m x) ->
    segment m h l e -> segment m' h l e.
Proof.
  induction l as [|b l IH]; intros h e Hfr; cbn; [auto|].
  intros (-> & Hb & H). repeat split; auto.
  rewrite Hfr by apply list_elem_of_here.
  apply IH; [| exact H].
  intros x Hx. apply Hfr. now apply list_elem_of_further.
Qed.

Lemma segment_store_other (m : gmap Z Z) (l : list Z) (a v h e : Z) :
  a ∉ l -> segment m h l e -> segment (store a v m) h l e.
Proof.
  intros Ha. apply segment_frame. intros x Hx.
  apply load_store_ne. intros ->. contradiction.
Qed.

Lemma chain_functional (m : gmap Z Z) (l1 : list Z) :
  forall h l2, chain m h l1 -> chain m h l2 -> l1 = l2.
Proof.
  unfold chain. induction l1 as [|b l1 IH]; intros h [|b' l2]; cbn.
  - reflexivity.
  - intros -> (E & Hb & _). congruence.
  - intros (-> & Hb & _) E. congruence.
  - intros (-> & Hb & H1) (E & _ & H2). subst b'. f_equal. eauto.
Qed.

Lemma chain_NoDup (m : gmap Z Z) (l : list Z) :
  forall h, chain m h l -> NoDup l.
Proof.
  induction l as [|b l IH]; intros h Hch; [constructor|].
  destruct Hch as (-> & Hb & Hrest).
  constructor; [| eauto].
  intros Hin. apply list_elem_of_split in Hin as (r1 & r2 & ->).
  pose proof Hrest as Hsplit.
  apply segment_app in Hsplit as (mid & _ & (-> & _ & Hr2)).
  pose proof (chain_functional m _ _ _ Hrest Hr2) as E.
  apply (f_equal length) in E. rewrite length_app in E. cbn in E. lia.
Qed.

Lemma chain_null (m : gmap Z Z) (l : list Z) : chain m 0 l -> l = [].
Proof. destruct l; [reflexivity|]. intros (E & Hb & _). congruence. Qed.

(** The tail-finding loops on a well-formed list: [k] steps from the head
    reach block number [k]. *)
Lemma walk_segment (m : gmap Z Z) (k : nat) :
  forall h l e,
    segment m h l e -> (k < length l)%nat -> walk k m h = nth k l 0.
Proof.
  induction k as [|k IH]; intros h l e Hseg Hk.
  - destruct l as [|b l]; [cbn in Hk; lia|]. destruct Hseg as (-> & _). reflexivity.
  - destruct l as [|b [|b' l]]; cbn in Hk; try lia.
    destruct Hseg as (-> & Hb & Hrest). pose proof Hrest as (E & Hb' & _).
    cbn [walk].
    destruct (Z.eqb_spec b 0); [contradiction|].
    destruct (Z.eqb_spec (load m b) 0); [congruence|].
    cbn [orb]. rewrite (IH _ _ _ Hrest) by (cbn; lia). reflexivity.
Qed.

(** ** Moving a batch to the thread cache *)

Lemma transfer_to_thread_spec (c : Z) (st : State) (l : list Z) :
  0 <= c < 8 -> arrays_ok st ->
  chain (mem st) (tc_list (central st c)) l ->
  count (central st c) = Z.of_nat (length l) ->
  l <> [] -> Z.of_nat (length l) <= INT_MAX ->
  let b := Nat.min (length l) 32 in
  let st' := transfer_to_thread c st in
  (exists t, t ∈ take b l /\ mem st' = store t 0 (mem st)) /\
  chain (mem st') (thread_list st' c) (take b l) /\
  thread_len st' c = Z.of_nat b /\
  chain (mem st') (tc_list (central st' c)) (drop b l) /\
  count (central st' c) = Z.of_nat (length l) - Z.of_nat b /\
  arrays_ok st' /\
  (forall c', 0 <= c' < 8 -> c' <> c ->
     central st' c' = central st c' /\
     thread_list st' c' = thread_list st c' /\
     thread_len st' c' = thread_len st c') /\
  os_log st' = os_log st /\ page_map st' = page_map st /\
  span_memory st' = span_memory st /\ span_offset st' = span_offset st.
Proof.
  intros Hc Hok Hch Hcount Hne Hmax b st'.
  destruct Hok as (Ha1 & Ha2 & Ha3).
  assert (1 <= b <= length l)%nat as Hb.
  { subst b. destruct l; [contradiction|]. cbn [length]. lia. }
  pose proof (chain_NoDup _ _ _ Hch) as Hnd.
  rewrite <- (take_drop b l) in Hch, Hnd.
  assert (length (take b l) = b) as Hlt by (rewrite length_take; lia).
  destruct (take b l) as [|t0 pre0] eqn:Htake using rev_ind;
    [cbn in Hlt; lia|].
  clear IHpre0. rename pre0 into pre, t0 into t.
  rewrite length_app in Hlt. cbn in Hlt.
  apply segment_app in Hch as (mid & Hpre & Hpost).
  apply segment_app in Hpre as (mid' & Hpre' & (-> & Ht & Hnext)).
  cbn in Hnext.
  apply NoDup_app in Hnd as (Hnd1 & Hdisj & Hnd2).
  apply NoDup_app in Hnd1 as (_ & Hdisj1 & _).
  assert (t ∉ pre) as Htpre.
  { intros Hin. apply (Hdisj1 _ Hin). apply list_elem_of_here. }
  assert (t ∉ drop b l) as Htpost.
  { apply Hdisj. apply elem_of_app. right. apply list_elem_of_here. }
  assert (walk (Z.to_nat (Z.min (count (central st c)) 32 - 1)) (mem st)
               (tc_list (central st c)) = t) as Hwalk.
  { replace (Z.to_nat (Z.min (count (central st c)) 32 - 1)) with (length pre)
      by lia.
    rewrite (walk_segment (mem st) (length pre) _ ((pre ++ [t]) ++ drop b l) 0).
    - rewrite <- app_assoc. cbn. apply nth_middle.
    - apply segment_app. exists mid. split; [| exact Hpost].
      apply segment_app. exists t. cbn. auto.
    - rewrite !length_app. cbn. lia. }
  assert (st' =
    set_my_cache
      (set_list_length (Z.to_nat c) (Z.of_nat b)
         (set_free_list (Z.to_nat c) (tc_list (central st c)) (my_cache st)))
      (set_transfer_cache (Z.to_nat c)
         (MkTransferCache mid (Z.of_nat (length l) - Z.of_nat b))
         (set_mem (store t 0 (mem st)) st))) as Hst'.
  { subst st'. unfold transfer_to_thread. cbv zeta.
    fold (central st c). rewrite Hwalk.
    destruct (Z.eqb_spec t 0); [contradiction|].
    rewrite Hnext, Hcount.
    replace (Z.min (Z.of_nat (length l)) 32) with (Z.of_nat b) by lia.
    rewrite wrap_int_small by (unfold INT_MAX in *; lia). reflexivity. }
  rewrite Hst'. unfold thread_list, thread_len, central, arrays_ok. cbn.
  rewrite !list_lookup_total_insert_eq by lia. cbn.
  rewrite !length_insert.
  split; [exists t; split; [apply elem_of_app; right;
                            apply list_elem_of_here | reflexivity]|].
  split.
  { apply segment_app. exists t. split.
    - now apply segment_store_other.
    - cbn. rewrite load_store_eq. auto. }
  split; [reflexivity|].
  split; [now apply segment_store_other|].
  split; [reflexivity|].
  split; [auto|].
  split; [| auto].
  intros c' Hc' Hneq.
  rewrite !list_lookup_total_insert_ne by lia. auto.
Qed.

(** ** Carving a page into blocks *)

Lemma elem_of_block_addrs (start bsz x : Z) (i k : nat) :
  x ∈ block_addrs start bsz i k <->
  exists j, (i <= j < i + k)%nat /\ x = start + Z.of_nat j * bsz.
Proof.
  unfold block_addrs. rewrite list_elem_of_fmap. split.
  - intros (j & -> & Hj). apply elem_of_seq in Hj. eauto.
  - intros (j & Hj & ->). exists j. split; [reflexivity|].
    now apply elem_of_seq.
Qed.

Lemma length_block_addrs (start bsz : Z) (i k : nat) :
  length (block_addrs start bsz i k) = k.
Proof. unfold block_addrs. now rewrite length_map, length_seq. Qed.

Lemma carve_spec (start bsz : Z) (k : nat) :
  forall (i : nat) (m : gmap Z Z) (head : Z),
    0 < start -> 0 < bsz ->
    start + Z.of_nat (i + k) * bsz <= 2 ^ 64 ->
    segment (fst (carve k (Z.of_nat i) start bsz m head))
            (snd (carve k (Z.of_nat i) start bsz m head))
            (rev (block_addrs start bsz i k)) head /\
    (forall x, x ∉ block_addrs start bsz i k ->
               load (fst (carve k (Z.of_nat i) start bsz m head)) x = load m x).
Proof.
  induction k as [|k IH]; intros i m head Hs Hb Hend.
  - cbn. auto.
  - cbn [carve].
    assert (wrap64 (start + wrap64 (Z.of_nat i * bsz)) =
            start + Z.of_nat i * bsz) as Eb.
    { rewrite (wrap64_small (Z.of_nat i * bsz)) by nia.
      apply wrap64_small. nia. }
    rewrite Eb. set (blk := start + Z.of_nat i * bsz).
    replace (Z.of_nat i + 1) with (Z.of_nat (S i)) by lia.
    destruct (IH (S i) (store blk head m) blk Hs Hb) as [Hseg Hfr];
      [nia|].
    assert (blk ∉ block_addrs start bsz (S i) k) as Hfresh.
    { rewrite elem_of_block_addrs. intros (j & Hj & E). subst blk. nia. }
    change (block_addrs start bsz i (S k))
      with (blk :: block_addrs start bsz (S i) k).
    split.
    + cbn [rev]. apply segment_app. exists blk. split; [exact Hseg|].
      cbn. rewrite Hfr by exact Hfresh. rewrite load_store_eq.
      repeat split. subst blk. nia.
    + intros x Hx. apply not_elem_of_cons in Hx as [Hne Hx].
      rewrite Hfr by exact Hx. now apply load_store_ne.
Qed.

Lemma block_geometry (c : Z) :
  0 <= c < 8 ->
  let bsz := getClassSizeFromIndex c + sizeof_BlockHeader in
  16 <= bsz <= 1032 /\ 3 <= 4096 / bsz <= 256 /\ 4096 / bsz * bsz <= 4096.
Proof.
  intros Hc. unfold sizeof_BlockHeader.
  destruct (getClassSizeFromIndex_cases c Hc) as
    [[-> ->]|[[-> ->]|[[-> ->]|[[-> ->]|[[-> ->]|[[-> ->]|[[-> ->]|[-> ->]]]]]]]];
    vm_compute; repeat split; discriminate.
Qed.

(** The refill of an empty transfer cache from one fresh page. *)
Lemma refill_central_spec (a c : Z) (st : State) :
  0 <= c < 8 -> arrays_ok st ->
  count (central st c) = 0 ->
  0 < a -> a mod 4096 = 0 -> a + 4096 <= 2 ^ 64 ->
  wrap64 (span_offset st + sizeof_Span) <= sizeof_span_memory ->
  let bsz := getClassSizeFromIndex c + sizeof_BlockHeader in
  let n := Z.to_nat (Z.max 1 (4096 / bsz)) in
  exists st1,
    refill_central (Some a) c st = (true, st1) /\
    segment (mem st1) (tc_list (central st1 c))
            (rev (block_addrs a bsz 0 n)) (tc_list (central st c)) /\
    count (central st1 c) = Z.of_nat n /\
    (forall x, x ∉ block_addrs a bsz 0 n -> load (mem st1) x = load (mem st) x) /\
    arrays_ok st1 /\
    my_cache st1 = my_cache st /\
    (forall c', 0 <= c' < 8 -> c' <> c -> central st1 c' = central st c') /\
    os_log st1 = Mmap 4096 (Some a) :: os_log st /\
    lookupSpan a st1 = Some (span_offset st) /\
    span_memory st1 !!! span_offset st = MkSpan (a / 4096) 1 0 0 false.
Proof.
  intros Hc (Ha1 & Ha2 & Ha3) Hcount Ha Hal Hend Hroom bsz n.
  pose proof (block_geometry c Hc) as (Hbsz & Hn & Hfit). fold bsz in Hbsz, Hn, Hfit.
  assert (a / 4096 * 4096 = a) as Hpage.
  { pose proof (Z.div_mod a 4096 ltac:(lia)). lia. }
  assert (0 <= a / 4096 < 2 ^ 52) as Hpid.
  { split; [apply Z.div_pos; lia | apply Z.div_lt_upper_bound; lia]. }
  unfold refill_central. cbv zeta. fold (central st c). rewrite Hcount.
  cbn [Z.eqb].
  destruct (Z.eqb_spec (getClassSizeFromIndex c) 0);
    [unfold bsz, sizeof_BlockHeader in Hbsz; lia|].
  rewrite (wrap64_small (getClassSizeFromIndex c + sizeof_BlockHeader))
    by (fold bsz; lia).
  fold bsz.
  destruct (Z.eqb_spec (4096 / bsz) 0); [lia|].
  rewrite allocateSpan_mapped by exact Hroom.
  cbn [span_memory mem]. rewrite lookup_total_insert_eq. cbn [start_page_id].
  rewrite shiftr_page, shiftl_page, Hpage, (wrap64_small a) by lia.
  assert (Z.to_nat (4096 / bsz) = n) as -> by (subst n; lia).
  destruct (carve_spec a bsz n 0%nat (mem st) (tc_list (central st c)))
    as [Hseg Hfr]; [lia | lia | nia |].
  change (Z.of_nat 0) with 0 in Hseg, Hfr.
  destruct (carve n 0 a bsz (mem st) (tc_list (central st c))) as [m head].
  cbn [fst snd] in Hseg, Hfr.
  eexists. split; [reflexivity|].
  unfold central, arrays_ok, lookupSpan. cbn.
  rewrite !list_lookup_total_insert_eq by lia. cbn.
  rewrite !length_insert.
  split; [exact Hseg|].
  split.
  { unfold int_add_size_t. change (wrap64 0) with 0. cbn [Z.add].
    rewrite wrap64_small by lia.
    rewrite wrap_int_small by (unfold INT_MAX; lia). lia. }
  split; [exact Hfr|].
  split; [auto|].
  split; [reflexivity|].
  split.
  { intros c' Hc' Hneq. now rewrite list_lookup_total_insert_ne by lia. }
  split; [reflexivity|].
  split; [| apply lookup_total_insert_eq].
  change (Z.to_nat 1) with 1%nat. cbn [map_pages].
  rewrite shiftr_page, (wrap64_small (a / 4096 + 0)) by lia.
  rewrite Z.add_0_r. apply lookup_insert_eq.
Qed.

(** C2. A refill for class [c] with an empty central list: exactly one
    [mmap] of one page is made; the page is carved into
    [max 1 (4096 / bsz)] blocks of [bsz = classBytes c + sizeof(BlockHeader)]
    bytes, block [i] at [a + i * bsz], all linked onto the central list
    (last carved first); then the first [min n 32] of them become the
    thread cache's list and the central list keeps the rest, its count
    lowered by the number moved. *)
Theorem fetch_refills_from_one_page (a c : Z) (st : State) :
  0 <= c < 8 -> arrays_ok st ->
  tc_list (central st c) = 0 -> count (central st c) = 0 ->
  0 < a -> a mod 4096 = 0 -> a + 4096 <= 2 ^ 64 ->
  wrap64 (span_offset st + sizeof_Span) <= sizeof_span_memory ->
  let bsz := getClassSizeFromIndex c + sizeof_BlockHeader in
  let n := Z.to_nat (Z.max 1 (4096 / bsz)) in
  let moved := Nat.min n 32 in
  let carved := rev (block_addrs a bsz 0 n) in
  let st' := fetchFromTransferCache (Some a) c st in
  (exists st1,
     refill_central (Some a) c st = (true, st1) /\
     chain (mem st1) (tc_list (central st1 c)) carved /\
     count (central st1 c) = Z.of_nat n /\
     st' = transfer_to_thread c st1) /\
  os_log st' = Mmap 4096 (Some a) :: os_log st /\
  span_memory st' !!! span_offset st = MkSpan (a / 4096) 1 0 0 false /\
  chain (mem st') (thread_list st' c) (take moved carved) /\
  thread_len st' c = Z.of_nat moved /\
  chain (mem st') (tc_list (central st' c)) (drop moved carved) /\
  count (central st' c) = Z.of_nat n - Z.of_nat moved.
Proof.
  intros Hc Hok Hlist Hcount Ha Hal Hend Hroom bsz n moved carved st'.
  destruct (refill_central_spec a c st Hc Hok Hcount Ha Hal Hend Hroom)
    as (st1 & Hre & Hseg & Hcnt & Hfr & Hok1 & Hmc & Hoth & Hlog & Hlook & Hspan).
  fold bsz in Hseg, Hfr. fold n in Hseg, Hcnt, Hfr.
  rewrite Hlist in Hseg. fold carved in Hseg.
  pose proof (block_geometry c Hc) as (Hbsz & Hn & Hfit).
  fold bsz in Hbsz, Hn, Hfit.
  assert (length carved = n) as Hlen.
  { subst carved. now rewrite length_rev, length_block_addrs. }
  assert (st' = transfer_to_thread c st1) as Hst'.
  { subst st'. unfold fetchFromTransferCache.
    destruct (Z.leb_spec 8 c); [lia|]. now rewrite Hre. }
  destruct (transfer_to_thread_spec c st1 carved Hc Hok1 Hseg)
    as (_ & Hth & Hthl & Hce & Hcc & _ & _ & Hlog' & _ & Hsm & _).
  { now rewrite Hlen. }
  { intros E. rewrite E in Hlen. cbn in Hlen. lia. }
  { rewrite Hlen. unfold INT_MAX. lia. }
  rewrite Hlen in *. fold moved in Hth, Hthl, Hce, Hcc.
  rewrite Hst'.
  split; [exists st1; auto|].
  split; [now rewrite Hlog', Hlog|].
  split; [now rewrite Hsm|].
  auto.
Qed.

Lemma fetch_refills_from_one_page_witness :
  let a := 40960 in
  let c := 7 in
  let st := init_state in
  let bsz := getClassSizeFromIndex c + sizeof_BlockHeader in
  let n := Z.to_nat (Z.max 1 (4096 / bsz)) in
  let moved := Nat.min n 32 in
  let carved := rev (block_addrs a bsz 0 n) in
  let st' := fetchFromTransferCache (Some a) c st in
  (exists st1,
     refill_central (Some a) c st = (true, st1) /\
     chain (mem st1) (tc_list (central st1 c)) carved /\
     count (central st1 c) = Z.of_nat n /\
     st' = transfer_to_thread c st1) /\
  os_log st' = Mmap 4096 (Some a) :: os_log st /\
  span_memory st' !!! span_offset st = MkSpan (a / 4096) 1 0 0 false /\
  chain (mem st') (thread_list st' c) (take moved carved) /\
  thread_len st' c = Z.of_nat moved /\
  chain (mem st') (tc_list (central st' c)) (drop moved carved) /\
  count (central st' c) = Z.of_nat n - Z.of_nat moved.
Proof.
  apply (fetch_refills_from_one_page 40960 7 init_state).
  - lia.
  - repeat split.
  - reflexivity.
  - reflexivity.
  - lia.
  - reflexivity.
  - lia.
  - vm_compute. discriminate.
Defined.

(** ** The count invariant of the transfer caches *)

Lemma upd_eq (f : Z -> list Z) (c : Z) (v : list Z) : upd f c v c = v.
Proof. unfold upd. now rewrite Z.eqb_refl. Qed.

Lemma upd_ne (f : Z -> list Z) (c c' : Z) (v : list Z) :
  c' <> c -> upd f c v c' = f c'.
Proof. unfold upd. intros H. now destruct (Z.eqb_spec c' c). Qed.

Lemma caches_wf_count_inv (st : State) (L T : Z -> list Z) (c : Z) :
  caches_wf st L T -> 0 <= c < 8 -> count_inv st c.
Proof.
  intros Hwf Hc. destruct (wf_central _ _ _ Hwf c Hc) as (Hch & Hcnt & _).
  exists (L c). auto.
Qed.

(** Well-formedness looks at memory and the two cache arrays only. *)
Lemma caches_wf_ext (st st' : State) (L T : Z -> list Z) :
  mem st' = mem st -> transfer_caches st' = transfer_caches st ->
  my_cache st' = my_cache st ->
  caches_wf st L T -> caches_wf st' L T.
Proof.
  intros Hm Ht Hc [H1 H2 H3 H4 H5 H6].
  constructor; auto;
    unfold arrays_ok, central, thread_list, thread_len in *;
    rewrite ?Hm, ?Ht, ?Hc; auto.
Qed.

Lemma elem_of_take_l (l : list Z) (b : nat) (x : Z) : x ∈ take b l -> x ∈ l.
Proof.
  intros H. rewrite <- (take_drop b l). apply elem_of_app. now left.
Qed.

Lemma elem_of_drop_l (l : list Z) (b : nat) (x : Z) : x ∈ drop b l -> x ∈ l.
Proof.
  intros H. rewrite <- (take_drop b l). apply elem_of_app. now right.
Qed.

Ltac split_class c1 c :=
  destruct (Z.eq_dec c1 c) as [->|?];
  [rewrite ?upd_eq in * | rewrite ?upd_ne in * by assumption].

Lemma transfer_to_thread_wf (c : Z) (st : State) (L T : Z -> list Z) :
  caches_wf st L T -> 0 <= c < 8 ->
  exists L' T', caches_wf (transfer_to_thread c st) L' T'.
Proof.
  intros Hwf Hc.
  destruct (wf_central _ _ _ Hwf c Hc) as (Hch & Hcnt & Hmax).
  destruct (L c) as [|b0 l0] eqn:HL.
  { exists L, T. cbn in Hch, Hcnt.
    assert (transfer_to_thread c st = st) as ->; [| exact Hwf].
    unfold transfer_to_thread. cbv zeta. fold (central st c).
    rewrite Hcnt, Hch. reflexivity. }
  rewrite <- HL in Hch, Hcnt, Hmax.
  destruct (transfer_to_thread_spec c st (L c) Hc (wf_arrays _ _ _ Hwf)
              Hch Hcnt) as ((t & Ht & Hmem) & Hth & Hthl & Hce & Hcc & Hok' &
                            Hoth & _); [rewrite HL; discriminate | exact Hmax |].
  set (b := Nat.min (length (L c)) 32) in *.
  pose proof (chain_NoDup _ _ _ Hch) as Hnd.
  rewrite <- (take_drop b (L c)) in Hnd.
  apply NoDup_app in Hnd as (_ & Hdisj & _).
  exists (upd L c (drop b (L c))), (upd T c (take b (L c))).
  constructor.
  - exact Hok'.
  - intros c1 Hc1. split_class c1 c.
    + split; [exact Hce|]. split; [rewrite Hcc, length_drop; lia|].
      rewrite length_drop. lia.
    + destruct (Hoth c1 Hc1 ltac:(assumption)) as (-> & _ & _).
      destruct (wf_central _ _ _ Hwf c1 Hc1) as (Hch1 & Hcnt1 & Hmax1).
      split; [| auto]. rewrite Hmem. apply segment_store_other; [| exact Hch1].
      intros Hin. apply n.
      apply (wf_sep_central _ _ _ Hwf c1 c t); auto.
      now apply elem_of_take_l in Ht.
  - intros c1 Hc1. split_class c1 c.
    + split; [exact Hth|]. rewrite Hthl, length_take. subst b. lia.
    + destruct (Hoth c1 Hc1 ltac:(assumption)) as (_ & -> & ->).
      destruct (wf_thread _ _ _ Hwf c1 Hc1) as (Hch1 & Hlen1).
      split; [| auto]. rewrite Hmem. apply segment_store_other; [| exact Hch1].
      intros Hin. apply (wf_sep_cross _ _ _ Hwf c c1 t); auto.
      now apply elem_of_take_l in Ht.
  - intros c1 c2 x Hc1 Hc2 H1 H2.
    split_class c1 c; split_class c2 c; auto.
    + apply elem_of_drop_l in H1.
      apply (wf_sep_central _ _ _ Hwf c c2 x); auto.
    + apply elem_of_drop_l in H2.
      apply (wf_sep_central _ _ _ Hwf c1 c x); auto.
    + apply (wf_sep_central _ _ _ Hwf c1 c2 x); auto.
  - intros c1 c2 x Hc1 Hc2 H1 H2.
    split_class c1 c; split_class c2 c; auto.
    + apply elem_of_take_l in H1.
      destruct (wf_sep_cross _ _ _ Hwf c c2 x); auto.
    + apply elem_of_take_l in H2.
      destruct (wf_sep_cross _ _ _ Hwf c c1 x); auto.
    + apply (wf_sep_thread _ _ _ Hwf c1 c2 x); auto.
  - intros c1 c2 x Hc1 Hc2 H1 H2.
    split_class c1 c; split_class c2 c.
    + apply (Hdisj x H2 H1).
    + apply elem_of_drop_l in H1.
      apply (wf_sep_cross _ _ _ Hwf c c2 x); auto.
    + apply elem_of_take_l in H2. apply n.
      apply (wf_sep_central _ _ _ Hwf c1 c x); auto.
    + apply (wf_sep_cross _ _ _ Hwf c1 c2 x); auto.
Qed.

Lemma elem_of_rev (l : list Z) (x : Z) : x ∈ rev l <-> x ∈ l.
Proof. rewrite !list_elem_of_In. symmetry. apply in_rev. Qed.

Lemma carved_block_in_page (a c x : Z) :
  0 <= c < 8 ->
  let bsz := getClassSizeFromIndex c + sizeof_BlockHeader in
  x ∈ block_addrs a bsz 0 (Z.to_nat (Z.max 1 (4096 / bsz))) ->
  a <= x < a + 4096.
Proof.
  intros Hc bsz Hx.
  pose proof (block_geometry c Hc) as (Hbsz & Hn & Hfit). fold bsz in Hbsz, Hn, Hfit.
  apply elem_of_block_addrs in Hx as (j & Hj & ->). nia.
Qed.

Lemma refill_central_wf (os : option Z) (c : Z) (st : State)
      (L T : Z -> list Z) :
  caches_wf st L T -> 0 <= c < 8 -> fresh_page os L T ->
  exists L', caches_wf (snd (refill_central os c st)) L' T /\
             (fst (refill_central os c st) = true -> L' c <> []).
Proof.
  intros Hwf Hc Hfresh.
  destruct (wf_central _ _ _ Hwf c Hc) as (Hch & Hcnt & Hmax).
  destruct (Z.eq_dec (count (central st c)) 0) as [Hz|Hnz].
  2:{ exists L. unfold refill_central. cbv zeta. fold (central st c).
      destruct (Z.eqb_spec (count (central st c)) 0); [contradiction|].
      cbn. split; [exact Hwf|]. intros _ E. rewrite E in Hcnt. cbn in Hcnt. lia. }
  assert (L c = []) as HL by (destruct (L c); [reflexivity | cbn in *; lia]).
  rewrite HL in Hch. cbn in Hch.
  pose proof (block_geometry c Hc) as (Hbsz & Hn & Hfit).
  assert (forall st1, allocateSpan os 1 st = (None, st1) ->
                      refill_central os c st = (false, st1)) as Hfail.
  { intros st1 E. unfold refill_central. cbv zeta. fold (central st c).
    rewrite Hz. cbn [Z.eqb].
    destruct (Z.eqb_spec (getClassSizeFromIndex c) 0);
      [unfold sizeof_BlockHeader in Hbsz; lia|].
    now rewrite E. }
  destruct os as [a|].
  - destruct (pool_exhausted_dec st) as [Hx|Hroom].
    + exists L. rewrite (Hfail _ (allocateSpan_pool_exhausted a 1 st Hx)).
      cbn [fst snd]. split; [| discriminate].
      now apply (caches_wf_ext st).
    + destruct (Hfresh a eq_refl) as (Ha & Hal & Hend & Hnew).
      destruct (refill_central_spec a c st Hc (wf_arrays _ _ _ Hwf) Hz Ha Hal
                  Hend Hroom)
        as (st1 & -> & Hseg & Hcnt1 & Hfr & Hok1 & Hmc & Hoth & _).
      rewrite Hch in Hseg. cbn [fst snd].
      set (bsz := getClassSizeFromIndex c + sizeof_BlockHeader) in *.
      set (n := Z.to_nat (Z.max 1 (4096 / bsz))) in *.
      assert (forall c1 x, 0 <= c1 < 8 -> x ∈ L c1 \/ x ∈ T c1 ->
                           x ∉ block_addrs a bsz 0 n) as Hout.
      { intros c1 x Hc1 Hx Hin.
        apply (Hnew c1 x Hc1 Hx). now apply (carved_block_in_page a c). }
      exists (upd L c (rev (block_addrs a bsz 0 n))).
      split.
      2:{ intros _. rewrite upd_eq. intros E. apply (f_equal length) in E.
          rewrite length_rev, length_block_addrs in E. cbn in E. lia. }
      constructor.
      * exact Hok1.
      * intros c1 Hc1. split_class c1 c.
        -- split; [exact Hseg|].
           rewrite length_rev, length_block_addrs.
           split; [exact Hcnt1 | unfold INT_MAX; lia].
        -- rewrite (Hoth c1 Hc1) by assumption.
           destruct (wf_central _ _ _ Hwf c1 Hc1) as (Hch1 & Hc1' & Hm1).
           split; [| auto]. apply (segment_frame (mem st)); [| exact Hch1].
           intros x Hx. apply Hfr. apply (Hout c1); auto.
      * intros c1 Hc1. unfold thread_list, thread_len. rewrite Hmc.
        destruct (wf_thread _ _ _ Hwf c1 Hc1) as (Hch1 & Hl1).
        split; [| exact Hl1]. apply (segment_frame (mem st)); [| exact Hch1].
        intros x Hx. apply Hfr. apply (Hout c1); auto.
      * intros c1 c2 x Hc1 Hc2 H1 H2.
        split_class c1 c; split_class c2 c; auto.
        -- rewrite elem_of_rev in H1. destruct (Hout c2 x); auto.
        -- rewrite elem_of_rev in H2. destruct (Hout c1 x); auto.
        -- apply (wf_sep_central _ _ _ Hwf c1 c2 x); auto.
      * apply (wf_sep_thread _ _ _ Hwf).
      * intros c1 c2 x Hc1 Hc2 H1 H2. split_class c1 c.
        -- rewrite elem_of_rev in H1. destruct (Hout c2 x); auto.
        -- apply (wf_sep_cross _ _ _ Hwf c1 c2 x); auto.
  - exists L. rewrite (Hfail _ (allocateSpan_mmap_failed 1 st)).
    cbn [fst snd]. split; [| discriminate].
    now apply (caches_wf_ext st).
Qed.

Lemma fetchFromTransferCache_wf (os : option Z) (c : Z) (st : State)
      (L T : Z -> list Z) :
  caches_wf st L T -> 0 <= c < 8 -> fresh_page os L T ->
  exists L' T', caches_wf (fetchFromTransferCache os c st) L' T'.
Proof.
  intros Hwf Hc Hfresh. unfold fetchFromTransferCache.
  destruct (Z.leb_spec 8 c); [lia|].
  destruct (refill_central_wf os c st L T Hwf Hc Hfresh) as (L1 & Hwf1 & _).
  destruct (refill_central os c st) as [[|] st1]; cbn [snd] in Hwf1.
  - now apply (transfer_to_thread_wf c st1 L1 T).
  - eauto.
Qed.

Lemma releaseToTransferCache_wf (c : Z) (st : State) (L T : Z -> list Z) :
  caches_wf st L T -> 0 <= c < 8 ->
  Z.of_nat (length (L c) + length (T c)) <= INT_MAX ->
  exists L' T', caches_wf (releaseToTransferCache c st) L' T'.
Proof.
  intros Hwf Hc Hsum.
  destruct (wf_central _ _ _ Hwf c Hc) as (Hch & Hcnt & Hmax).
  destruct (wf_thread _ _ _ Hwf c Hc) as (Hth & Hlen).
  destruct (wf_arrays _ _ _ Hwf) as (Ha1 & Ha2 & Ha3).
  unfold releaseToTransferCache.
  destruct (Z.leb_spec 8 c); [lia|]. cbn [orb].
  fold (thread_len st c). fold (thread_list st c). fold (central st c).
  destruct (Z.eqb_spec (thread_len st c) 0) as [|Hnz]; [eauto|].
  cbv zeta.
  destruct (T c) as [|t0 pre0] eqn:HT using rev_ind; [cbn in Hlen; lia|].
  clear IHpre0. rename pre0 into pre, t0 into t.
  rewrite length_app in Hlen, Hsum. cbn [length] in Hlen, Hsum.
  pose proof (chain_NoDup _ _ _ Hth) as Hnd.
  apply NoDup_app in Hnd as (_ & Hdisj & _).
  assert (t ∉ pre) as Htpre.
  { intros Hin. apply (Hdisj _ Hin). apply list_elem_of_here. }
  assert (t ∈ T c) as HtT.
  { rewrite HT. apply elem_of_app. right. apply list_elem_of_here. }
  pose proof Hth as Hsplit.
  apply segment_app in Hsplit as (mid & Hpre & (-> & Ht & Hnull)).
  cbn in Hnull.
  assert (walk (Z.to_nat (thread_len st c - 1)) (mem st) (thread_list st c) = t)
    as ->.
  { replace (Z.to_nat (thread_len st c - 1)) with (length pre) by lia.
    rewrite (walk_segment _ _ _ _ _ Hth) by (rewrite length_app; cbn; lia).
    apply nth_middle. }
  destruct (Z.eqb_spec t 0); [contradiction|].
  rewrite Hcnt, Hlen, wrap_int_small by (unfold INT_MAX in *; lia).
  exists (upd L c ((pre ++ [t]) ++ L c)), (upd T c []).
  constructor.
  - unfold arrays_ok. cbn. now rewrite !length_insert.
  - intros c1 Hc1. unfold central. cbn. split_class c1 c.
    + rewrite list_lookup_total_insert_eq by lia. cbn.
      split; [| rewrite !length_app; cbn [length]; lia].
      apply segment_app. exists (tc_list (central st c)). split.
      * apply segment_app. exists t. split.
        -- now apply segment_store_other.
        -- cbn. rewrite load_store_eq. auto.
      * apply segment_store_other; [| exact Hch].
        intros Hin. apply (wf_sep_cross _ _ _ Hwf c c t); auto.
    + rewrite list_lookup_total_insert_ne by lia.
      destruct (wf_central _ _ _ Hwf c1 Hc1) as (Hch1 & Hc1' & Hm1).
      split; [| auto]. apply segment_store_other; [| exact Hch1].
      intros Hin. apply (wf_sep_cross _ _ _ Hwf c1 c t); auto.
  - intros c1 Hc1. unfold thread_list, thread_len. cbn. split_class c1 c.
    + rewrite !list_lookup_total_insert_eq by lia. cbn. auto.
    + rewrite !list_lookup_total_insert_ne by lia.
      destruct (wf_thread _ _ _ Hwf c1 Hc1) as (Hch1 & Hl1).
      split; [| exact Hl1]. apply segment_store_other; [| exact Hch1].
      intros Hin. apply n0. symmetry.
      apply (wf_sep_thread _ _ _ Hwf c c1 t); auto.
  - intros c1 c2 x Hc1 Hc2 H1 H2.
    split_class c1 c; split_class c2 c; auto.
    + rewrite <- HT in H1. apply elem_of_app in H1 as [H1|H1].
      * destruct (wf_sep_cross _ _ _ Hwf c2 c x); auto.
      * apply (wf_sep_central _ _ _ Hwf c c2 x); auto.
    + rewrite <- HT in H2. apply elem_of_app in H2 as [H2|H2].
      * destruct (wf_sep_cross _ _ _ Hwf c1 c x); auto.
      * apply (wf_sep_central _ _ _ Hwf c1 c x); auto.
    + apply (wf_sep_central _ _ _ Hwf c1 c2 x); auto.
  - intros c1 c2 x Hc1 Hc2 H1 H2.
    split_class c1 c; split_class c2 c; auto.
    + apply elem_of_nil in H1. contradiction.
    + apply elem_of_nil in H2. contradiction.
    + apply (wf_sep_thread _ _ _ Hwf c1 c2 x); auto.
  - intros c1 c2 x Hc1 Hc2 H1 H2.
    split_class c2 c; [apply elem_of_nil in H2; contradiction|].
    split_class c1 c.
    + rewrite <- HT in H1. apply elem_of_app in H1 as [H1|H1].
      * apply n0. symmetry. apply (wf_sep_thread _ _ _ Hwf c c2 x); auto.
      * apply (wf_sep_cross _ _ _ Hwf c c2 x); auto.
    + apply (wf_sep_cross _ _ _ Hwf c1 c2 x); auto.
Qed.

(** C7. In a well-formed state the count of every transfer cache is the
    number of blocks reachable from its list head, and the operations on a
    transfer cache keep the state well formed, hence keep that equality for
    every class: the refill from the page heap ([refill_central]), the
    transfer to the thread cache that follows it (together
    [fetchFromTransferCache]) and the release of the thread cache's list
    ([releaseToTransferCache]). *)
Theorem transfer_cache_count_invariant
        (os : option Z) (c : Z) (st : State) (L T : Z -> list Z) :
  caches_wf st L T -> 0 <= c < 8 ->
  fresh_page os L T ->
  Z.of_nat (length (L c) + length (T c)) <= INT_MAX ->
  (forall c', 0 <= c' < 8 -> count_inv st c') /\
  (forall c', 0 <= c' < 8 -> count_inv (snd (refill_central os c st)) c') /\
  (forall c', 0 <= c' < 8 -> count_inv (transfer_to_thread c st) c') /\
  (forall c', 0 <= c' < 8 -> count_inv (fetchFromTransferCache os c st) c') /\
  (forall c', 0 <= c' < 8 -> count_inv (releaseToTransferCache c st) c') /\
  (exists L' T', caches_wf (fetchFromTransferCache os c st) L' T') /\
  (exists L' T', caches_wf (releaseToTransferCache c st) L' T').
Proof.
  intros Hwf Hc Hfresh Hsum.
  destruct (refill_central_wf os c st L T Hwf Hc Hfresh) as (L1 & Hwf1 & _).
  destruct (transfer_to_thread_wf c st L T Hwf Hc) as (L2 & T2 & Hwf2).
  destruct (fetchFromTransferCache_wf os c st L T Hwf Hc Hfresh)
    as (L3 & T3 & Hwf3).
  destruct (releaseToTransferCache_wf c st L T Hwf Hc Hsum) as (L4 & T4 & Hwf4).
  repeat split; eauto using caches_wf_count_inv.
Qed.

Lemma caches_wf_init : caches_wf init_state (fun _ => []) (fun _ => []).
Proof.
  constructor.
  - repeat split.
  - intros c Hc.
    assert (c = 0 \/ c = 1 \/ c = 2 \/ c = 3 \/ c = 4 \/ c = 5 \/ c = 6 \/ c = 7)
      as Hcases by lia.
    repeat (destruct Hcases as [-> | Hcases]); try subst c;
      (split; [reflexivity | split; [reflexivity | unfold INT_MAX; cbn; lia]]).
  - intros c Hc.
    assert (c = 0 \/ c = 1 \/ c = 2 \/ c = 3 \/ c = 4 \/ c = 5 \/ c = 6 \/ c = 7)
      as Hcases by lia.
    repeat (destruct Hcases as [-> | Hcases]); try subst c;
      (split; reflexivity).
  - intros c c' x _ _ H. apply elem_of_nil in H. contradiction.
  - intros c c' x _ _ H. apply elem_of_nil in H. contradiction.
  - intros c c' x _ _ H. apply elem_of_nil in H. contradiction.
Qed.

Lemma transfer_cache_count_invariant_witness :
  let os := Some 40960 in
  let c := 3 in
  let st := init_state in
  (forall c', 0 <= c' < 8 -> count_inv st c') /\
  (forall c', 0 <= c' < 8 -> count_inv (snd (refill_central os c st)) c') /\
  (forall c', 0 <= c' < 8 -> count_inv (transfer_to_thread c st) c') /\
  (forall c', 0 <= c' < 8 -> count_inv (fetchFromTransferCache os c st) c') /\
  (forall c', 0 <= c' < 8 -> count_inv (releaseToTransferCache c st) c') /\
  (exists L' T', caches_wf (fetchFromTransferCache os c st) L' T') /\
  (exists L' T', caches_wf (releaseToTransferCache c st) L' T').
Proof.
  apply (transfer_cache_count_invariant (Some 40960) 3 init_state
           (fun _ => []) (fun _ => [])).
  - exact caches_wf_init.
  - lia.
  - intros a [= <-]. split; [lia|]. split; [reflexivity|]. split; [lia|].
    intros c x _ [H|H]; apply elem_of_nil in H; contradiction.
  - unfold INT_MAX. cbn. lia.
Defined.

(** ** The page-ownership index *)

Lemma map_pages_lookup (k : nat) :
  forall (i start sp : Z) (pm : gmap Z Z) (p : Z),
    0 <= start + i -> start + i + Z.of_nat k <= 2 ^ 64 ->
    map_pages k i start sp pm !! p =
    if decide (start + i <= p < start + i + Z.of_nat k) then Some sp
    else pm !! p.
Proof.
  induction k as [|k IH]; intros i start sp pm p Hlo Hhi; cbn [map_pages].
  - destruct (decide _); [lia | reflexivity].
  - rewrite IH by lia. rewrite wrap64_small by lia.
    destruct (decide (start + (i + 1) <= p < start + (i + 1) + Z.of_nat k));
      destruct (decide (start + i <= p < start + i + Z.of_nat (S k)));
      try reflexivity; try lia.
    + destruct (Z.eq_dec p (start + i)) as [->|Hne].
      * apply lookup_insert_eq.
      * lia.
    + apply lookup_insert_ne. lia.
Qed.

Lemma erase_pages_lookup (k : nat) :
  forall (i start : Z) (pm : gmap Z Z) (p : Z),
    0 <= start + i -> start + i + Z.of_nat k <= 2 ^ 64 ->
    erase_pages k i start pm !! p =
    if decide (start + i <= p < start + i + Z.of_nat k) then None
    else pm !! p.
Proof.
  induction k as [|k IH]; intros i start pm p Hlo Hhi; cbn [erase_pages].
  - destruct (decide _); [lia | reflexivity].
  - rewrite IH by lia. rewrite wrap64_small by lia.
    destruct (decide (start + (i + 1) <= p < start + (i + 1) + Z.of_nat k));
      destruct (decide (start + i <= p < start + i + Z.of_nat (S k)));
      try reflexivity; try lia.
    + destruct (Z.eq_dec p (start + i)) as [->|Hne].
      * apply lookup_delete_eq.
      * lia.
    + apply lookup_delete_ne. lia.
Qed.

Lemma region_has_page_aligned (a n p : Z) :
  a mod 4096 = 0 ->
  region_has_page a (n * 4096) p = true <-> a / 4096 <= p < a / 4096 + n.
Proof.
  intros Hal. unfold region_has_page.
  pose proof (Z.div_mod a 4096 ltac:(lia)) as Hd.
  rewrite andb_true_iff, Z.leb_le, Z.ltb_lt. lia.
Qed.

Lemma heap_inv_init : heap_inv init_state ∅.
Proof.
  constructor; cbn.
  - unfold sizeof_span_memory. lia.
  - intros sp H. apply elem_of_empty in H. contradiction.
  - intros sp H. apply elem_of_empty in H. contradiction.
  - intros sp p H. apply elem_of_empty in H. contradiction.
  - intros p sp H. rewrite lookup_empty in H. discriminate.
  - intros p sp H. rewrite lookup_empty in H. discriminate.
Qed.

Lemma page_bytes (n : Z) :
  0 <= n < 2 ^ 52 -> wrap64 (Z.shiftl n PAGE_SHIFT) = n * 4096.
Proof. intros H. rewrite shiftl_page. apply wrap64_small. lia. Qed.

Lemma heap_inv_alloc (st st' : State) (live : gset Z) (os : option Z)
      (n span : Z) :
  heap_inv st live ->
  0 <= n < 2 ^ 52 ->
  mmap_fresh (os_log st) (wrap64 (Z.shiftl n PAGE_SHIFT)) os ->
  allocateSpan os n st = (Some span, st') ->
  heap_inv st' ({[span]} ∪ live).
Proof.
  intros [Hoff Hlive Hgeom Hown Hidx Hmap] Hn Hfresh Halloc.
  apply allocateSpan_Some in Halloc as (a & -> & Hroom & -> & ->).
  rewrite page_bytes in * by exact Hn.
  destruct (Hfresh a eq_refl) as (Hlen & Ha & Hal & Hend & Hnew).
  pose proof (Z.div_mod a 4096 ltac:(lia)) as Hd.
  assert (0 < a / 4096) as Hpid by lia.
  assert (wrap64 (span_offset st + sizeof_Span) = span_offset st + sizeof_Span)
    as Ew by (apply wrap64_small; unfold sizeof_span_memory, sizeof_Span in *; lia).
  rewrite Ew in *.
  assert (forall sp, sp ∈ live ->
            (<[span_offset st := MkSpan (a / 4096) n 0 0 false]>
               (span_memory st)) !!! sp = span_memory st !!! sp) as Hold.
  { intros sp Hsp. apply lookup_total_insert_ne.
    specialize (Hlive sp Hsp). lia. }
  assert (forall p, map_pages (Z.to_nat n) 0 (a / 4096) (span_offset st)
                      (page_map st) !! p =
                    if decide (a / 4096 <= p < a / 4096 + n)
                    then Some (span_offset st) else page_map st !! p) as Hlk.
  { intros p. rewrite map_pages_lookup by lia.
    rewrite Z.add_0_r, Z2Nat.id by lia. reflexivity. }
  assert (forall p sp, page_map st !! p = Some sp ->
                       ~ (a / 4096 <= p < a / 4096 + n)) as Hdisj.
  { intros p sp Hp Hin. apply (region_has_page_aligned a n p Hal) in Hin.
    pose proof (Hmap p sp Hp) as Hm. rewrite (Hnew p Hin) in Hm.
    discriminate. }
  constructor; cbn [span_offset span_memory page_map os_log];
    unfold span_covers; cbn [span_memory]; rewrite ?shiftr_page.
  - unfold sizeof_Span in *. lia.
  - intros sp Hsp. apply elem_of_union in Hsp as [Hsp|Hsp].
    + apply elem_of_singleton in Hsp as ->. unfold sizeof_Span. lia.
    + specialize (Hlive sp Hsp). unfold sizeof_Span. lia.
  - intros sp Hsp. apply elem_of_union in Hsp as [Hsp|Hsp].
    + apply elem_of_singleton in Hsp as ->.
      rewrite lookup_total_insert_eq. cbn. lia.
    + rewrite Hold by exact Hsp. auto.
  - intros sp p Hsp Hcov. rewrite Hlk.
    apply elem_of_union in Hsp as [Hsp|Hsp].
    + apply elem_of_singleton in Hsp as ->.
      rewrite lookup_total_insert_eq in Hcov. cbn in Hcov.
      destruct (decide _); [reflexivity | lia].
    + rewrite Hold in Hcov by exact Hsp.
      pose proof (Hown sp p Hsp Hcov) as Hp.
      destruct (decide _) as [Hin|_]; [| exact Hp].
      destruct (Hdisj p sp Hp Hin).
  - intros p sp. rewrite Hlk. destruct (decide _) as [Hin|Hout].
    + intros [= <-]. split; [apply elem_of_union; left; now apply elem_of_singleton|].
      rewrite lookup_total_insert_eq. cbn. exact Hin.
    + intros Hp. destruct (Hidx p sp Hp) as [Hsp Hcov].
      split; [apply elem_of_union; now right|].
      now rewrite Hold by exact Hsp.
  - intros p sp. rewrite Hlk. cbn [page_mapped].
    destruct (decide _) as [Hin|Hout].
    + intros _. apply (region_has_page_aligned a n p Hal) in Hin.
      now rewrite Hin.
    + intros Hp. rewrite (Hmap p sp Hp). apply orb_true_r.
Qed.

Lemma heap_inv_alloc_failed (st st' : State) (live : gset Z) (os : option Z)
      (n : Z) :
  heap_inv st live ->
  0 <= n < 2 ^ 52 ->
  mmap_fresh (os_log st) (wrap64 (Z.shiftl n PAGE_SHIFT)) os ->
  allocateSpan os n st = (None, st') ->
  heap_inv st' live.
Proof.
  intros [Hoff Hlive Hgeom Hown Hidx Hmap] Hn Hfresh Halloc.
  assert (forall p sp, page_map st !! p = Some sp ->
                       page_mapped (os_log st') p = true) as Hmap'.
  { intros p sp Hp. specialize (Hmap p sp Hp). destruct os as [a|].
    - destruct (pool_exhausted_dec st) as [Hx|Hroom].
      + rewrite allocateSpan_pool_exhausted in Halloc by exact Hx.
        injection Halloc as <-. cbn.
        destruct (region_has_page a _ p) eqn:Hr; [| exact Hmap].
        destruct (Hfresh a eq_refl) as (_ & _ & _ & _ & Hnew).
        rewrite (Hnew p Hr) in Hmap. discriminate.
      + rewrite allocateSpan_mapped in Halloc by exact Hroom. discriminate.
    - rewrite allocateSpan_mmap_failed in Halloc. injection Halloc as <-.
      exact Hmap. }
  apply allocateSpan_None in Halloc
    as (_ & _ & _ & Hsm & Hso & Hpm & _ & _).
  constructor; unfold span_covers; rewrite ?Hsm, ?Hso, ?Hpm; auto.
Qed.

Lemma heap_inv_dealloc (st : State) (live : gset Z) (span : Z) :
  heap_inv st live -> span ∈ live ->
  heap_inv (deallocateSpan span st) (live ∖ {[span]}).
Proof.
  intros [Hoff Hlive Hgeom Hown Hidx Hmap] Hsp.
  destruct (Hgeom span Hsp) as (Hs & Hnum & Hend).
  set (d := span_memory st !!! span) in *.
  assert (forall p, page_map (deallocateSpan span st) !! p =
                    if decide (start_page_id d <= p
                               < start_page_id d + num_pages d)
                    then None else page_map st !! p) as Hlk.
  { intros p. unfold deallocateSpan. cbn. fold d.
    rewrite erase_pages_lookup by lia.
    rewrite Z.add_0_r, Z2Nat.id by lia. reflexivity. }
  constructor; unfold span_covers; cbn [deallocateSpan span_offset span_memory
    set_page_map log_call]; auto.
  - intros sp Hin. apply elem_of_difference in Hin as [Hin _]. auto.
  - intros sp Hin. apply elem_of_difference in Hin as [Hin _]. auto.
  - intros sp p Hin Hcov. apply elem_of_difference in Hin as [Hin Hne].
    rewrite Hlk. pose proof (Hown sp p Hin Hcov) as Hp.
    destruct (decide _) as [Hrange|_]; [| exact Hp].
    rewrite (Hown span p Hsp Hrange) in Hp. injection Hp as <-.
    destruct Hne. now apply elem_of_singleton.
  - intros p sp. rewrite Hlk. destruct (decide _) as [Hrange|Hout];
      [discriminate|].
    intros Hp. destruct (Hidx p sp Hp) as [Hin Hcov].
    split; [| exact Hcov]. apply elem_of_difference. split; [exact Hin|].
    intros E. apply elem_of_singleton in E as ->. now apply Hout.
  - intros p sp. rewrite Hlk. destruct (decide _) as [Hrange|Hout];
      [discriminate|].
    intros Hp. unfold deallocateSpan. cbn. fold d.
    rewrite (Hmap p sp Hp), andb_true_r.
    rewrite !page_bytes by lia.
    apply negb_true_iff. apply not_true_is_false. intros Hr.
    apply (region_has_page_aligned (start_page_id d * 4096) (num_pages d) p)
      in Hr; [| apply Z.mod_mul; lia].
    rewrite Z.div_mul in Hr by lia. now apply Hout.
Qed.

Lemma heap_reachable_inv (st : State) (live : gset Z) :
  heap_reachable st live -> heap_inv st live.
Proof.
  induction 1.
  - exact heap_inv_init.
  - eapply heap_inv_alloc; eauto.
  - eapply heap_inv_alloc_failed; eauto.
  - now apply heap_inv_dealloc.
Qed.

(** C8. In every state reachable by [allocateSpan] and [deallocateSpan]:
    two live spans never cover a common page; every page covered by a live
    span has an entry in [page_map], and that entry is the span; and every
    entry of [page_map] is a live span that covers the page, so a page id
    maps to at most one live span. *)
Theorem page_index_invariant (st : State) (live : gset Z) :
  heap_reachable st live ->
  (forall sp1 sp2 p, sp1 ∈ live -> sp2 ∈ live ->
     span_covers st sp1 p -> span_covers st sp2 p -> sp1 = sp2) /\
  (forall sp p, sp ∈ live -> span_covers st sp p ->
     page_map st !! p = Some sp) /\
  (forall p sp, page_map st !! p = Some sp ->
     sp ∈ live /\ span_covers st sp p) /\
  (forall p sp1 sp2, page_map st !! p = Some sp1 ->
     page_map st !! p = Some sp2 -> sp1 = sp2).
Proof.
  intros Hreach. destruct (heap_reachable_inv st live Hreach)
    as [_ _ _ Hown Hidx _].
  split; [| split; [exact Hown | split; [exact Hidx |]]].
  - intros sp1 sp2 p H1 H2 C1 C2.
    pose proof (Hown sp1 p H1 C1) as E1.
    pose proof (Hown sp2 p H2 C2) as E2. congruence.
  - intros p sp1 sp2 E1 E2. congruence.
Qed.

Lemma page_index_invariant_witness :
  let st := snd (allocateSpan (Some 40960) 2 init_state) in
  let live : gset Z := {[0]} ∪ ∅ in
  (forall sp1 sp2 p, sp1 ∈ live -> sp2 ∈ live ->
     span_covers st sp1 p -> span_covers st sp2 p -> sp1 = sp2) /\
  (forall sp p, sp ∈ live -> span_covers st sp p ->
     page_map st !! p = Some sp) /\
  (forall p sp, page_map st !! p = Some sp ->
     sp ∈ live /\ span_covers st sp p) /\
  (forall p sp1 sp2, page_map st !! p = Some sp1 ->
     page_map st !! p = Some sp2 -> sp1 = sp2).
Proof.
  apply (page_index_invariant (snd (allocateSpan (Some 40960) 2 init_state))
                              ({[0]} ∪ ∅)).
  apply (reach_alloc init_state ∅ (Some 40960) 2 0 _ reach_init).
  - lia.
  - intros a [= <-]. change (wrap64 (Z.shiftl 2 PAGE_SHIFT)) with 8192.
    split; [lia|]. split; [lia|]. split; [reflexivity|]. split; [lia|].
    intros p _. reflexivity.
  - reflexivity.
Defined.

(** * Further properties of the allocator *)

(** ** The size-class table *)

(** X1. The two table functions are inverse on the eight classes: the byte
    value stamped into a header by [allocate] classifies back to the same
    class on [deallocate]; class sizes grow strictly with the index and an
    index outside the table yields the byte value 0. *)
Theorem class_index_round_trip (i j : Z) :
  0 <= i < 8 -> i < j ->
  getSizeClassIndex (getClassSizeFromIndex i) = i /\
  (j < 8 -> getClassSizeFromIndex i < getClassSizeFromIndex j) /\
  (8 <= j -> getClassSizeFromIndex j = 0).
Proof.
  intros Hi Hij. split; [| split].
  - destruct (getClassSizeFromIndex_cases i Hi) as
      [[-> ->]|[[-> ->]|[[-> ->]|[[-> ->]|[[-> ->]|[[-> ->]|[[-> ->]|[-> ->]]]]]]]];
      reflexivity.
  - intros Hj.
    destruct (getClassSizeFromIndex_cases i Hi) as
      [[-> ->]|[[-> ->]|[[-> ->]|[[-> ->]|[[-> ->]|[[-> ->]|[[-> ->]|[-> ->]]]]]]]];
    destruct (getClassSizeFromIndex_cases j ltac:(lia)) as
      [[E ->]|[[E ->]|[[E ->]|[[E ->]|[[E ->]|[[E ->]|[[E ->]|[E ->]]]]]]]];
    lia.
  - intros Hj. unfold getClassSizeFromIndex.
    now destruct (Z.leb_spec 8 j); [| lia].
Qed.

Lemma class_index_round_trip_witness :
  getSizeClassIndex (getClassSizeFromIndex 3) = 3 /\
  (5 < 8 -> getClassSizeFromIndex 3 < getClassSizeFromIndex 5) /\
  (8 <= 5 -> getClassSizeFromIndex 5 = 0).
Proof. apply (class_index_round_trip 3 5); lia. Defined.

(** ** The descriptor pool *)

(** X2. Two successive successful calls of [allocate_span_memory] return
    regions that lie inside [span_memory] and do not overlap, the second
    right behind the first; a failing call leaves the pool as it was. *)
Theorem allocate_span_memory_disjoint (s1 s2 : Z) (st : State) :
  0 <= span_offset st <= sizeof_span_memory ->
  0 <= s1 < 2 ^ 63 -> 0 <= s2 < 2 ^ 63 ->
  match allocate_span_memory s1 st with
  | (None, st1) => st1 = st /\ sizeof_span_memory < span_offset st + s1
  | (Some p1, st1) =>
      p1 = span_offset st /\ 0 <= p1 /\ p1 + s1 <= sizeof_span_memory /\
      span_offset st1 = p1 + s1 /\
      match allocate_span_memory s2 st1 with
      | (None, st2) => st2 = st1 /\ sizeof_span_memory < p1 + s1 + s2
      | (Some p2, st2) =>
          p2 = p1 + s1 /\ p2 + s2 <= sizeof_span_memory /\
          span_offset st2 = p2 + s2
      end
  end.
Proof.
  intros Hoff H1 H2. unfold allocate_span_memory.
  unfold sizeof_span_memory in *.
  rewrite (wrap64_small (span_offset st + s1)) by lia.
  destruct (Z.ltb_spec (4096 * 10) (span_offset st + s1)) as [Hf|Hr];
    [split; [reflexivity | lia]|].
  cbn [span_offset set_span_offset].
  rewrite (wrap64_small (span_offset st + s1 + s2)) by lia.
  split; [reflexivity|]. split; [lia|]. split; [lia|].
  split; [reflexivity|].
  destruct (Z.ltb_spec (4096 * 10) (span_offset st + s1 + s2)) as [Hf|Hr2].
  - split; [reflexivity | lia].
  - cbn. repeat split; lia.
Qed.

Lemma allocate_span_memory_disjoint_witness :
  match allocate_span_memory 40 init_state with
  | (None, st1) => st1 = init_state /\
                   sizeof_span_memory < span_offset init_state + 40
  | (Some p1, st1) =>
      p1 = span_offset init_state /\ 0 <= p1 /\
      p1 + 40 <= sizeof_span_memory /\
      span_offset st1 = p1 + 40 /\
      match allocate_span_memory 40 st1 with
      | (None, st2) => st2 = st1 /\ sizeof_span_memory < p1 + 40 + 40
      | (Some p2, st2) =>
          p2 = p1 + 40 /\ p2 + 40 <= sizeof_span_memory /\
          span_offset st2 = p2 + 40
      end
  end.
Proof.
  apply (allocate_span_memory_disjoint 40 40 init_state);
    cbn; unfold sizeof_span_memory; lia.
Defined.

(** ** Spans and the page index *)

Lemma page_in_region (a n addr : Z) :
  a mod 4096 = 0 ->
  (a / 4096 <= addr / 4096 < a / 4096 + n <-> a <= addr < a + n * 4096).
Proof.
  intros Hal.
  pose proof (Z.div_mod a 4096 ltac:(lia)).
  pose proof (Z.div_mod addr 4096 ltac:(lia)).
  pose proof (Z.mod_pos_bound addr 4096 ltac:(lia)). lia.
Qed.

(** X3. After a successful [allocateSpan] of [n] pages at [a], [lookupSpan]
    finds the new span from every address of the [n] pages, and answers as
    before for every address outside them; the descriptor records the first
    page and the page count. *)
Theorem allocateSpan_lookup (a n addr : Z) (st : State) :
  0 <= n < 2 ^ 52 -> 0 <= a -> a mod 4096 = 0 -> a + n * 4096 <= 2 ^ 64 ->
  wrap64 (span_offset st + sizeof_Span) <= sizeof_span_memory ->
  fst (allocateSpan (Some a) n st) = Some (span_offset st) /\
  span_memory (snd (allocateSpan (Some a) n st)) !!! span_offset st =
    MkSpan (a / 4096) n 0 0 false /\
  lookupSpan addr (snd (allocateSpan (Some a) n st)) =
    if decide (a <= addr < a + n * 4096) then Some (span_offset st)
    else lookupSpan addr st.
Proof.
  intros Hn Ha Hal Hend Hroom.
  rewrite allocateSpan_mapped by exact Hroom. cbn [fst snd span_memory].
  split; [reflexivity|]. split; [now rewrite lookup_total_insert_eq, shiftr_page|].
  unfold lookupSpan. cbn [page_map]. rewrite !shiftr_page.
  assert (0 <= a / 4096) by (apply Z.div_pos; lia).
  pose proof (Z.div_mod a 4096 ltac:(lia)) as Hd.
  rewrite map_pages_lookup by lia. rewrite Z.add_0_r, Z2Nat.id by lia.
  pose proof (page_in_region a n addr Hal) as Hiff.
  destruct (decide (a / 4096 <= addr / 4096 < a / 4096 + n));
    destruct (decide (a <= addr < a + n * 4096)); tauto.
Qed.

Lemma allocateSpan_lookup_witness :
  fst (allocateSpan (Some 40960) 3 init_state) = Some (span_offset init_state) /\
  span_memory (snd (allocateSpan (Some 40960) 3 init_state))
    !!! span_offset init_state = MkSpan (40960 / 4096) 3 0 0 false /\
  lookupSpan 50000 (snd (allocateSpan (Some 40960) 3 init_state)) =
    if decide (40960 <= 50000 < 40960 + 3 * 4096)
    then Some (span_offset init_state)
    else lookupSpan 50000 init_state.
Proof.
  apply (allocateSpan_lookup 40960 3 50000 init_state); try lia.
  - reflexivity.
  - vm_compute. discriminate.
Defined.

(** X4. [deallocateSpan] undoes [allocateSpan] on the index and on the
    mapping but not on the descriptor pool: after the pair, an index entry
    exists exactly where one existed before outside the span's pages (so the
    index is the old one when those pages had no entry), the trace shows the
    region mapped and then unmapped as a whole, memory and caches are
    untouched, and [span_offset] has advanced by one descriptor. *)
Theorem allocateSpan_deallocateSpan (a n : Z) (st : State) :
  0 <= n < 2 ^ 52 -> 0 <= a < 2 ^ 64 -> a mod 4096 = 0 ->
  a + n * 4096 <= 2 ^ 64 ->
  0 <= span_offset st <= sizeof_span_memory ->
  wrap64 (span_offset st + sizeof_Span) <= sizeof_span_memory ->
  let st2 := deallocateSpan (span_offset st) (snd (allocateSpan (Some a) n st)) in
  (forall p, page_map st2 !! p =
             if decide (a / 4096 <= p < a / 4096 + n) then None
             else page_map st !! p) /\
  ((forall p, a / 4096 <= p < a / 4096 + n -> page_map st !! p = None) ->
   page_map st2 = page_map st) /\
  os_log st2 =
    Munmap a (n * 4096) :: Mmap (n * 4096) (Some a) :: os_log st /\
  span_offset st2 = span_offset st + sizeof_Span /\
  mem st2 = mem st /\ transfer_caches st2 = transfer_caches st /\
  my_cache st2 = my_cache st.
Proof.
  intros Hn Ha Hal Hend Hoff Hroom st2.
  pose proof (Z.div_mod a 4096 ltac:(lia)) as Hd.
  assert (0 <= a / 4096) as Hpid by (apply Z.div_pos; lia).
  assert (forall p, page_map st2 !! p =
             if decide (a / 4096 <= p < a / 4096 + n) then None
             else page_map st !! p) as Hlk.
  { intros p. subst st2. rewrite allocateSpan_mapped by exact Hroom.
    unfold deallocateSpan. cbn. rewrite lookup_total_insert_eq. cbn.
    rewrite shiftr_page. rewrite erase_pages_lookup by lia.
    rewrite Z.add_0_r, Z2Nat.id by lia.
    destruct (decide _); [reflexivity|].
    rewrite map_pages_lookup by lia. rewrite Z.add_0_r, Z2Nat.id by lia.
    destruct (decide _); [contradiction | reflexivity]. }
  split; [exact Hlk|]. split.
  { intros Hfree. apply map_eq. intros p. rewrite Hlk.
    destruct (decide _) as [Hin|]; [| reflexivity].
    symmetry. now apply Hfree. }
  subst st2. rewrite allocateSpan_mapped by exact Hroom.
  unfold deallocateSpan. cbn. rewrite lookup_total_insert_eq. cbn.
  rewrite shiftr_page, !page_bytes by lia.
  replace (a / 4096 * 4096) with a by lia.
  rewrite wrap64_small by (unfold sizeof_Span, sizeof_span_memory in *; lia).
  repeat split.
Qed.

Lemma allocateSpan_deallocateSpan_witness :
  let st2 := deallocateSpan (span_offset init_state)
               (snd (allocateSpan (Some 40960) 3 init_state)) in
  (forall p, page_map st2 !! p =
             if decide (40960 / 4096 <= p < 40960 / 4096 + 3) then None
             else page_map init_state !! p) /\
  ((forall p, 40960 / 4096 <= p < 40960 / 4096 + 3 ->
              page_map init_state !! p = None) ->
   page_map st2 = page_map init_state) /\
  os_log st2 =
    Munmap 40960 (3 * 4096) :: Mmap (3 * 4096) (Some 40960)
      :: os_log init_state /\
  span_offset st2 = span_offset init_state + sizeof_Span /\
  mem st2 = mem init_state /\
  transfer_caches st2 = transfer_caches init_state /\
  my_cache st2 = my_cache init_state.
Proof.
  apply (allocateSpan_deallocateSpan 40960 3 init_state); try lia.
  - reflexivity.
  - cbn. unfold sizeof_span_memory. lia.
  - vm_compute. discriminate.
Defined.

(** ** What each tier leaves alone *)

Lemma transfer_to_thread_heap (c : Z) (st : State) :
  span_offset (transfer_to_thread c st) = span_offset st /\
  span_memory (transfer_to_thread c st) = span_memory st /\
  page_map (transfer_to_thread c st) = page_map st.
Proof. unfold transfer_to_thread. cbv zeta. now destruct (_ =? 0). Qed.

Lemma releaseToTransferCache_heap (c : Z) (st : State) :
  os_log (releaseToTransferCache c st) = os_log st /\
  span_offset (releaseToTransferCache c st) = span_offset st /\
  span_memory (releaseToTransferCache c st) = span_memory st /\
  page_map (releaseToTransferCache c st) = page_map st.
Proof. unfold releaseToTransferCache. now destruct (_ || _). Qed.

Lemma allocateSpan_span_offset (os : option Z) (n : Z) (st : State) :
  0 <= span_offset st <= sizeof_span_memory ->
  span_offset st <= span_offset (snd (allocateSpan os n st))
    <= sizeof_span_memory.
Proof.
  intros Hoff. destruct (allocateSpan os n st) as [[sp|] st1] eqn:E.
  - apply allocateSpan_Some in E as (a & _ & Hroom & _ & ->). cbn.
    rewrite wrap64_small in *
      by (unfold sizeof_Span, sizeof_span_memory in *; lia).
    unfold sizeof_Span in *. lia.
  - apply allocateSpan_None in E as (_ & _ & _ & _ & Ho & _). cbn.
    rewrite Ho. lia.
Qed.

Lemma refill_central_span_offset (os : option Z) (c : Z) (st : State) :
  0 <= span_offset st <= sizeof_span_memory ->
  span_offset st <= span_offset (snd (refill_central os c st))
    <= sizeof_span_memory.
Proof.
  intros Hoff. unfold refill_central. cbv zeta.
  destruct (_ =? 0); [| cbn; lia].
  destruct (_ =? 0); [cbn; lia|].
  pose proof (allocateSpan_span_offset os 1 st Hoff) as H.
  destruct (allocateSpan os 1 st) as [[sp|] st1]; cbn [snd] in *; [| exact H].
  destruct (carve _ _ _ _ _ _). exact H.
Qed.

Lemma allocate_span_offset (os : option Z) (size : Z) (st : State) :
  0 <= span_offset st <= sizeof_span_memory ->
  span_offset st <= span_offset (snd (allocate os size st))
    <= sizeof_span_memory.
Proof.
  intros Hoff. unfold allocate.
  destruct (size =? 0); [cbn; lia|].
  destruct (_ <? size).
  - unfold allocate_large.
    pose proof (allocateSpan_span_offset os
      (Z.shiftr (wrap64 (wrap64 (size + sizeof_BlockHeader) + 4095)) PAGE_SHIFT)
      st Hoff) as H.
    destruct (allocateSpan os _ st) as [[sp|] st1]; exact H.
  - unfold allocate_small. cbv zeta.
    destruct (8 <=? _); [cbn; lia|].
    destruct (_ =? 0); [| cbn; lia].
    assert (span_offset st <=
            span_offset (fetchFromTransferCache os (getSizeClassIndex size) st)
            <= sizeof_span_memory) as H.
    { unfold fetchFromTransferCache. destruct (8 <=? _); [lia|].
      pose proof (refill_central_span_offset os (getSizeClassIndex size) st Hoff)
        as H.
      destruct (refill_central os _ st) as [[|] st1]; cbn [snd] in H;
        [| exact H].
      now destruct (transfer_to_thread_heap (getSizeClassIndex size) st1)
        as (-> & _). }
    destruct (_ =? 0); exact H.
Qed.

Lemma deallocate_span_offset (ptr : Z) (st : State) :
  span_offset (deallocate ptr st) = span_offset st.
Proof.
  unfold deallocate. destruct (ptr =? 0); [reflexivity|]. cbv zeta.
  destruct (_ <? _).
  - now destruct (lookupSpan _ st).
  - destruct (8 <=? _); [reflexivity|].
    destruct (_ <? _); [| reflexivity].
    match goal with
    | |- span_offset (releaseToTransferCache ?c ?s) = _ =>
        destruct (releaseToTransferCache_heap c s) as (_ & -> & _)
    end.
    reflexivity.
Qed.

Lemma run_span_offset (ops : list Op) :
  forall st,
    0 <= span_offset st <= sizeof_span_memory ->
    span_offset st <= span_offset (run ops st) <= sizeof_span_memory.
Proof.
  induction ops as [|op ops IH]; intros st Hoff; [cbn; lia|].
  cbn [run fold_left]. fold (run ops (step op st)).
  assert (span_offset st <= span_offset (step op st) <= sizeof_span_memory)
    as Hstep.
  { destruct op as [os size|ptr]; cbn [step].
    - now apply allocate_span_offset.
    - rewrite deallocate_span_offset. lia. }
  specialize (IH (step op st) ltac:(lia)). lia.
Qed.

Lemma allocate_large_exhausted (os : option Z) (size : Z) (st : State) :
  MAX_SMALL_ALLOC_SIZE < size -> pool_exhausted st ->
  fst (allocate os size st) = 0.
Proof.
  intros Hsz Hx. unfold allocate.
  destruct (Z.eqb_spec size 0); [unfold MAX_SMALL_ALLOC_SIZE in Hsz; lia|].
  destruct (Z.ltb_spec MAX_SMALL_ALLOC_SIZE size); [| lia].
  unfold allocate_large.
  destruct (allocateSpan os _ st) as [[sp|] st1] eqn:E; [| reflexivity].
  apply allocateSpan_Some in E as (a & _ & Hroom & _).
  unfold pool_exhausted in Hx. lia.
Qed.

Lemma pool_exhaustion_is_permanent_aux (ops : list Op) (st : State) :
  0 <= span_offset st <= sizeof_span_memory ->
  span_offset st <= span_offset (run ops st) <= sizeof_span_memory /\
  (pool_exhausted st -> pool_exhausted (run ops st)).
Proof.
  intros Hoff. pose proof (run_span_offset ops st Hoff) as Hrun.
  split; [exact Hrun|]. unfold pool_exhausted.
  rewrite !wrap64_small
    by (unfold sizeof_Span, sizeof_span_memory in *; lia).
  lia.
Qed.

(** X5. The descriptor pool only ever shrinks: over any run of [allocate]
    and [deallocate] calls, with any arguments and any [mmap] answers,
    [span_offset] never decreases and stays inside the pool.  Hence
    exhaustion is permanent: once no descriptor fits, every later request
    above 1024 bytes returns null, however much has been freed. *)
Theorem pool_exhaustion_is_permanent
        (ops : list Op) (os : option Z) (size : Z) (st : State) :
  0 <= span_offset st <= sizeof_span_memory ->
  span_offset st <= span_offset (run ops st) <= sizeof_span_memory /\
  (pool_exhausted st -> MAX_SMALL_ALLOC_SIZE < size ->
   pool_exhausted (run ops st) /\ fst (allocate os size (run ops st)) = 0).
Proof.
  intros Hoff. pose proof (run_span_offset ops st Hoff) as Hrun.
  split; [exact Hrun|]. intros Hx Hsz.
  assert (pool_exhausted (run ops st)) as Hx'.
  { unfold pool_exhausted in *.
    rewrite wrap64_small in *
      by (unfold sizeof_Span, sizeof_span_memory in *; lia).
    lia. }
  split; [exact Hx'|]. now apply allocate_large_exhausted.
Qed.

Lemma pool_exhaustion_is_permanent_witness :
  let st := set_span_offset sizeof_span_memory init_state in
  let ops := [OpAllocate (Some 40960) 64; OpDeallocate 0;
              OpAllocate (Some 81920) 5000] in
  span_offset st <= span_offset (run ops st) <= sizeof_span_memory /\
  (pool_exhausted st -> MAX_SMALL_ALLOC_SIZE < 2000 ->
   pool_exhausted (run ops st) /\
   fst (allocate (Some 122880) 2000 (run ops st)) = 0).
Proof.
  apply (pool_exhaustion_is_permanent _ (Some 122880) 2000
           (set_span_offset sizeof_span_memory init_state)).
  cbn. unfold sizeof_span_memory. lia.
Defined.

(** ** Large objects of any size *)

Lemma allocate_large_mapped (a size : Z) (st : State) :
  MAX_SMALL_ALLOC_SIZE < size < 2 ^ 64 ->
  0 <= a < 2 ^ 64 -> a mod 4096 = 0 ->
  wrap64 (span_offset st + sizeof_Span) <= sizeof_span_memory ->
  let n := wrap64 (wrap64 (size + sizeof_BlockHeader) + 4095) / 4096 in
  allocate (Some a) size st =
  (wrap64 (a + sizeof_BlockHeader),
   MkState (store a size (mem st))
           (Mmap (wrap64 (Z.shiftl n PAGE_SHIFT)) (Some a) :: os_log st)
           (<[span_offset st := MkSpan (a / 4096) n 0 0 false]> (span_memory st))
           (wrap64 (span_offset st + sizeof_Span))
           (map_pages (Z.to_nat n) 0 (a / 4096) (span_offset st) (page_map st))
           (transfer_caches st) (my_cache st)).
Proof.
  intros Hsz Ha Hal Hroom n. unfold MAX_SMALL_ALLOC_SIZE in Hsz.
  pose proof (Z.div_mod a 4096 ltac:(lia)) as Hd.
  unfold allocate, MAX_SMALL_ALLOC_SIZE.
  destruct (Z.eqb_spec size 0); [lia|].
  destruct (Z.ltb_spec 1024 size); [| lia].
  unfold allocate_large. rewrite large_page_count. fold n.
  rewrite allocateSpan_mapped by exact Hroom.
  cbn [span_memory mem]. rewrite lookup_total_insert_eq. cbn [start_page_id].
  rewrite shiftr_page, shiftl_page.
  replace (a / 4096 * 4096) with a by lia.
  rewrite (wrap64_small a) by lia. reflexivity.
Qed.

(** X6. Round trip of a large object of any size whose byte total does not
    wrap: the result is 8 bytes into the mapping, the [size] payload bytes
    behind it end inside the mapped pages, and [lookupSpan] finds the span
    from every address of those pages and answers as before elsewhere;
    after [deallocate] no address of those pages is found, other addresses
    still answer as before, the whole region was unmapped by one [munmap],
    and the caches were never touched. *)
Theorem large_alloc_free_round_trip (a size addr : Z) (st : State) :
  MAX_SMALL_ALLOC_SIZE < size ->
  size + sizeof_BlockHeader + 4095 < 2 ^ 64 ->
  0 <= a -> a mod 4096 = 0 ->
  a + (size + sizeof_BlockHeader + 4095) / 4096 * 4096 <= 2 ^ 64 ->
  0 <= span_offset st ->
  wrap64 (span_offset st + sizeof_Span) <= sizeof_span_memory ->
  let bytes := (size + sizeof_BlockHeader + 4095) / 4096 * 4096 in
  let r := allocate (Some a) size st in
  let st2 := deallocate (fst r) (snd r) in
  fst r = a + sizeof_BlockHeader /\
  fst r + size <= a + bytes /\
  load (mem (snd r)) (fst r - sizeof_BlockHeader) = size /\
  lookupSpan addr (snd r) =
    (if decide (a <= addr < a + bytes) then Some (span_offset st)
     else lookupSpan addr st) /\
  lookupSpan addr st2 =
    (if decide (a <= addr < a + bytes) then None else lookupSpan addr st) /\
  os_log st2 = Munmap a bytes :: Mmap bytes (Some a) :: os_log st /\
  transfer_caches st2 = transfer_caches st /\ my_cache st2 = my_cache st.
Proof.
  intros Hsz Hov Ha Hal Hend Hoff Hroom bytes r st2.
  unfold MAX_SMALL_ALLOC_SIZE, sizeof_BlockHeader in Hsz, Hov, Hend, bytes |- *.
  set (n := (size + 8 + 4095) / 4096) in *.
  pose proof (Z.div_mod (size + 8 + 4095) 4096 ltac:(lia)) as Hdn.
  pose proof (Z.mod_pos_bound (size + 8 + 4095) 4096 ltac:(lia)) as Hmn.
  fold n in Hdn.
  assert (1 <= n < 2 ^ 52) as Hn by lia.
  pose proof (Z.div_mod a 4096 ltac:(lia)) as Hd.
  assert (0 <= a / 4096) as Hpid by (apply Z.div_pos; lia).
  assert (wrap64 (wrap64 (size + sizeof_BlockHeader) + 4095) / 4096 = n) as En.
  { unfold sizeof_BlockHeader. rewrite (wrap64_small (size + 8)) by lia.
    rewrite wrap64_small by lia. reflexivity. }
  assert (r = (a + 8,
     MkState (store a size (mem st))
             (Mmap bytes (Some a) :: os_log st)
             (<[span_offset st := MkSpan (a / 4096) n 0 0 false]> (span_memory st))
             (wrap64 (span_offset st + sizeof_Span))
             (map_pages (Z.to_nat n) 0 (a / 4096) (span_offset st) (page_map st))
             (transfer_caches st) (my_cache st))) as Hr.
  { subst r. rewrite allocate_large_mapped;
      try assumption; unfold MAX_SMALL_ALLOC_SIZE; try lia.
    cbv zeta. rewrite En, page_bytes by lia.
    unfold sizeof_BlockHeader. rewrite wrap64_small by lia. reflexivity. }
  assert (forall p, map_pages (Z.to_nat n) 0 (a / 4096) (span_offset st)
                      (page_map st) !! p =
                    if decide (a / 4096 <= p < a / 4096 + n)
                    then Some (span_offset st) else page_map st !! p) as Hlk.
  { intros p. rewrite map_pages_lookup by lia.
    now rewrite Z.add_0_r, Z2Nat.id by lia. }
  pose proof (page_in_region a n addr Hal) as Hiff. fold bytes in Hiff.
  assert (st2 =
     MkState (store a size (mem st))
             (Munmap a bytes :: Mmap bytes (Some a) :: os_log st)
             (<[span_offset st := MkSpan (a / 4096) n 0 0 false]> (span_memory st))
             (wrap64 (span_offset st + sizeof_Span))
             (erase_pages (Z.to_nat n) 0 (a / 4096)
                (map_pages (Z.to_nat n) 0 (a / 4096) (span_offset st)
                   (page_map st)))
             (transfer_caches st) (my_cache st)) as Hst2.
  { subst st2. rewrite Hr. cbn [fst snd]. unfold deallocate.
    destruct (Z.eqb_spec (a + 8) 0); [lia|].
    unfold sizeof_BlockHeader. replace (a + 8 - 8) with a by lia.
    rewrite (wrap64_small a) by lia. cbn [mem]. rewrite load_store_eq.
    unfold MAX_SMALL_ALLOC_SIZE.
    destruct (Z.ltb_spec 1024 size); [| lia].
    unfold lookupSpan. cbn [page_map]. rewrite shiftr_page, Hlk.
    destruct (decide (a / 4096 <= a / 4096 < a / 4096 + n)); [| lia].
    unfold deallocateSpan. cbn. rewrite lookup_total_insert_eq. cbn.
    rewrite !page_bytes by lia. fold bytes.
    replace (a / 4096 * 4096) with a by lia. reflexivity. }
  rewrite Hst2, Hr. cbn [fst snd mem os_log transfer_caches my_cache].
  split; [reflexivity|].
  split; [subst bytes; lia|].
  split; [replace (a + 8 - 8) with a by lia; apply load_store_eq|].
  split.
  { unfold lookupSpan. cbn [page_map]. rewrite !shiftr_page, Hlk.
    destruct (decide (a / 4096 <= addr / 4096 < a / 4096 + n));
      destruct (decide (a <= addr < a + bytes)); tauto. }
  split; [| auto].
  unfold lookupSpan. cbn [page_map]. rewrite !shiftr_page.
  rewrite erase_pages_lookup by lia. rewrite Z.add_0_r, Z2Nat.id by lia.
  rewrite Hlk.
  destruct (decide (a / 4096 <= addr / 4096 < a / 4096 + n));
    destruct (decide (a <= addr < a + bytes)); tauto.
Qed.

Lemma large_alloc_free_round_trip_witness :
  let a := 40960 in
  let size := 10000 in
  let addr := 49000 in
  let st := init_state in
  let bytes := (size + sizeof_BlockHeader + 4095) / 4096 * 4096 in
  let r := allocate (Some a) size st in
  let st2 := deallocate (fst r) (snd r) in
  fst r = a + sizeof_BlockHeader /\
  fst r + size <= a + bytes /\
  load (mem (snd r)) (fst r - sizeof_BlockHeader) = size /\
  lookupSpan addr (snd r) =
    (if decide (a <= addr < a + bytes) then Some (span_offset st)
     else lookupSpan addr st) /\
  lookupSpan addr st2 =
    (if decide (a <= addr < a + bytes) then None else lookupSpan addr st) /\
  os_log st2 = Munmap a bytes :: Mmap bytes (Some a) :: os_log st /\
  transfer_caches st2 = transfer_caches st /\ my_cache st2 = my_cache st.
Proof.
  apply (large_alloc_free_round_trip 40960 10000 49000 init_state).
  - unfold MAX_SMALL_ALLOC_SIZE. lia.
  - unfold sizeof_BlockHeader. lia.
  - lia.
  - reflexivity.
  - vm_compute. discriminate.
  - cbn. lia.
  - vm_compute. discriminate.
Defined.

(** X7. Wrap-around of the byte total: for the seven sizes from [2^64 - 7]
    to [2^64 - 1] the sum [size + sizeof(BlockHeader)] wraps to a value
    between 1 and 7, so [allocate] asks for a single page; when [mmap]
    succeeds it returns a non-null pointer with the full [size] recorded in
    the header, although only one page (4088 bytes behind the pointer) is
    mapped and indexed. *)
Theorem allocate_near_size_max (a size : Z) (st : State) :
  2 ^ 64 - 7 <= size < 2 ^ 64 ->
  0 <= a -> a mod 4096 = 0 -> a + 4096 <= 2 ^ 64 ->
  wrap64 (span_offset st + sizeof_Span) <= sizeof_span_memory ->
  let r := allocate (Some a) size st in
  fst r = a + sizeof_BlockHeader /\
  load (mem (snd r)) a = size /\
  os_log (snd r) = Mmap 4096 (Some a) :: os_log st /\
  span_memory (snd r) !!! span_offset st = MkSpan (a / 4096) 1 0 0 false /\
  lookupSpan (a + 4096) (snd r) = lookupSpan (a + 4096) st.
Proof.
  intros Hsz Ha Hal Hend Hroom r.
  pose proof (Z.div_mod a 4096 ltac:(lia)) as Hd.
  assert (0 <= a / 4096) as Hpid by (apply Z.div_pos; lia).
  assert (wrap64 (wrap64 (size + sizeof_BlockHeader) + 4095) / 4096 = 1) as En.
  { unfold sizeof_BlockHeader, wrap64.
    replace ((size + 8) mod 2 ^ 64) with (size + 8 - 2 ^ 64)
      by (apply (Z.mod_unique _ _ 1); lia).
    rewrite Z.mod_small by lia. symmetry.
    apply (Z.div_unique _ 4096 1 (size + 8 - 2 ^ 64 + 4095 - 4096)); lia. }
  subst r. rewrite allocate_large_mapped;
    try assumption; unfold MAX_SMALL_ALLOC_SIZE; try lia.
  cbv zeta. rewrite En. cbn [fst snd mem os_log span_memory].
  rewrite page_bytes by lia.
  split; [apply wrap64_small; unfold sizeof_BlockHeader; lia|].
  split; [apply load_store_eq|].
  split; [reflexivity|].
  split; [apply lookup_total_insert_eq|].
  unfold lookupSpan. cbn [page_map]. rewrite shiftr_page.
  change (Z.to_nat 1) with 1%nat. cbn [map_pages].
  rewrite wrap64_small by lia. apply lookup_insert_ne.
  replace (a + 4096) with (a + 1 * 4096) by lia.
  rewrite Z.div_add by lia. lia.
Qed.

Lemma allocate_near_size_max_witness :
  let r := allocate (Some 40960) (2 ^ 64 - 1) init_state in
  fst r = 40960 + sizeof_BlockHeader /\
  load (mem (snd r)) 40960 = 2 ^ 64 - 1 /\
  os_log (snd r) = Mmap 4096 (Some 40960) :: os_log init_state /\
  span_memory (snd r) !!! span_offset init_state =
    MkSpan (40960 / 4096) 1 0 0 false /\
  lookupSpan (40960 + 4096) (snd r) = lookupSpan (40960 + 4096) init_state.
Proof.
  apply (allocate_near_size_max 40960 (2 ^ 64 - 1) init_state); try lia.
  - reflexivity.
  - vm_compute. discriminate.
Defined.

(** ** Frees of small objects *)

(** X8. A free on the small path (header value at most 1024) never reaches
    the operating system or the page heap: no system call is made and the
    page index and the descriptor pool are as before, so memory of small
    objects is never unmapped by freeing them. *)
Theorem deallocate_small_keeps_pages (ptr : Z) (st : State) :
  load (mem st) (header_of ptr) <= MAX_SMALL_ALLOC_SIZE ->
  os_log (deallocate ptr st) = os_log st /\
  page_map (deallocate ptr st) = page_map st /\
  span_memory (deallocate ptr st) = span_memory st /\
  span_offset (deallocate ptr st) = span_offset st.
Proof.
  intros Hsz. unfold deallocate.
  destruct (ptr =? 0); [auto|]. fold (header_of ptr). cbv zeta.
  destruct (Z.ltb_spec MAX_SMALL_ALLOC_SIZE (load (mem st) (header_of ptr)));
    [lia|].
  destruct (8 <=? _); [auto|].
  destruct (_ <? _); [| auto].
  match goal with
  | |- context [releaseToTransferCache ?c ?s] =>
      destruct (releaseToTransferCache_heap c s) as (-> & -> & -> & ->)
  end.
  auto.
Qed.

Lemma deallocate_small_keeps_pages_witness :
  let st := snd (allocate (Some 40960) 64 init_state) in
  os_log (deallocate 45048 st) = os_log st /\
  page_map (deallocate 45048 st) = page_map st /\
  span_memory (deallocate 45048 st) = span_memory st /\
  span_offset (deallocate 45048 st) = span_offset st.
Proof.
  apply (deallocate_small_keeps_pages 45048
           (snd (allocate (Some 40960) 64 init_state))).
  vm_compute. discriminate.
Defined.

(** ** Lifetime of the descriptor pool *)

Lemma allocate_then_free_large_span_offset (a size : Z) (st : State) :
  MAX_SMALL_ALLOC_SIZE < size ->
  0 <= span_offset st ->
  span_offset st + sizeof_Span <= sizeof_span_memory ->
  span_offset (allocate_then_free (Some a) size st) =
  span_offset st + sizeof_Span.
Proof.
  intros Hsz Hoff Hroom. unfold allocate_then_free.
  rewrite deallocate_span_offset. unfold allocate.
  destruct (Z.eqb_spec size 0); [unfold MAX_SMALL_ALLOC_SIZE in Hsz; lia|].
  destruct (Z.ltb_spec MAX_SMALL_ALLOC_SIZE size); [| lia].
  unfold allocate_large.
  assert (wrap64 (span_offset st + sizeof_Span) = span_offset st + sizeof_Span)
    as Ew by (apply wrap64_small;
              unfold sizeof_Span, sizeof_span_memory in *; lia).
  rewrite allocateSpan_mapped by (rewrite Ew; exact Hroom).
  cbn. exact Ew.
Qed.

(** X9. Every large allocation consumes one 40-byte descriptor for good,
    also when the object is freed at once: after [k] allocate/free cycles of
    a large size [span_offset] has advanced by [40 * k].  A fresh allocator
    therefore serves 1024 such cycles and no more: after them every request
    above 1024 bytes returns null, whatever calls are made in between. *)
Theorem large_churn_exhausts_pool (answers : list Z) (size : Z) (st : State) :
  MAX_SMALL_ALLOC_SIZE < size ->
  0 <= span_offset st ->
  span_offset st + sizeof_Span * Z.of_nat (length answers)
    <= sizeof_span_memory ->
  span_offset (churn answers size st) =
    span_offset st + sizeof_Span * Z.of_nat (length answers) /\
  (span_offset st = 0 -> length answers = 1024%nat ->
   forall ops os size', MAX_SMALL_ALLOC_SIZE < size' ->
     fst (allocate os size' (run ops (churn answers size st))) = 0).
Proof.
  intros Hsz Hoff Hfit.
  assert (span_offset (churn answers size st) =
          span_offset st + sizeof_Span * Z.of_nat (length answers)) as Hk.
  { revert st Hoff Hfit.
    induction answers as [|a answers IH]; intros st Hoff Hfit.
    - cbn. lia.
    - cbn [churn fold_left length] in *.
      fold (churn answers size (allocate_then_free (Some a) size st)).
      pose proof (allocate_then_free_large_span_offset a size st Hsz Hoff
                    ltac:(unfold sizeof_Span in *; lia)) as Hone.
      rewrite IH; rewrite Hone; unfold sizeof_Span in *; lia. }
  split; [exact Hk|].
  intros H0 Hlen ops os size' Hsz'.
  assert (0 <= span_offset (churn answers size st) <= sizeof_span_memory)
    as Hin by (rewrite Hk; unfold sizeof_Span in *; lia).
  destruct (pool_exhaustion_is_permanent_aux ops (churn answers size st) Hin)
    as [_ Hperm].
  apply allocate_large_exhausted; [exact Hsz'|]. apply Hperm.
  unfold pool_exhausted. rewrite Hk, H0, Hlen.
  vm_compute. reflexivity.
Qed.

Lemma large_churn_exhausts_pool_witness :
  let answers := [40960; 40960; 40960] in
  span_offset (churn answers 5000 init_state) =
    span_offset init_state + sizeof_Span * Z.of_nat (length answers) /\
  (span_offset init_state = 0 -> length answers = 1024%nat ->
   forall ops os size', MAX_SMALL_ALLOC_SIZE < size' ->
     fst (allocate os size' (run ops (churn answers 5000 init_state))) = 0).
Proof.
  apply (large_churn_exhausts_pool [40960; 40960; 40960] 5000 init_state).
  - unfold MAX_SMALL_ALLOC_SIZE. lia.
  - cbn. lia.
  - vm_compute. discriminate.
Defined.

(** ** The small path seen by a caller *)

Lemma allocate_small_path (os : option Z) (size : Z) (st : State) :
  0 < size <= MAX_SMALL_ALLOC_SIZE ->
  0 <= getSizeClassIndex size < 8 /\
  size <= getClassSizeFromIndex (getSizeClassIndex size) /\
  allocate os size st =
    if thread_list st (getSizeClassIndex size) =? 0 then
      if thread_list (fetchFromTransferCache os (getSizeClassIndex size) st)
                     (getSizeClassIndex size) =? 0
      then (0, fetchFromTransferCache os (getSizeClassIndex size) st)
      else pop_block (getSizeClassIndex size)
                     (fetchFromTransferCache os (getSizeClassIndex size) st)
    else pop_block (getSizeClassIndex size) st.
Proof.
  unfold MAX_SMALL_ALLOC_SIZE. intros Hs.
  assert (0 <= getSizeClassIndex size < 8 /\
          size <= getClassSizeFromIndex (getSizeClassIndex size)) as [Hc Hfit].
  { destruct (getSizeClassIndex_cases size) as
      [[H ->]|[[H ->]|[[H ->]|[[H ->]|[[H ->]|[[H ->]|[[H ->]|[[H ->]|[H ->]]]]]]]]];
      try lia; (split; [lia | vm_compute (getClassSizeFromIndex _); lia]). }
  split; [exact Hc|]. split; [exact Hfit|].
  unfold allocate, MAX_SMALL_ALLOC_SIZE.
  destruct (Z.eqb_spec size 0); [lia|].
  destruct (Z.ltb_spec 1024 size); [lia|].
  unfold allocate_small. cbv zeta.
  destruct (Z.leb_spec 8 (getSizeClassIndex size)); [lia|]. reflexivity.
Qed.

Section PopBlock.
Variables (c : Z) (st : State).
Hypothesis Hc : 0 <= c < 8.
Hypothesis Hok : arrays_ok st.

Lemma pop_block_arrays_ok : arrays_ok (snd (pop_block c st)).
Proof.
  destruct Hok as (H1 & H2 & H3). unfold arrays_ok, pop_block. cbn.
  now rewrite !length_insert.
Qed.

Lemma pop_block_thread_list :
  thread_list (snd (pop_block c st)) c = load (mem st) (thread_list st c).
Proof.
  destruct Hok as (H1 & H2 & H3). unfold thread_list, pop_block. cbn.
  apply list_lookup_total_insert_eq. lia.
Qed.

Lemma pop_block_thread_len :
  thread_len (snd (pop_block c st)) c = wrap_int (thread_len st c - 1).
Proof.
  destruct Hok as (H1 & H2 & H3). unfold thread_len, pop_block. cbn.
  apply list_lookup_total_insert_eq. lia.
Qed.

Lemma pop_block_other (c' : Z) :
  0 <= c' < 8 -> c' <> c ->
  thread_list (snd (pop_block c st)) c' = thread_list st c' /\
  thread_len (snd (pop_block c st)) c' = thread_len st c'.
Proof.
  intros Hc' Hne. unfold thread_list, thread_len, pop_block. cbn.
  now rewrite !list_lookup_total_insert_ne by lia.
Qed.
End PopBlock.

(** X10. The fast path.  A request of [1 <= size <= 1024] bytes whose class
    has a block in the thread cache is served from it alone: the result is
    the head block plus 8, its header now holds the class's byte value,
    which is at least [size]; the list head moves to the block's [next] and
    the length drops by one; no system call is made and the transfer caches,
    the page index and the lists of the other classes are untouched. *)
Theorem allocate_fast_path (os : option Z) (size : Z) (st : State) :
  0 < size <= MAX_SMALL_ALLOC_SIZE ->
  arrays_ok st ->
  thread_list st (getSizeClassIndex size) <> 0 ->
  let c := getSizeClassIndex size in
  let b := thread_list st c in
  let r := allocate os size st in
  fst r = wrap64 (b + sizeof_BlockHeader) /\
  load (mem (snd r)) b = getClassSizeFromIndex c /\
  size <= getClassSizeFromIndex c /\
  thread_list (snd r) c = load (mem st) b /\
  thread_len (snd r) c = wrap_int (thread_len st c - 1) /\
  os_log (snd r) = os_log st /\
  transfer_caches (snd r) = transfer_caches st /\
  page_map (snd r) = page_map st /\
  (forall c', 0 <= c' < 8 -> c' <> c ->
     thread_list (snd r) c' = thread_list st c' /\
     thread_len (snd r) c' = thread_len st c').
Proof.
  intros Hs Hok Hne c b r.
  destruct (allocate_small_path os size st Hs) as (Hc & Hfit & Heq).
  fold c in Hc, Hfit, Heq, Hne.
  destruct (Z.eqb_spec (thread_list st c) 0) as [|_]; [contradiction|].
  subst r. rewrite Heq.
  split; [reflexivity|].
  split; [cbn; apply load_store_eq|].
  split; [exact Hfit|].
  split; [now apply pop_block_thread_list|].
  split; [now apply pop_block_thread_len|].
  split; [reflexivity|]. split; [reflexivity|]. split; [reflexivity|].
  intros c' Hc' Hneq. now apply pop_block_other.
Qed.

Lemma allocate_fast_path_witness :
  let st := snd (allocate (Some 40960) 64 init_state) in
  let os := @None Z in
  let size := 50 in
  let c := getSizeClassIndex size in
  let b := thread_list st c in
  let r := allocate os size st in
  fst r = wrap64 (b + sizeof_BlockHeader) /\
  load (mem (snd r)) b = getClassSizeFromIndex c /\
  size <= getClassSizeFromIndex c /\
  thread_list (snd r) c = load (mem st) b /\
  thread_len (snd r) c = wrap_int (thread_len st c - 1) /\
  os_log (snd r) = os_log st /\
  transfer_caches (snd r) = transfer_caches st /\
  page_map (snd r) = page_map st /\
  (forall c', 0 <= c' < 8 -> c' <> c ->
     thread_list (snd r) c' = thread_list st c' /\
     thread_len (snd r) c' = thread_len st c').
Proof.
  apply (allocate_fast_path None 50 (snd (allocate (Some 40960) 64 init_state))).
  - unfold MAX_SMALL_ALLOC_SIZE. lia.
  - repeat split.
  - vm_compute. discriminate.
Defined.

Lemma getSizeClassIndex_of_class (c : Z) :
  0 <= c < 8 -> getSizeClassIndex (getClassSizeFromIndex c) = c.
Proof.
  intros Hc.
  destruct (getClassSizeFromIndex_cases c Hc) as
    [[-> ->]|[[-> ->]|[[-> ->]|[[-> ->]|[[-> ->]|[[-> ->]|[[-> ->]|[-> ->]]]]]]]];
    reflexivity.
Qed.

Lemma header_of_pointer (b : Z) :
  0 <= b < 2 ^ 64 - 8 ->
  wrap64 (b + sizeof_BlockHeader) = b + sizeof_BlockHeader /\
  header_of (b + sizeof_BlockHeader) = b.
Proof.
  unfold header_of, sizeof_BlockHeader. intros Hb.
  split; [apply wrap64_small; lia|].
  replace (b + 8 - 8) with b by lia. apply wrap64_small. lia.
Qed.

(** X11. Freeing a block right after it was taken from a non-empty thread
    cache puts the allocator back into the very same state: the block is the
    head of its list again with its old [next] word, and the length is
    restored.  So a loop that allocates and frees one small size runs
    entirely in the thread cache: after any number of iterations the state,
    and with it the trace of system calls, is unchanged. *)
Theorem small_alloc_free_restores (os : option Z) (size : Z) (st : State) :
  0 < size <= MAX_SMALL_ALLOC_SIZE ->
  arrays_ok st ->
  0 < thread_list st (getSizeClassIndex size) < 2 ^ 64 - 8 ->
  is_Some (mem st !! thread_list st (getSizeClassIndex size)) ->
  0 < thread_len st (getSizeClassIndex size) <= SCAVENGE_THRESHOLD ->
  allocate_then_free os size st = st /\
  forall n, Nat.iter n (allocate_then_free os size) st = st.
Proof.
  intros Hs Hok Hb [nxt Hnxt] Hlen.
  assert (allocate_then_free os size st = st) as Hone.
  2:{ split; [exact Hone|]. induction n as [|n IH]; [reflexivity|].
      now rewrite Nat.iter_succ, IH. }
  destruct (allocate_small_path os size st Hs) as (Hc & Hfit & Heq).
  set (c := getSizeClassIndex size) in *.
  set (b := thread_list st c) in *.
  destruct (Z.eqb_spec b 0) as [|_]; [lia|].
  destruct (header_of_pointer b ltac:(lia)) as [Ew Eh].
  unfold allocate_then_free. rewrite Heq.
  change (fst (pop_block c st)) with (wrap64 (b + sizeof_BlockHeader)).
  rewrite Ew.
  set (st1 := snd (pop_block c st)).
  assert (load (mem st1) b = getClassSizeFromIndex c) as Hstamp
    by (subst st1; cbn; apply load_store_eq).
  rewrite (deallocate_small_step (b + sizeof_BlockHeader) c st1);
    [| unfold sizeof_BlockHeader; lia | exact Hc
     | rewrite Eh, Hstamp; now apply getSizeClassIndex_of_class].
  rewrite Eh.
  pose proof (pop_block_arrays_ok c st Hok) as Hok1. fold st1 in Hok1.
  rewrite (push_free_thread_len c b st1 Hc Hok1).
  unfold st1 at 1. rewrite (pop_block_thread_len c st Hc Hok).
  unfold SCAVENGE_THRESHOLD in *.
  rewrite (wrap_int_small (thread_len st c - 1)) by (unfold INT_MAX; lia).
  replace (thread_len st c - 1 + 1) with (thread_len st c) by lia.
  rewrite wrap_int_small by (unfold INT_MAX; lia).
  destruct (Z.ltb_spec 128 (thread_len st c)); [lia|].
  destruct Hok as (H1 & H2 & H3).
  assert (load (mem st) b = nxt) as Hload by (unfold load; now rewrite Hnxt).
  unfold push_free, st1, pop_block. fold (thread_list st c). fold b.
  assert (free_lists (my_cache st) !!! Z.to_nat c = b) as Hbd by reflexivity.
  clear Heq Hstamp Hok1 Hfit. clearbody b. subst st1. clearbody c.
  destruct st as [m lg sm so pm tcs [fl ll]].
  unfold thread_list, thread_len, set_my_cache, set_mem, set_list_length,
    set_free_list, store in *.
  cbn [fst snd mem os_log span_memory span_offset page_map transfer_caches
       my_cache free_lists list_lengths] in *.
  rewrite !list_lookup_total_insert_eq by lia.
  rewrite !list_insert_insert_eq.
  rewrite (wrap_int_small (ll !!! Z.to_nat c - 1)) by (unfold INT_MAX; lia).
  replace (ll !!! Z.to_nat c - 1 + 1) with (ll !!! Z.to_nat c) by lia.
  rewrite wrap_int_small by (unfold INT_MAX; lia).
  rewrite insert_insert_eq, Hload, (insert_id m b nxt Hnxt).
  rewrite (list_insert_id fl), (list_insert_id ll);
    try (rewrite <- ?Hbd; apply list_lookup_lookup_total_lt; lia).
  reflexivity.
Qed.

Lemma small_alloc_free_restores_witness :
  let st := snd (allocate (Some 40960) 64 init_state) in
  allocate_then_free None 50 st = st /\
  forall n, Nat.iter n (allocate_then_free None 50) st = st.
Proof.
  apply (small_alloc_free_restores None 50
           (snd (allocate (Some 40960) 64 init_state))).
  - unfold MAX_SMALL_ALLOC_SIZE. lia.
  - repeat split.
  - vm_compute. split; reflexivity.
  - vm_compute. eauto.
  - vm_compute. split; [reflexivity | discriminate].
Defined.

(** ** The free lists, operation by operation *)

Lemma transfer_to_thread_lists (c : Z) (st : State) (L T : Z -> list Z) :
  caches_wf st L T -> 0 <= c < 8 -> L c <> [] ->
  let b := Nat.min (length (L c)) 32 in
  caches_wf (transfer_to_thread c st)
            (upd L c (drop b (L c))) (upd T c (take b (L c))) /\
  os_log (transfer_to_thread c st) = os_log st /\
  (forall x, x ∉ L c ->
             load (mem (transfer_to_thread c st)) x = load (mem st) x).
Proof.
  intros Hwf Hc HL b.
  destruct (wf_central _ _ _ Hwf c Hc) as (Hch & Hcnt & Hmax).
  destruct (transfer_to_thread_spec c st (L c) Hc (wf_arrays _ _ _ Hwf)
              Hch Hcnt HL Hmax)
    as ((t & Ht & Hmem) & Hth & Hthl & Hce & Hcc & Hok' & Hoth & Hlog & _).
  fold b in Ht, Hth, Hthl, Hce, Hcc.
  pose proof (chain_NoDup _ _ _ Hch) as Hnd.
  rewrite <- (take_drop b (L c)) in Hnd.
  apply NoDup_app in Hnd as (_ & Hdisj & _).
  split; [| split; [exact Hlog|]].
  2:{ intros x Hx. rewrite Hmem. apply load_store_ne. intros ->.
      apply Hx. now apply elem_of_take_l in Ht. }
  constructor.
  - exact Hok'.
  - intros c1 Hc1. split_class c1 c.
    + split; [exact Hce|]. split; [rewrite Hcc, length_drop; lia|].
      rewrite length_drop. lia.
    + destruct (Hoth c1 Hc1 ltac:(assumption)) as (-> & _ & _).
      destruct (wf_central _ _ _ Hwf c1 Hc1) as (Hch1 & Hcnt1 & Hmax1).
      split; [| auto]. rewrite Hmem. apply segment_store_other; [| exact Hch1].
      intros Hin. apply n.
      apply (wf_sep_central _ _ _ Hwf c1 c t); auto.
      now apply elem_of_take_l in Ht.
  - intros c1 Hc1. split_class c1 c.
    + split; [exact Hth|]. rewrite Hthl, length_take. subst b. lia.
    + destruct (Hoth c1 Hc1 ltac:(assumption)) as (_ & -> & ->).
      destruct (wf_thread _ _ _ Hwf c1 Hc1) as (Hch1 & Hlen1).
      split; [| auto]. rewrite Hmem. apply segment_store_other; [| exact Hch1].
      intros Hin. apply (wf_sep_cross _ _ _ Hwf c c1 t); auto.
      now apply elem_of_take_l in Ht.
  - intros c1 c2 x Hc1 Hc2 H1 H2.
    split_class c1 c; split_class c2 c; auto.
    + apply elem_of_drop_l in H1.
      apply (wf_sep_central _ _ _ Hwf c c2 x); auto.
    + apply elem_of_drop_l in H2.
      apply (wf_sep_central _ _ _ Hwf c1 c x); auto.
    + apply (wf_sep_central _ _ _ Hwf c1 c2 x); auto.
  - intros c1 c2 x Hc1 Hc2 H1 H2.
    split_class c1 c; split_class c2 c; auto.
    + apply elem_of_take_l in H1.
      destruct (wf_sep_cross _ _ _ Hwf c c2 x); auto.
    + apply elem_of_take_l in H2.
      destruct (wf_sep_cross _ _ _ Hwf c c1 x); auto.
    + apply (wf_sep_thread _ _ _ Hwf c1 c2 x); auto.
  - intros c1 c2 x Hc1 Hc2 H1 H2.
    split_class c1 c; split_class c2 c.
    + apply (Hdisj x H2 H1).
    + apply elem_of_drop_l in H1.
      apply (wf_sep_cross _ _ _ Hwf c c2 x); auto.
    + apply elem_of_take_l in H2. apply n.
      apply (wf_sep_central _ _ _ Hwf c1 c x); auto.
    + apply (wf_sep_cross _ _ _ Hwf c1 c2 x); auto.
Qed.

Lemma refill_central_lists (a c : Z) (st : State) (L T : Z -> list Z) :
  caches_wf st L T -> 0 <= c < 8 ->
  count (central st c) = 0 ->
  0 < a -> a mod 4096 = 0 -> a + 4096 <= 2 ^ 64 ->
  (forall c' x, 0 <= c' < 8 -> x ∈ L c' \/ x ∈ T c' -> ~ (a <= x < a + 4096)) ->
  wrap64 (span_offset st + sizeof_Span) <= sizeof_span_memory ->
  let carved :=
    rev (block_addrs a (block_bytes c) 0
                     (Z.to_nat (Z.max 1 (4096 / block_bytes c)))) in
  exists st1,
    refill_central (Some a) c st = (true, st1) /\
    caches_wf st1 (upd L c carved) T /\
    os_log st1 = Mmap 4096 (Some a) :: os_log st /\
    (forall x, ~ (a <= x < a + 4096) -> load (mem st1) x = load (mem st) x).
Proof.
  intros Hwf Hc Hz Ha Hal Hend Hnew Hroom carved. unfold block_bytes in carved.
  destruct (wf_central _ _ _ Hwf c Hc) as (Hch & Hcnt & Hmax).
  assert (L c = []) as HL by (destruct (L c); [reflexivity | cbn in *; lia]).
  rewrite HL in Hch. cbn in Hch.
  pose proof (block_geometry c Hc) as (Hbsz & Hn & Hfit).
  destruct (refill_central_spec a c st Hc (wf_arrays _ _ _ Hwf) Hz Ha Hal
              Hend Hroom)
    as (st1 & Hre & Hseg & Hcnt1 & Hfr & Hok1 & Hmc & Hoth & Hlog & _).
  rewrite Hch in Hseg.
  set (bsz := getClassSizeFromIndex c + sizeof_BlockHeader) in *.
  set (n := Z.to_nat (Z.max 1 (4096 / bsz))) in *.
  assert (forall x, x ∈ block_addrs a bsz 0 n -> a <= x < a + 4096) as Hin.
  { intros x Hx. now apply (carved_block_in_page a c). }
  assert (forall c1 x, 0 <= c1 < 8 -> x ∈ L c1 \/ x ∈ T c1 ->
                       x ∉ block_addrs a bsz 0 n) as Hout.
  { intros c1 x Hc1 Hx Hb. apply (Hnew c1 x Hc1 Hx). now apply Hin. }
  exists st1. split; [exact Hre|]. split; [| split; [exact Hlog|]].
  2:{ intros x Hx. apply Hfr. intros Hb. apply Hx. now apply Hin. }
  constructor.
  - exact Hok1.
  - intros c1 Hc1. split_class c1 c.
    + split; [exact Hseg|]. subst carved.
      rewrite length_rev, length_block_addrs.
      split; [exact Hcnt1 | unfold INT_MAX; lia].
    + rewrite (Hoth c1 Hc1) by assumption.
      destruct (wf_central _ _ _ Hwf c1 Hc1) as (Hch1 & Hc1' & Hm1).
      split; [| auto]. apply (segment_frame (mem st)); [| exact Hch1].
      intros x Hx. apply Hfr. apply (Hout c1); auto.
  - intros c1 Hc1. unfold thread_list, thread_len. rewrite Hmc.
    destruct (wf_thread _ _ _ Hwf c1 Hc1) as (Hch1 & Hl1).
    split; [| exact Hl1]. apply (segment_frame (mem st)); [| exact Hch1].
    intros x Hx. apply Hfr. apply (Hout c1); auto.
  - intros c1 c2 x Hc1 Hc2 H1 H2. subst carved.
    split_class c1 c; split_class c2 c; auto.
    + rewrite elem_of_rev in H1. destruct (Hout c2 x); auto.
    + rewrite elem_of_rev in H2. destruct (Hout c1 x); auto.
    + apply (wf_sep_central _ _ _ Hwf c1 c2 x); auto.
  - apply (wf_sep_thread _ _ _ Hwf).
  - intros c1 c2 x Hc1 Hc2 H1 H2. subst carved. split_class c1 c.
    + rewrite elem_of_rev in H1. destruct (Hout c2 x); auto.
    + apply (wf_sep_cross _ _ _ Hwf c1 c2 x); auto.
Qed.

Lemma releaseToTransferCache_lists (c : Z) (st : State) (L T : Z -> list Z) :
  caches_wf st L T -> 0 <= c < 8 -> T c <> [] ->
  Z.of_nat (length (L c) + length (T c)) <= INT_MAX ->
  caches_wf (releaseToTransferCache c st)
            (upd L c (T c ++ L c)) (upd T c []) /\
  (forall x, x ∉ T c ->
     load (mem (releaseToTransferCache c st)) x = load (mem st) x).
Proof.
  intros Hwf Hc HT Hsum.
  destruct (wf_central _ _ _ Hwf c Hc) as (Hch & Hcnt & Hmax).
  destruct (wf_thread _ _ _ Hwf c Hc) as (Hth & Hlen).
  destruct (wf_arrays _ _ _ Hwf) as (Ha1 & Ha2 & Ha3).
  unfold releaseToTransferCache.
  destruct (Z.leb_spec 8 c); [lia|]. cbn [orb].
  fold (thread_len st c). fold (thread_list st c). fold (central st c).
  destruct (Z.eqb_spec (thread_len st c) 0) as [Hz|Hnz].
  { destruct (T c); [contradiction | cbn in Hlen; lia]. }
  cbv zeta.
  assert (exists pre t, T c = pre ++ [t]) as (pre & t & HTc).
  { destruct (T c) as [|t0 pre0] using rev_ind; [contradiction | eauto]. }
  rewrite HTc in Hlen, Hsum, Hth.
  rewrite length_app in Hlen, Hsum. cbn [length] in Hlen, Hsum.
  pose proof (chain_NoDup _ _ _ Hth) as Hnd.
  apply NoDup_app in Hnd as (_ & Hdisj & _).
  assert (t ∉ pre) as Htpre.
  { intros Hin. apply (Hdisj _ Hin). apply list_elem_of_here. }
  assert (t ∈ T c) as HtT.
  { rewrite HTc. apply elem_of_app. right. apply list_elem_of_here. }
  pose proof Hth as Hsplit.
  apply segment_app in Hsplit as (mid & Hpre & (-> & Ht & Hnull)).
  cbn in Hnull.
  assert (walk (Z.to_nat (thread_len st c - 1)) (mem st) (thread_list st c) = t)
    as ->.
  { replace (Z.to_nat (thread_len st c - 1)) with (length pre) by lia.
    rewrite (walk_segment _ _ _ _ _ Hth) by (rewrite length_app; cbn; lia).
    apply nth_middle. }
  destruct (Z.eqb_spec t 0); [contradiction|].
  rewrite Hcnt, Hlen, wrap_int_small by (unfold INT_MAX in *; lia).
  split.
  2:{ intros x Hx. cbn. apply load_store_ne. intros ->. contradiction. }
  rewrite HTc.
  constructor.
  - unfold arrays_ok. cbn. now rewrite !length_insert.
  - intros c1 Hc1. unfold central. cbn. split_class c1 c.
    + rewrite list_lookup_total_insert_eq by lia. cbn.
      split; [| rewrite !length_app; cbn [length]; lia].
      apply segment_app. exists (tc_list (central st c)). split.
      * apply segment_app. exists t. split.
        -- now apply segment_store_other.
        -- cbn. rewrite load_store_eq. auto.
      * apply segment_store_other; [| exact Hch].
        intros Hin. apply (wf_sep_cross _ _ _ Hwf c c t); auto.
    + rewrite list_lookup_total_insert_ne by lia.
      destruct (wf_central _ _ _ Hwf c1 Hc1) as (Hch1 & Hc1' & Hm1).
      split; [| auto]. apply segment_store_other; [| exact Hch1].
      intros Hin. apply (wf_sep_cross _ _ _ Hwf c1 c t); auto.
  - intros c1 Hc1. unfold thread_list, thread_len. cbn. split_class c1 c.
    + rewrite !list_lookup_total_insert_eq by lia. cbn. auto.
    + rewrite !list_lookup_total_insert_ne by lia.
      destruct (wf_thread _ _ _ Hwf c1 Hc1) as (Hch1 & Hl1).
      split; [| exact Hl1]. apply segment_store_other; [| exact Hch1].
      intros Hin. apply n0. symmetry.
      apply (wf_sep_thread _ _ _ Hwf c c1 t); auto.
  - intros c1 c2 x Hc1 Hc2 H1 H2.
    split_class c1 c; split_class c2 c; auto.
    + rewrite <- HTc in H1. apply elem_of_app in H1 as [H1|H1].
      * destruct (wf_sep_cross _ _ _ Hwf c2 c x); auto.
      * apply (wf_sep_central _ _ _ Hwf c c2 x); auto.
    + rewrite <- HTc in H2. apply elem_of_app in H2 as [H2|H2].
      * destruct (wf_sep_cross _ _ _ Hwf c1 c x); auto.
      * apply (wf_sep_central _ _ _ Hwf c1 c x); auto.
    + apply (wf_sep_central _ _ _ Hwf c1 c2 x); auto.
  - intros c1 c2 x Hc1 Hc2 H1 H2.
    split_class c1 c; split_class c2 c; auto.
    + apply elem_of_nil in H1. contradiction.
    + apply elem_of_nil in H2. contradiction.
    + apply (wf_sep_thread _ _ _ Hwf c1 c2 x); auto.
  - intros c1 c2 x Hc1 Hc2 H1 H2.
    split_class c2 c; [apply elem_of_nil in H2; contradiction|].
    split_class c1 c.
    + rewrite <- HTc in H1. apply elem_of_app in H1 as [H1|H1].
      * apply n0. symmetry. apply (wf_sep_thread _ _ _ Hwf c c2 x); auto.
      * apply (wf_sep_cross _ _ _ Hwf c c2 x); auto.
    + apply (wf_sep_cross _ _ _ Hwf c1 c2 x); auto.
Qed.

Lemma push_free_other (c c' h : Z) (st : State) :
  0 <= c < 8 -> 0 <= c' < 8 -> c' <> c ->
  thread_list (push_free c h st) c' = thread_list st c' /\
  thread_len (push_free c h st) c' = thread_len st c'.
Proof.
  intros Hc Hc' Hne. unfold thread_list, thread_len, push_free. cbn.
  now rewrite !list_lookup_total_insert_ne by lia.
Qed.

Lemma pop_block_lists (c b : Z) (rest : list Z) (st : State)
      (L T : Z -> list Z) :
  caches_wf st L T -> 0 <= c < 8 -> T c = b :: rest ->
  Z.of_nat (length (T c)) <= INT_MAX ->
  caches_wf (snd (pop_block c st)) L (upd T c rest) /\
  thread_list st c = b /\ b <> 0 /\ b ∉ rest.
Proof.
  intros Hwf Hc HT Hmax.
  pose proof (wf_arrays _ _ _ Hwf) as Hok.
  destruct (wf_thread _ _ _ Hwf c Hc) as (Hth & Hlen).
  rewrite HT in Hth, Hlen, Hmax. cbn [length] in Hlen, Hmax.
  pose proof (chain_NoDup _ _ _ Hth) as Hnd.
  apply NoDup_cons in Hnd as [Hbrest _].
  destruct Hth as (Hhead & Hb & Hrest).
  assert (b ∈ T c) as HbT by (rewrite HT; apply list_elem_of_here).
  pose proof Hhead as Hhead'. unfold thread_list in Hhead'.
  split; [| auto].
  constructor.
  - now apply pop_block_arrays_ok.
  - intros c1 Hc1.
    destruct (wf_central _ _ _ Hwf c1 Hc1) as (Hch1 & Hc1' & Hm1).
    change (central (snd (pop_block c st)) c1) with (central st c1).
    split; [| auto]. cbn [pop_block snd mem set_mem].
    rewrite Hhead'. apply segment_store_other; [| exact Hch1].
    intros Hin. apply (wf_sep_cross _ _ _ Hwf c1 c b); auto.
  - intros c1 Hc1. split_class c1 c.
    + rewrite pop_block_thread_list, pop_block_thread_len by assumption.
      rewrite Hhead, Hlen.
      rewrite wrap_int_small by (unfold INT_MAX in *; lia).
      split; [| lia]. cbn [pop_block snd mem set_mem]. rewrite Hhead'.
      now apply segment_store_other.
    + destruct (pop_block_other c st Hc c1 Hc1 ltac:(assumption)) as [-> ->].
      destruct (wf_thread _ _ _ Hwf c1 Hc1) as (Hch1 & Hl1).
      split; [| exact Hl1]. cbn [pop_block snd mem set_mem]. rewrite Hhead'.
      apply segment_store_other; [| exact Hch1].
      intros Hin. apply n. apply (wf_sep_thread _ _ _ Hwf c1 c b); auto.
  - apply (wf_sep_central _ _ _ Hwf).
  - intros c1 c2 x Hc1 Hc2 H1 H2.
    assert (forall c', x ∈ upd T c rest c' -> x ∈ T c') as Hsub.
    { intros c'. split_class c' c; [| auto].
      rewrite HT. intros Hx. now apply list_elem_of_further. }
    apply (wf_sep_thread _ _ _ Hwf c1 c2 x); auto.
  - intros c1 c2 x Hc1 Hc2 H1 H2.
    apply (wf_sep_cross _ _ _ Hwf c1 c2 x); auto.
    revert H2. split_class c2 c; [| auto].
    rewrite HT. intros Hx. now apply list_elem_of_further.
Qed.

Lemma push_free_lists (c h : Z) (st : State) (L T : Z -> list Z) :
  caches_wf st L T -> 0 <= c < 8 -> h <> 0 -> ~ on_lists L T h ->
  Z.of_nat (length (T c)) < INT_MAX ->
  caches_wf (push_free c h st) L (upd T c (h :: T c)).
Proof.
  intros Hwf Hc Hh Hnot Hmax.
  pose proof (wf_arrays _ _ _ Hwf) as Hok.
  assert (forall c1, 0 <= c1 < 8 -> (h ∉ L c1) /\ (h ∉ T c1)) as Hout.
  { intros c1 Hc1. split; intros Hin; apply Hnot; exists c1; auto. }
  constructor.
  - now apply push_free_arrays_ok.
  - intros c1 Hc1.
    destruct (wf_central _ _ _ Hwf c1 Hc1) as (Hch1 & Hc1' & Hm1).
    change (central (push_free c h st) c1) with (central st c1).
    split; [| auto]. rewrite push_free_mem.
    apply segment_store_other; [apply (Hout c1 Hc1) | exact Hch1].
  - intros c1 Hc1. split_class c1 c.
    + destruct (wf_thread _ _ _ Hwf c Hc) as (Hch1 & Hl1).
      rewrite push_free_thread_list, push_free_thread_len by assumption.
      rewrite Hl1, wrap_int_small by (unfold INT_MAX in *; lia).
      split; [| cbn [length]; lia].
      split; [reflexivity|]. split; [exact Hh|].
      rewrite push_free_mem, load_store_eq.
      apply segment_store_other; [apply (Hout c Hc) | exact Hch1].
    + destruct (push_free_other c c1 h st Hc Hc1 ltac:(assumption)) as [-> ->].
      destruct (wf_thread _ _ _ Hwf c1 Hc1) as (Hch1 & Hl1).
      split; [| exact Hl1]. rewrite push_free_mem.
      apply segment_store_other; [apply (Hout c1 Hc1) | exact Hch1].
  - apply (wf_sep_central _ _ _ Hwf).
  - intros c1 c2 x Hc1 Hc2 H1 H2.
    split_class c1 c; split_class c2 c; auto.
    + apply elem_of_cons in H1 as [->|H1].
      * destruct (Hout c2 Hc2) as [_ Hn]. contradiction.
      * apply (wf_sep_thread _ _ _ Hwf c c2 x); auto.
    + apply elem_of_cons in H2 as [->|H2].
      * destruct (Hout c1 Hc1) as [_ Hn]. contradiction.
      * apply (wf_sep_thread _ _ _ Hwf c1 c x); auto.
    + apply (wf_sep_thread _ _ _ Hwf c1 c2 x); auto.
  - intros c1 c2 x Hc1 Hc2 H1 H2. split_class c2 c.
    + apply elem_of_cons in H2 as [->|H2].
      * destruct (Hout c1 Hc1) as [Hn _]. contradiction.
      * apply (wf_sep_cross _ _ _ Hwf c1 c x); auto.
    + apply (wf_sep_cross _ _ _ Hwf c1 c2 x); auto.
Qed.

(** ** Live blocks and free lists *)

Lemma on_lists_upd (L T : Z -> list Z) (c x : Z) (l1 l2 : list Z) :
  on_lists (upd L c l1) (upd T c l2) x ->
  x ∈ l1 \/ x ∈ l2 \/ on_lists L T x.
Proof.
  intros (c1 & Hc1 & Hx). destruct (Z.eq_dec c1 c) as [->|Hne].
  - rewrite !upd_eq in Hx. tauto.
  - rewrite !upd_ne in Hx by assumption. right. right. exists c1. auto.
Qed.

Lemma on_lists_upd_L (L T : Z -> list Z) (c x : Z) (l1 : list Z) :
  on_lists (upd L c l1) T x -> x ∈ l1 \/ on_lists L T x.
Proof.
  intros (c1 & Hc1 & Hx). destruct (Z.eq_dec c1 c) as [->|Hne].
  - rewrite upd_eq in Hx. destruct Hx; [tauto|]. right. exists c. auto.
  - rewrite upd_ne in Hx by assumption. right. exists c1. auto.
Qed.

Lemma on_lists_upd_T (L T : Z -> list Z) (c x : Z) (l2 : list Z) :
  on_lists L (upd T c l2) x -> x ∈ l2 \/ on_lists L T x.
Proof.
  intros (c1 & Hc1 & Hx). destruct (Z.eq_dec c1 c) as [->|Hne].
  - rewrite upd_eq in Hx. destruct Hx; [| tauto]. right. exists c. auto.
  - rewrite upd_ne in Hx by assumption. right. exists c1. auto.
Qed.

Lemma same_page_in_region (a x : Z) :
  a mod 4096 = 0 -> (a <= x < a + 4096 <-> x / 4096 = a / 4096).
Proof.
  intros Hal.
  pose proof (Z.div_mod a 4096 ltac:(lia)).
  pose proof (Z.div_mod x 4096 ltac:(lia)).
  pose proof (Z.mod_pos_bound x 4096 ltac:(lia)). lia.
Qed.

(** A block in a mapped page is not in a page that [mmap] returns next. *)
Lemma mapped_not_fresh (log : list OsCall) (a x : Z) :
  mmap_fresh log 4096 (Some a) ->
  page_mapped log (x / 4096) = true -> ~ (a <= x < a + 4096).
Proof.
  intros Hfresh Hmap Hin.
  destruct (Hfresh a eq_refl) as (_ & _ & Hal & _ & Hnew).
  apply (same_page_in_region a x Hal) in Hin.
  assert (region_has_page a 4096 (x / 4096) = true) as Hr.
  { unfold region_has_page. rewrite Hin.
    pose proof (Z.div_mod a 4096 ltac:(lia)).
    apply andb_true_iff. rewrite Z.leb_le, Z.ltb_lt. lia. }
  rewrite (Hnew _ Hr) in Hmap. discriminate.
Qed.

Lemma alloc_inv_pop (n : nat) (c b : Z) (rest : list Z) (st : State)
      (L T : Z -> list Z) (A : gset Z) (P : gmap Z Z) :
  alloc_inv n st L T A P -> 0 <= c < 8 -> T c = b :: rest ->
  Z.of_nat n <= INT_MAX ->
  alloc_inv n (snd (pop_block c st)) L (upd T c rest) ({[b]} ∪ A) P /\
  (b ∉ A) /\ thread_list st c = b /\ 0 < b < 2 ^ 64 - 8.
Proof.
  intros [Hwf Hbound Hsep Hfs Hls Hrange Hmap] Hc HT Hn.
  assert (b ∈ T c) as HbT by (rewrite HT; apply list_elem_of_here).
  assert (on_lists L T b) as Hbl by (exists c; auto).
  assert (Z.of_nat (length (T c)) <= INT_MAX) as Hmax
    by (specialize (Hbound c Hc); lia).
  destruct (pop_block_lists c b rest st L T Hwf Hc HT Hmax)
    as (Hwf' & Hhead & Hb0 & Hbrest).
  assert (forall x, on_lists L (upd T c rest) x -> on_lists L T x) as Hsub.
  { intros x Hx. apply on_lists_upd_T in Hx as [Hx|Hx]; [| exact Hx].
    exists c. split; [exact Hc|]. right. rewrite HT.
    now apply list_elem_of_further. }
  assert (b ∉ A) as HbA by (intros Hin; exact (Hsep b Hin Hbl)).
  split; [| auto].
  constructor.
  - exact Hwf'.
  - intros c1 Hc1. specialize (Hbound c1 Hc1). split_class c1 c; [| exact Hbound].
    rewrite HT in Hbound. cbn in Hbound. lia.
  - intros x Hx Hon. apply elem_of_union in Hx as [Hx|Hx].
    + apply elem_of_singleton in Hx as ->.
      destruct Hon as (c1 & Hc1 & [Hin|Hin]).
      * apply (wf_sep_cross _ _ _ Hwf c1 c b); auto.
      * revert Hin. split_class c1 c; [exact Hbrest|].
        intros Hin. apply n0. apply (wf_sep_thread _ _ _ Hwf c1 c b); auto.
    + apply (Hsep x Hx). now apply Hsub.
  - intros c1 x Hc1 Hx. apply (Hfs c1 x Hc1).
    destruct Hx as [Hx|Hx]; [now left|]. right. revert Hx.
    split_class c1 c; [| auto]. rewrite HT. intros Hx.
    now apply list_elem_of_further.
  - intros x Hx. apply elem_of_union in Hx as [Hx|Hx].
    + apply elem_of_singleton in Hx as ->. exists c. split; [exact Hc|].
      split; [apply (Hfs c b Hc); auto|].
      cbn [pop_block snd mem set_mem]. fold (thread_list st c).
      rewrite Hhead. apply load_store_eq.
    + destruct (Hls x Hx) as (c1 & Hc1 & Hslot & Hload).
      exists c1. split; [exact Hc1|]. split; [exact Hslot|].
      cbn [pop_block snd mem set_mem]. fold (thread_list st c).
      rewrite Hhead, load_store_ne; [exact Hload|].
      intros ->. contradiction.
  - intros x [Hx|Hx].
    + apply elem_of_union in Hx as [Hx|Hx]; [| apply Hrange; now left].
      apply elem_of_singleton in Hx as ->. apply Hrange. now right.
    + apply Hrange. right. now apply Hsub.
  - intros x Hx. change (os_log (snd (pop_block c st))) with (os_log st).
    apply Hmap. destruct Hx as [Hx|Hx].
    + apply elem_of_union in Hx as [Hx|Hx]; [| now left].
      apply elem_of_singleton in Hx as ->. now right.
    + right. now apply Hsub.
Qed.

Lemma alloc_inv_transfer (n : nat) (c : Z) (st : State)
      (L T : Z -> list Z) (A : gset Z) (P : gmap Z Z) :
  alloc_inv n st L T A P -> 0 <= c < 8 -> L c <> [] ->
  let b := Nat.min (length (L c)) 32 in
  alloc_inv (Nat.max n 32) (transfer_to_thread c st)
            (upd L c (drop b (L c))) (upd T c (take b (L c))) A P.
Proof.
  intros [Hwf Hbound Hsep Hfs Hls Hrange Hmap] Hc HL b.
  destruct (transfer_to_thread_lists c st L T Hwf Hc HL) as (Hwf' & Hlog & Hmem).
  fold b in Hwf'.
  assert (forall x, on_lists (upd L c (drop b (L c))) (upd T c (take b (L c))) x
                    -> on_lists L T x) as Hsub.
  { intros x Hx. apply on_lists_upd in Hx as [Hx|[Hx|Hx]]; [| | exact Hx].
    - exists c. split; [exact Hc|]. left. now apply elem_of_drop_l in Hx.
    - exists c. split; [exact Hc|]. left. now apply elem_of_take_l in Hx. }
  constructor.
  - exact Hwf'.
  - intros c1 Hc1. split_class c1 c.
    + rewrite length_take. lia.
    + specialize (Hbound c1 Hc1). lia.
  - intros x Hx Hon. apply (Hsep x Hx). now apply Hsub.
  - intros c1 x Hc1 Hx. split_class c1 c.
    + apply (Hfs c x Hc). left.
      destruct Hx as [Hx|Hx];
        [now apply elem_of_drop_l in Hx | now apply elem_of_take_l in Hx].
    + now apply Hfs.
  - intros x Hx. destruct (Hls x Hx) as (c1 & Hc1 & Hslot & Hload).
    exists c1. split; [exact Hc1|]. split; [exact Hslot|].
    rewrite Hmem; [exact Hload|].
    intros Hin. apply (Hsep x Hx). exists c. auto.
  - intros x [Hx|Hx]; apply Hrange; [now left | right; now apply Hsub].
  - intros x Hx. rewrite Hlog. apply Hmap.
    destruct Hx as [Hx|Hx]; [now left | right; now apply Hsub].
Qed.

(** The invariant looks at memory, the caches and the mapped pages only. *)
Lemma alloc_inv_ext (n : nat) (st st' : State)
      (L T : Z -> list Z) (A : gset Z) (P : gmap Z Z) :
  alloc_inv n st L T A P ->
  mem st' = mem st -> transfer_caches st' = transfer_caches st ->
  my_cache st' = my_cache st ->
  (forall p, page_mapped (os_log st) p = true ->
             page_mapped (os_log st') p = true) ->
  alloc_inv n st' L T A P.
Proof.
  intros [Hwf Hbound Hsep Hfs Hls Hrange Hmap] Hm Ht Hc Hlog.
  constructor; auto.
  - now apply (caches_wf_ext st).
  - intros x Hx. rewrite Hm. now apply Hls.
Qed.

Lemma alloc_inv_refill_failed (n : nat) (os : option Z) (st st1 : State)
      (L T : Z -> list Z) (A : gset Z) (P : gmap Z Z) :
  alloc_inv n st L T A P ->
  mmap_fresh (os_log st) 4096 os ->
  allocateSpan os 1 st = (None, st1) ->
  alloc_inv n st1 L T A P.
Proof.
  intros Hinv Hfresh Halloc.
  assert (forall p, page_mapped (os_log st) p = true ->
                    page_mapped (os_log st1) p = true) as Hlog.
  { intros p Hp. destruct os as [a|].
    - destruct (pool_exhausted_dec st) as [Hx|Hroom].
      + rewrite allocateSpan_pool_exhausted in Halloc by exact Hx.
        injection Halloc as <-. cbn.
        change (wrap64 (Z.shiftl 1 PAGE_SHIFT)) with 4096.
        destruct (region_has_page a 4096 p) eqn:Hr; [| exact Hp].
        destruct (Hfresh a eq_refl) as (_ & _ & _ & _ & Hnew).
        rewrite (Hnew p Hr) in Hp. discriminate.
      + rewrite allocateSpan_mapped in Halloc by exact Hroom. discriminate.
    - rewrite allocateSpan_mmap_failed in Halloc. injection Halloc as <-.
      exact Hp. }
  apply allocateSpan_None in Halloc as (_ & _ & Hm & _ & _ & _ & Ht & Hc).
  now apply (alloc_inv_ext n st).
Qed.

Lemma alloc_inv_refill (n : nat) (a c : Z) (st : State)
      (L T : Z -> list Z) (A : gset Z) (P : gmap Z Z) :
  alloc_inv n st L T A P -> 0 <= c < 8 ->
  count (central st c) = 0 ->
  mmap_fresh (os_log st) 4096 (Some a) ->
  wrap64 (span_offset st + sizeof_Span) <= sizeof_span_memory ->
  let carved :=
    rev (block_addrs a (block_bytes c) 0
                     (Z.to_nat (Z.max 1 (4096 / block_bytes c)))) in
  exists st1,
    refill_central (Some a) c st = (true, st1) /\
    carved <> [] /\
    alloc_inv n st1 (upd L c carved) T A (<[a / 4096 := c]> P).
Proof.
  intros Hinv Hc Hz Hfresh Hroom carved.
  pose proof Hinv as [Hwf Hbound Hsep Hfs Hls Hrange Hmap].
  destruct (Hfresh a eq_refl) as (_ & Ha & Hal & Hend & _).
  assert (forall x, x ∈ A \/ on_lists L T x -> ~ (a <= x < a + 4096)) as Hout.
  { intros x Hx. apply (mapped_not_fresh (os_log st) a x Hfresh).
    now apply Hmap. }
  destruct (refill_central_lists a c st L T Hwf Hc Hz Ha Hal Hend) as
    (st1 & Hre & Hwf1 & Hlog & Hmem); [| exact Hroom |].
  { intros c1 x Hc1 Hx. apply Hout. right. exists c1. auto. }
  fold carved in Hwf1.
  pose proof (block_geometry c Hc) as (Hbsz & Hn & Hfit).
  fold (block_bytes c) in Hbsz, Hn, Hfit.
  set (bsz := block_bytes c) in *.
  set (k := Z.to_nat (Z.max 1 (4096 / bsz))) in *.
  pose proof (Z.div_mod a 4096 ltac:(lia)) as Hd.
  assert (forall x, x ∈ carved ->
            exists j, 0 <= j < 4096 / bsz /\ x = a + j * bsz) as Hcarved.
  { intros x Hx. subst carved. rewrite elem_of_rev in Hx.
    apply elem_of_block_addrs in Hx as (j & Hj & ->).
    exists (Z.of_nat j). split; [lia | reflexivity]. }
  assert (forall x, x ∈ carved -> a <= x < a + 4096 - 8) as Hpage.
  { intros x Hx. destruct (Hcarved x Hx) as (j & Hj & ->). nia. }
  exists st1. split; [exact Hre|]. split.
  { subst carved. intros E. apply (f_equal length) in E.
    rewrite length_rev, length_block_addrs in E. cbn in E. lia. }
  assert (forall x, x ∈ A \/ on_lists L T x -> x / 4096 <> a / 4096) as Hpg.
  { intros x Hx E. apply (Hout x Hx). now apply same_page_in_region. }
  assert (forall c1 x, slot P c1 x -> x / 4096 <> a / 4096 ->
                       slot (<[a / 4096 := c]> P) c1 x) as Hslot.
  { intros c1 x [HP Hi] Hne. split; [| exact Hi].
    rewrite lookup_insert_ne by congruence. exact HP. }
  constructor.
  - exact Hwf1.
  - exact Hbound.
  - intros x Hx Hon. apply on_lists_upd_L in Hon as [Hon|Hon].
    + apply (Hout x); [now left|]. specialize (Hpage x Hon). lia.
    + exact (Hsep x Hx Hon).
  - intros c1 x Hc1 Hx.
    assert (x ∈ carved /\ c1 = c \/ (x ∈ L c1 \/ x ∈ T c1)) as [[Hx' ->]|Hx'].
    { destruct Hx as [Hx|Hx]; [| tauto]. revert Hx.
      split_class c1 c; tauto. }
    + destruct (Hcarved x Hx') as (j & Hj & E).
      assert (x / 4096 = a / 4096) as Epg.
      { apply same_page_in_region; [exact Hal|].
        specialize (Hpage x Hx'). lia. }
      split; [rewrite Epg; apply lookup_insert_eq|].
      exists j. split; [exact Hj|]. rewrite Epg. lia.
    + apply Hslot; [now apply Hfs|]. apply Hpg. right. exists c1. auto.
  - intros x Hx. destruct (Hls x Hx) as (c1 & Hc1 & Hsl & Hload).
    exists c1. split; [exact Hc1|]. split.
    + apply Hslot; [exact Hsl|]. apply Hpg. now left.
    + rewrite Hmem; [exact Hload|]. apply Hout. now left.
  - intros x [Hx|Hx]; [apply Hrange; now left|].
    apply on_lists_upd_L in Hx as [Hx|Hx]; [| apply Hrange; now right].
    specialize (Hpage x Hx). lia.
  - intros x Hx. rewrite Hlog. cbn [page_mapped].
    assert (x ∈ carved \/ (x ∈ A \/ on_lists L T x)) as [Hx'|Hx'].
    { destruct Hx as [Hx|Hx]; [tauto|].
      apply on_lists_upd_L in Hx. tauto. }
    + assert (x / 4096 = a / 4096) as Epg.
      { apply same_page_in_region; [exact Hal|].
        specialize (Hpage x Hx'). lia. }
      rewrite Epg. unfold region_has_page.
      replace (a / 4096 * 4096) with a by lia.
      destruct (Z.leb_spec a a); [| lia].
      destruct (Z.ltb_spec a (a + 4096)); [reflexivity | lia].
    + rewrite (Hmap x Hx'). apply orb_true_r.
Qed.

Lemma alloc_inv_bound (n m : nat) (st : State)
      (L T : Z -> list Z) (A : gset Z) (P : gmap Z Z) :
  alloc_inv n st L T A P ->
  (forall c, 0 <= c < 8 -> (length (T c) <= m)%nat) ->
  alloc_inv m st L T A P.
Proof. intros [Hwf Hbound Hsep Hfs Hls Hrange Hmap] Hm. now constructor. Qed.

Lemma alloc_inv_push (n : nat) (c h : Z) (st : State)
      (L T : Z -> list Z) (A : gset Z) (P : gmap Z Z) :
  alloc_inv n st L T A P -> h ∈ A -> 0 <= c < 8 -> slot P c h ->
  Z.of_nat n < INT_MAX ->
  alloc_inv (S n) (push_free c h st) L (upd T c (h :: T c)) (A ∖ {[h]}) P.
Proof.
  intros [Hwf Hbound Hsep Hfs Hls Hrange Hmap] Hh Hc Hslot Hn.
  assert (0 < h < 2 ^ 64 - 8) as Hhr by (apply Hrange; now left).
  assert (forall x, on_lists L (upd T c (h :: T c)) x ->
                    x = h \/ on_lists L T x) as Hsub.
  { intros x Hx. apply on_lists_upd_T in Hx as [Hx|Hx]; [| tauto].
    apply elem_of_cons in Hx as [Hx|Hx]; [tauto|].
    right. exists c. auto. }
  constructor.
  - apply push_free_lists; auto; [lia | | specialize (Hbound c Hc); lia].
    intros Hon. exact (Hsep h Hh Hon).
  - intros c1 Hc1. specialize (Hbound c1 Hc1). split_class c1 c; [| lia].
    cbn [length]. lia.
  - intros x Hx Hon. apply elem_of_difference in Hx as [Hx Hne].
    apply Hsub in Hon as [->|Hon].
    + apply Hne. now apply elem_of_singleton.
    + exact (Hsep x Hx Hon).
  - intros c1 x Hc1 Hx.
    assert (x = h /\ c1 = c \/ (x ∈ L c1 \/ x ∈ T c1)) as [[-> ->]|Hx'].
    { destruct Hx as [Hx|Hx]; [tauto|]. revert Hx.
      split_class c1 c; [| tauto].
      intros Hx. apply elem_of_cons in Hx. tauto. }
    + exact Hslot.
    + now apply Hfs.
  - intros x Hx. apply elem_of_difference in Hx as [Hx Hne].
    destruct (Hls x Hx) as (c1 & Hc1 & Hsl & Hload).
    exists c1. split; [exact Hc1|]. split; [exact Hsl|].
    rewrite push_free_mem, load_store_ne; [exact Hload|].
    intros ->. apply Hne. now apply elem_of_singleton.
  - intros x [Hx|Hx].
    + apply elem_of_difference in Hx as [Hx _]. apply Hrange. now left.
    + apply Hsub in Hx as [->|Hx]; [exact Hhr | apply Hrange; now right].
  - intros x Hx. change (os_log (push_free c h st)) with (os_log st).
    apply Hmap. destruct Hx as [Hx|Hx].
    + apply elem_of_difference in Hx as [Hx _]. now left.
    + apply Hsub in Hx as [->|Hx]; [now left | now right].
Qed.

Lemma alloc_inv_release (n : nat) (c : Z) (st : State)
      (L T : Z -> list Z) (A : gset Z) (P : gmap Z Z) :
  alloc_inv n st L T A P -> 0 <= c < 8 -> T c <> [] ->
  Z.of_nat (length (L c) + length (T c)) <= INT_MAX ->
  alloc_inv n (releaseToTransferCache c st)
            (upd L c (T c ++ L c)) (upd T c []) A P.
Proof.
  intros [Hwf Hbound Hsep Hfs Hls Hrange Hmap] Hc HT Hsum.
  destruct (releaseToTransferCache_lists c st L T Hwf Hc HT Hsum)
    as (Hwf' & Hmem).
  destruct (releaseToTransferCache_heap c st) as (Hlog & _).
  assert (forall x, on_lists (upd L c (T c ++ L c)) (upd T c []) x ->
                    on_lists L T x) as Hsub.
  { intros x Hx. apply on_lists_upd in Hx as [Hx|[Hx|Hx]]; [| | exact Hx].
    - exists c. split; [exact Hc|]. apply elem_of_app in Hx. tauto.
    - apply elem_of_nil in Hx. contradiction. }
  constructor.
  - exact Hwf'.
  - intros c1 Hc1. specialize (Hbound c1 Hc1). split_class c1 c; [| lia].
    cbn. lia.
  - intros x Hx Hon. apply (Hsep x Hx). now apply Hsub.
  - intros c1 x Hc1 Hx. split_class c1 c; [| now apply Hfs].
    apply (Hfs c x Hc). destruct Hx as [Hx|Hx].
    + apply elem_of_app in Hx. tauto.
    + apply elem_of_nil in Hx. contradiction.
  - intros x Hx. destruct (Hls x Hx) as (c1 & Hc1 & Hsl & Hload).
    exists c1. split; [exact Hc1|]. split; [exact Hsl|].
    rewrite Hmem; [exact Hload|].
    intros Hin. apply (Hsep x Hx). exists c. auto.
  - intros x [Hx|Hx]; apply Hrange; [now left | right; now apply Hsub].
  - intros x Hx. rewrite Hlog. apply Hmap.
    destruct Hx as [Hx|Hx]; [now left | right; now apply Hsub].
Qed.

(** A free of a live block keeps the invariant. *)
Lemma alloc_inv_deallocate (h : Z) (st : State)
      (L T : Z -> list Z) (A : gset Z) (P : gmap Z Z) :
  alloc_inv 128 st L T A P -> h ∈ A ->
  (forall c, 0 <= c < 8 -> count (central st c) <= INT_MAX - 129) ->
  exists L' T',
    alloc_inv 128 (deallocate (h + sizeof_BlockHeader) st) L' T' (A ∖ {[h]}) P.
Proof.
  intros Hinv Hh Hcount.
  pose proof Hinv as [Hwf Hbound Hsep Hfs Hls Hrange Hmap].
  destruct (Hls h Hh) as (c & Hc & Hslot & Hload).
  assert (0 < h < 2 ^ 64 - 8) as Hhr by (apply Hrange; now left).
  destruct (header_of_pointer h ltac:(lia)) as [_ Eh].
  rewrite (deallocate_small_step (h + sizeof_BlockHeader) c st);
    [| unfold sizeof_BlockHeader; lia | exact Hc
     | rewrite Eh, Hload; now apply getSizeClassIndex_of_class].
  rewrite Eh.
  pose proof (alloc_inv_push 128 c h st L T A P Hinv Hh Hc Hslot
                ltac:(unfold INT_MAX; lia)) as Hpush.
  destruct (wf_thread _ _ _ Hwf c Hc) as (_ & Hlen).
  rewrite push_free_thread_len by (auto; apply (wf_arrays _ _ _ Hwf)).
  pose proof (Hbound c Hc) as Hb.
  rewrite Hlen, wrap_int_small by (unfold INT_MAX; lia).
  unfold SCAVENGE_THRESHOLD.
  destruct (Z.ltb_spec 128 (Z.of_nat (length (T c)) + 1)) as [Hover|Hfit].
  - exists (upd L c (upd T c (h :: T c) c ++ L c)),
           (upd (upd T c (h :: T c)) c []).
    apply (alloc_inv_bound 129).
    + apply alloc_inv_release; auto.
      * rewrite upd_eq. discriminate.
      * rewrite upd_eq. cbn [length].
        destruct (wf_central _ _ _ Hwf c Hc) as (_ & Hcnt & _).
        specialize (Hcount c Hc). lia.
    + intros c1 Hc1. specialize (Hbound c1 Hc1). split_class c1 c.
      * cbn. lia.
      * lia.
  - exists L, (upd T c (h :: T c)).
    apply (alloc_inv_bound 129); [exact Hpush|].
    intros c1 Hc1. specialize (Hbound c1 Hc1). split_class c1 c; [| lia].
    cbn [length]. lia.
Qed.

Lemma refill_central_failed (os : option Z) (c : Z) (st st1 : State) :
  0 <= c < 8 -> count (central st c) = 0 ->
  allocateSpan os 1 st = (None, st1) ->
  refill_central os c st = (false, st1).
Proof.
  intros Hc Hz E. unfold refill_central. cbv zeta. fold (central st c).
  rewrite Hz. cbn [Z.eqb].
  pose proof (getClassSizeFromIndex_bounds c Hc).
  destruct (Z.eqb_spec (getClassSizeFromIndex c) 0); [lia|].
  now rewrite E.
Qed.

Lemma alloc_inv_pop_head (c : Z) (st : State)
      (L T : Z -> list Z) (A : gset Z) (P : gmap Z Z) :
  alloc_inv 128 st L T A P -> 0 <= c < 8 -> thread_list st c <> 0 ->
  exists b T',
    fst (pop_block c st) = b + sizeof_BlockHeader /\
    (b ∉ A) /\ 0 < b < 2 ^ 64 - 8 /\
    load (mem (snd (pop_block c st))) b = getClassSizeFromIndex c /\
    alloc_inv 128 (snd (pop_block c st)) L T' ({[b]} ∪ A) P.
Proof.
  intros Hinv Hc Hne.
  destruct (wf_thread _ _ _ (ai_wf _ _ _ _ _ _ Hinv) c Hc) as (Hth & _).
  destruct (T c) as [|b rest] eqn:HT; [cbn in Hth; contradiction|].
  destruct (alloc_inv_pop 128 c b rest st L T A P Hinv Hc HT
              ltac:(unfold INT_MAX; lia)) as (Hinv' & HbA & Hhead & Hb).
  exists b, (upd T c rest). split.
  - change (fst (pop_block c st))
      with (wrap64 (thread_list st c + sizeof_BlockHeader)).
    rewrite Hhead. apply wrap64_small. unfold sizeof_BlockHeader. lia.
  - split; [exact HbA|]. split; [exact Hb|]. split; [| exact Hinv'].
    cbn [pop_block snd mem set_mem]. fold (thread_list st c).
    rewrite Hhead. apply load_store_eq.
Qed.

Lemma alloc_inv_transfer_pop (c : Z) (st : State)
      (L T : Z -> list Z) (A : gset Z) (P : gmap Z Z) :
  alloc_inv 128 st L T A P -> 0 <= c < 8 -> L c <> [] ->
  thread_list (transfer_to_thread c st) c <> 0 /\
  exists b L' T',
    fst (pop_block c (transfer_to_thread c st)) = b + sizeof_BlockHeader /\
    (b ∉ A) /\ 0 < b < 2 ^ 64 - 8 /\
    load (mem (snd (pop_block c (transfer_to_thread c st)))) b =
      getClassSizeFromIndex c /\
    alloc_inv 128 (snd (pop_block c (transfer_to_thread c st))) L' T'
              ({[b]} ∪ A) P.
Proof.
  intros Hinv Hc HL.
  pose proof (alloc_inv_transfer 128 c st L T A P Hinv Hc HL) as Hinv2.
  cbv zeta in Hinv2. change (Nat.max 128 32) with 128%nat in Hinv2.
  set (b := Nat.min (length (L c)) 32) in *.
  assert (thread_list (transfer_to_thread c st) c <> 0) as Hne.
  { destruct (wf_thread _ _ _ (ai_wf _ _ _ _ _ _ Hinv2) c Hc) as (Hth & _).
    rewrite upd_eq in Hth.
    destruct (take b (L c)) as [|x xs] eqn:Htake.
    - apply (f_equal length) in Htake. rewrite length_take in Htake.
      destruct (L c); [contradiction|]. subst b. cbn in Htake. lia.
    - destruct Hth as (-> & Hx & _). exact Hx. }
  split; [exact Hne|].
  destruct (alloc_inv_pop_head c _ _ _ A P Hinv2 Hc Hne)
    as (b0 & T' & Hfst & HbA & Hb & Hst & Hinv3).
  eauto 10.
Qed.

(** One small allocation keeps the invariant; its block was not live. *)
Lemma alloc_inv_allocate (os : option Z) (size : Z) (st : State)
      (L T : Z -> list Z) (A : gset Z) (P : gmap Z Z) :
  alloc_inv 128 st L T A P ->
  0 < size <= MAX_SMALL_ALLOC_SIZE ->
  mmap_fresh (os_log st) 4096 os ->
  (fst (allocate os size st) = 0 /\
   alloc_inv 128 (snd (allocate os size st)) L T A P /\
   thread_list st (getSizeClassIndex size) = 0 /\
   count (central st (getSizeClassIndex size)) = 0 /\
   span_request_fails os st) \/
  (exists b L' T' P',
     fst (allocate os size st) = b + sizeof_BlockHeader /\
     (b ∉ A) /\ 0 < b < 2 ^ 64 - 8 /\
     load (mem (snd (allocate os size st))) b =
       getClassSizeFromIndex (getSizeClassIndex size) /\
     alloc_inv 128 (snd (allocate os size st)) L' T' ({[b]} ∪ A) P').
Proof.
  intros Hinv Hs Hfresh.
  destruct (allocate_small_path os size st Hs) as (Hc & _ & ->).
  set (c := getSizeClassIndex size) in *.
  pose proof (ai_wf _ _ _ _ _ _ Hinv) as Hwf.
  destruct (Z.eqb_spec (thread_list st c) 0) as [Hempty|Hne].
  2:{ right. destruct (alloc_inv_pop_head c st L T A P Hinv Hc Hne)
        as (b & T' & H1 & H2 & H3 & H4 & H5). eauto 12. }
  unfold fetchFromTransferCache. destruct (Z.leb_spec 8 c); [lia|].
  destruct (wf_central _ _ _ Hwf c Hc) as (Hch & Hcnt & _).
  destruct (Z.eq_dec (count (central st c)) 0) as [Hz|Hnz].
  - assert (forall st1, allocateSpan os 1 st = (None, st1) ->
              (if thread_list
                    (let (b, s) := refill_central os c st in
                     if b then transfer_to_thread c s else s) c =? 0
               then (0, let (b, s) := refill_central os c st in
                        if b then transfer_to_thread c s else s)
               else pop_block c
                      (let (b, s) := refill_central os c st in
                       if b then transfer_to_thread c s else s)) = (0, st1) /\
              alloc_inv 128 st1 L T A P) as Hfailed.
    { intros st1 E.
      rewrite (refill_central_failed os c st st1 Hc Hz E).
      pose proof (alloc_inv_refill_failed 128 os st st1 L T A P Hinv Hfresh E)
        as Hinv1.
      apply allocateSpan_None in E as (_ & _ & _ & _ & _ & _ & _ & Hmc).
      unfold thread_list in *. rewrite Hmc, Hempty. cbn [Z.eqb]. auto. }
    destruct os as [a|].
    + destruct (pool_exhausted_dec st) as [Hx|Hroom].
      * left.
        destruct (Hfailed _ (allocateSpan_pool_exhausted a 1 st Hx))
          as [-> Hinv1]. unfold span_request_fails. auto 6.
      * right.
        destruct (alloc_inv_refill 128 a c st L T A P Hinv Hc Hz Hfresh Hroom)
          as (st1 & -> & Hcarved & Hinv1).
        destruct (alloc_inv_transfer_pop c st1 _ T A _ Hinv1 Hc)
          as (Hne & b & L' & T' & H1 & H2 & H3 & H4 & H5);
          [now rewrite upd_eq|].
        destruct (Z.eqb_spec (thread_list (transfer_to_thread c st1) c) 0);
          [contradiction|].
        eauto 12.
    + left. destruct (Hfailed _ (allocateSpan_mmap_failed 1 st)) as [-> Hinv1].
      unfold span_request_fails. auto 6.
  - right.
    assert (refill_central os c st = (true, st)) as ->.
    { unfold refill_central. cbv zeta. fold (central st c).
      now destruct (Z.eqb_spec (count (central st c)) 0). }
    destruct (alloc_inv_transfer_pop c st L T A P Hinv Hc)
      as (Hne & b & L' & T' & H1 & H2 & H3 & H4 & H5).
    { intros E. rewrite E in Hcnt. cbn [length Z.of_nat] in Hcnt. lia. }
    destruct (Z.eqb_spec (thread_list (transfer_to_thread c st) c) 0);
      [contradiction|].
    eauto 12.
Qed.

(** ** The invariant along a run *)

Lemma alloc_inv_init :
  alloc_inv 128 init_state (fun _ => []) (fun _ => []) ∅ ∅.
Proof.
  constructor.
  - apply caches_wf_init.
  - intros c _. cbn [length]. lia.
  - intros x Hx. apply elem_of_empty in Hx. contradiction.
  - intros c x _ [H|H]; apply elem_of_nil in H; contradiction.
  - intros x Hx. apply elem_of_empty in Hx. contradiction.
  - intros x [Hx|(c & _ & [H|H])];
      [apply elem_of_empty in Hx | apply elem_of_nil in H ..]; contradiction.
  - intros x [Hx|(c & _ & [H|H])];
      [apply elem_of_empty in Hx | apply elem_of_nil in H ..]; contradiction.
Qed.

Lemma small_reachable_inv (st : State) (A : gset Z) :
  small_reachable st A -> exists L T P, alloc_inv 128 st L T A P.
Proof.
  induction 1 as [|st A os size Hr (L & T & P & Hinv) Hs Hf
                  |st A h Hr (L & T & P & Hinv) Hh Hc].
  - eauto using alloc_inv_init.
  - destruct (alloc_inv_allocate os size st L T A P Hinv Hs Hf)
      as [(-> & Hi & _)|(b & L' & T' & P' & -> & HbA & Hb & Hst & Hi)].
    + cbn [Z.eqb]. eauto.
    + destruct (header_of_pointer b) as [_ ->]; [lia|].
      destruct (Z.eqb_spec (b + sizeof_BlockHeader) 0) as [E|_];
        [unfold sizeof_BlockHeader in E; lia|].
      eauto.
  - destruct (alloc_inv_deallocate h st L T A P Hinv Hh Hc) as (L' & T' & Hi).
    eauto.
Qed.

(** Two different slots never share a byte. *)
Lemma slots_disjoint (P : gmap Z Z) (c1 c2 x1 x2 : Z) :
  0 <= c1 < 8 -> 0 <= c2 < 8 ->
  slot P c1 x1 -> slot P c2 x2 -> x1 <> x2 ->
  x1 + block_bytes c1 <= x2 \/ x2 + block_bytes c2 <= x1.
Proof.
  intros Hc1 Hc2 (HP1 & i1 & Hi1 & E1) (HP2 & i2 & Hi2 & E2) Hne.
  pose proof (block_geometry c1 Hc1) as (Hb1 & Hn1 & Hfit1).
  pose proof (block_geometry c2 Hc2) as (Hb2 & Hn2 & Hfit2).
  fold (block_bytes c1) in Hb1, Hn1, Hfit1.
  fold (block_bytes c2) in Hb2, Hn2, Hfit2.
  destruct (Z.eq_dec (x1 / 4096) (x2 / 4096)) as [Eq|Hq].
  - rewrite Eq in HP1. assert (c1 = c2) as -> by congruence.
    rewrite Eq in E1.
    assert (i1 <> i2) as Hi by (intros ->; lia).
    assert (i1 + 1 <= i2 \/ i2 + 1 <= i1) as [Hlt|Hlt] by lia; [left|right]; nia.
  - assert (x1 / 4096 + 1 <= x2 / 4096 \/ x2 / 4096 + 1 <= x1 / 4096)
      as [Hlt|Hlt] by lia; [left|right]; nia.
Qed.

Lemma alloc_inv_live_disjoint (st : State) (L T : Z -> list Z) (A : gset Z)
      (P : gmap Z Z) (h1 h2 : Z) :
  alloc_inv 128 st L T A P -> h1 ∈ A -> h2 ∈ A -> h1 <> h2 ->
  h1 + sizeof_BlockHeader + load (mem st) h1 <= h2 \/
  h2 + sizeof_BlockHeader + load (mem st) h2 <= h1.
Proof.
  intros Hinv H1 H2 Hne.
  destruct (ai_live_slot _ _ _ _ _ _ Hinv h1 H1) as (c1 & Hc1 & Hs1 & ->).
  destruct (ai_live_slot _ _ _ _ _ _ Hinv h2 H2) as (c2 & Hc2 & Hs2 & ->).
  pose proof (slots_disjoint P c1 c2 h1 h2 Hc1 Hc2 Hs1 Hs2 Hne) as Hd.
  unfold block_bytes in Hd. lia.
Qed.

(** Discharge the [mmap] assumption on a concrete log. *)
Ltac fresh_mmap :=
  let a := fresh "a" in
  intros a [=]; subst; vm_compute; repeat split; try discriminate.

(** X12: in every state reached from a fresh allocator by small allocations
    and frees of live blocks, two different live blocks never overlap: the
    header and payload of one (its extent being the class size stamped in
    its header) end before the header of the other begins. *)
Theorem live_blocks_disjoint (st : State) (A : gset Z) (h1 h2 : Z) :
  small_reachable st A -> h1 ∈ A -> h2 ∈ A -> h1 <> h2 ->
  h1 + sizeof_BlockHeader + load (mem st) h1 <= h2 \/
  h2 + sizeof_BlockHeader + load (mem st) h2 <= h1.
Proof.
  intros Hr H1 H2 Hne.
  destruct (small_reachable_inv st A Hr) as (L & T & P & Hinv).
  eapply alloc_inv_live_disjoint; eauto.
Qed.

Lemma live_blocks_disjoint_witness :
  let st1 := snd (allocate (Some 40960) 64 init_state) in
  let st2 := snd (allocate None 64 st1) in
  44920 + sizeof_BlockHeader + load (mem st2) 44920 <= 44848 \/
  44848 + sizeof_BlockHeader + load (mem st2) 44848 <= 44920.
Proof.
  intros st1 st2. subst st2 st1.
  eapply (live_blocks_disjoint _ _ 44920 44848).
  - apply sr_allocate; [apply sr_allocate; [apply sr_init| |]| |];
      first [unfold MAX_SMALL_ALLOC_SIZE; lia | fresh_mmap].
  - vm_compute. reflexivity.
  - vm_compute. reflexivity.
  - discriminate.
Defined.

(** A slot ends inside its page. *)
Lemma slot_within_page (P : gmap Z Z) (c x : Z) :
  0 <= c < 8 -> slot P c x -> x + block_bytes c <= (x / 4096 + 1) * 4096.
Proof.
  intros Hc (_ & i & Hi & E).
  pose proof (block_geometry c Hc) as (Hb & Hn & Hfit).
  fold (block_bytes c) in Hb, Hn, Hfit. nia.
Qed.

(** X13: a live block stays intact while it is live: its header still
    carries the size of one of the eight classes, header and payload end
    inside the page the header lies in, that page is still mapped, and the
    block is on none of the free lists, neither of a transfer cache nor of
    the thread cache. *)
Theorem live_block_intact (st : State) (A : gset Z) (h : Z) :
  small_reachable st A -> h ∈ A ->
  (exists c, 0 <= c < 8 /\ load (mem st) h = getClassSizeFromIndex c) /\
  h + sizeof_BlockHeader + load (mem st) h <= (h / 4096 + 1) * 4096 /\
  page_mapped (os_log st) (h / 4096) = true /\
  forall c l, 0 <= c < 8 ->
    chain (mem st) (tc_list (central st c)) l \/
    chain (mem st) (thread_list st c) l ->
    h ∉ l.
Proof.
  intros Hr Hh.
  destruct (small_reachable_inv st A Hr) as (L & T & P & Hinv).
  split; [|split; [|split]].
  - destruct (ai_live_slot _ _ _ _ _ _ Hinv h Hh) as (c & Hc & _ & E). eauto.
  - destruct (ai_live_slot _ _ _ _ _ _ Hinv h Hh) as (c & Hc & Hs & ->).
    pose proof (slot_within_page P c h Hc Hs) as Hw.
    unfold block_bytes in Hw. lia.
  - apply (ai_mapped _ _ _ _ _ _ Hinv). auto.
  - intros c l Hc Hl Hin.
    pose proof (ai_wf _ _ _ _ _ _ Hinv) as Hwf.
    destruct (wf_central _ _ _ Hwf c Hc) as (HL & _).
    destruct (wf_thread _ _ _ Hwf c Hc) as (HT & _).
    apply (ai_sep _ _ _ _ _ _ Hinv h Hh). exists c. split; [exact Hc|].
    destruct Hl as [Hl|Hl].
    + left. now rewrite (chain_functional _ _ _ _ HL Hl).
    + right. now rewrite (chain_functional _ _ _ _ HT Hl).
Qed.

Lemma live_block_intact_witness :
  let st1 := snd (allocate (Some 40960) 64 init_state) in
  (exists c, 0 <= c < 8 /\ load (mem st1) 44920 = getClassSizeFromIndex c) /\
  44920 + sizeof_BlockHeader + load (mem st1) 44920 <=
    (44920 / 4096 + 1) * 4096 /\
  page_mapped (os_log st1) (44920 / 4096) = true /\
  forall c l, 0 <= c < 8 ->
    chain (mem st1) (tc_list (central st1 c)) l \/
    chain (mem st1) (thread_list st1 c) l ->
    44920 ∉ l.
Proof.
  intros st1. subst st1.
  eapply (live_block_intact _ _ 44920).
  - apply sr_allocate; [apply sr_init| |];
      first [unfold MAX_SMALL_ALLOC_SIZE; lia | fresh_mmap].
  - vm_compute. reflexivity.
Defined.

(** X14: in every reachable state the counters describe the lists: each
    transfer cache's count is the length of its list, each thread-cache
    length is the length of its list, and no thread-cache list is longer
    than the scavenge threshold of 128 blocks. *)
Theorem reachable_caches_bounded (st : State) (A : gset Z) (c : Z) :
  small_reachable st A -> 0 <= c < 8 ->
  count_inv st c /\
  0 <= count (central st c) <= INT_MAX /\
  (exists l, chain (mem st) (thread_list st c) l /\
             thread_len st c = Z.of_nat (length l)) /\
  0 <= thread_len st c <= SCAVENGE_THRESHOLD.
Proof.
  intros Hr Hc.
  destruct (small_reachable_inv st A Hr) as (L & T & P & Hinv).
  pose proof (ai_wf _ _ _ _ _ _ Hinv) as Hwf.
  destruct (wf_central _ _ _ Hwf c Hc) as (HL & Hcnt & Hmax).
  destruct (wf_thread _ _ _ Hwf c Hc) as (HT & Hlen).
  pose proof (ai_bound _ _ _ _ _ _ Hinv c Hc) as Hb.
  unfold SCAVENGE_THRESHOLD.
  repeat split; try lia.
  - exists (L c). auto.
  - exists (T c). auto.
Qed.

Lemma reachable_caches_bounded_witness :
  let st1 := snd (allocate (Some 40960) 64 init_state) in
  count_inv st1 3 /\
  0 <= count (central st1 3) <= INT_MAX /\
  (exists l, chain (mem st1) (thread_list st1 3) l /\
             thread_len st1 3 = Z.of_nat (length l)) /\
  0 <= thread_len st1 3 <= SCAVENGE_THRESHOLD.
Proof.
  intros st1. subst st1.
  eapply (reachable_caches_bounded _ _ 3).
  - apply sr_allocate; [apply sr_init| |];
      first [unfold MAX_SMALL_ALLOC_SIZE; lia | fresh_mmap].
  - lia.
Defined.

(** X15: a small allocation in a reachable state never hands out memory
    that is in use.  When it returns a pointer, the block behind it was not
    live, its header is stamped with a class size of at least the requested
    size, and the requested bytes overlap no live block. *)
Theorem allocate_never_overlaps_live (os : option Z) (size : Z) (st : State)
        (A : gset Z) (h : Z) :
  small_reachable st A ->
  0 < size <= MAX_SMALL_ALLOC_SIZE ->
  mmap_fresh (os_log st) 4096 os ->
  fst (allocate os size st) <> 0 ->
  h ∈ A ->
  let p := fst (allocate os size st) in
  let st' := snd (allocate os size st) in
  (header_of p ∉ A) /\
  p = header_of p + sizeof_BlockHeader /\
  size <= load (mem st') (header_of p) /\
  (p + size <= h \/ h + sizeof_BlockHeader + load (mem st') h <= header_of p).
Proof.
  intros Hr Hs Hf Hnz Hh p st'. subst p st'.
  destruct (small_reachable_inv st A Hr) as (L & T & P & Hinv).
  destruct (allocate_small_path os size st Hs) as (Hc & Hfit & _).
  destruct (alloc_inv_allocate os size st L T A P Hinv Hs Hf)
    as [[E _]|(b & L' & T' & P' & E & HbA & Hb & Hst & Hi)];
    [contradiction|].
  rewrite E. destruct (header_of_pointer b) as [_ ->]; [lia|].
  split; [exact HbA|]. split; [reflexivity|].
  split; [rewrite Hst; exact Hfit|].
  assert (b <> h) as Hne by (intros ->; contradiction).
  destruct (alloc_inv_live_disjoint _ _ _ _ _ b h Hi) as [Hd|Hd];
    [apply elem_of_union_l; now apply elem_of_singleton
    |apply elem_of_union_r; exact Hh
    |exact Hne| |].
  - left. rewrite Hst in Hd. lia.
  - right. exact Hd.
Qed.

Lemma allocate_never_overlaps_live_witness :
  let st1 := snd (allocate (Some 40960) 64 init_state) in
  let p := fst (allocate None 50 st1) in
  let st2 := snd (allocate None 50 st1) in
  (header_of p ∉ ({[44920]} : gset Z)) /\
  p = header_of p + sizeof_BlockHeader /\
  50 <= load (mem st2) (header_of p) /\
  (p + 50 <= 44920 \/
   44920 + sizeof_BlockHeader + load (mem st2) 44920 <= header_of p).
Proof.
  intros st1. subst st1.
  assert (small_reachable (snd (allocate (Some 40960) 64 init_state))
                          {[44920]}) as Hr.
  { replace ({[44920]} : gset Z)
      with (if fst (allocate (Some 40960) 64 init_state) =? 0 then (∅ : gset Z)
            else {[header_of (fst (allocate (Some 40960) 64 init_state))]} ∪ ∅).
    - apply sr_allocate; [apply sr_init| |];
        first [unfold MAX_SMALL_ALLOC_SIZE; lia | fresh_mmap].
    - replace (fst (allocate (Some 40960) 64 init_state)) with 44928
        by (vm_compute; reflexivity).
      replace (header_of 44928) with 44920 by (vm_compute; reflexivity).
      cbn [Z.eqb Pos.eqb]. apply (right_id_L ∅ (∪)). }
  apply (allocate_never_overlaps_live None 50 _ {[44920]} 44920 Hr).
  - unfold MAX_SMALL_ALLOC_SIZE. lia.
  - fresh_mmap.
  - vm_compute. discriminate.
  - now apply elem_of_singleton.
Defined.

(** ** Allocation from the transfer cache *)

Lemma refill_central_nonempty (os : option Z) (c : Z) (st : State) :
  count (central st c) <> 0 -> refill_central os c st = (true, st).
Proof.
  intros Hne. unfold refill_central. cbv zeta. fold (central st c).
  now destruct (Z.eqb_spec (count (central st c)) 0).
Qed.

(** X16: the middle tier.  When the thread cache of the request's class is
    empty and the class's transfer cache holds the blocks [l], the request
    is served without a system call: the first [min (length l) 32] blocks
    of [l] move to the thread cache, the first of them is returned with its
    header stamped, and the others stay behind in the transfer cache, whose
    count drops by the number moved. *)
Theorem allocate_from_transfer_cache (os : option Z) (size : Z) (st : State)
        (l : list Z) :
  0 < size <= MAX_SMALL_ALLOC_SIZE ->
  arrays_ok st ->
  thread_list st (getSizeClassIndex size) = 0 ->
  chain (mem st) (tc_list (central st (getSizeClassIndex size))) l ->
  count (central st (getSizeClassIndex size)) = Z.of_nat (length l) ->
  l <> [] -> Z.of_nat (length l) <= INT_MAX ->
  let c := getSizeClassIndex size in
  let moved := Nat.min (length l) 32 in
  let r := allocate os size st in
  fst r = wrap64 (tc_list (central st c) + sizeof_BlockHeader) /\
  load (mem (snd r)) (tc_list (central st c)) = getClassSizeFromIndex c /\
  chain (mem (snd r)) (thread_list (snd r) c) (drop 1 (take moved l)) /\
  thread_len (snd r) c = Z.of_nat moved - 1 /\
  chain (mem (snd r)) (tc_list (central (snd r) c)) (drop moved l) /\
  count (central (snd r) c) = Z.of_nat (length l) - Z.of_nat moved /\
  os_log (snd r) = os_log st /\ page_map (snd r) = page_map st.
Proof.
  intros Hs Hok Hempty Hch Hcnt Hne Hmax c moved r.
  destruct (allocate_small_path os size st Hs) as (Hc & Hfit & Heq).
  fold c in Hc, Hfit, Heq, Hempty, Hch, Hcnt.
  subst r. rewrite Heq, Hempty. cbn [Z.eqb].
  assert (fetchFromTransferCache os c st = transfer_to_thread c st) as ->.
  { unfold fetchFromTransferCache.
    destruct (Z.leb_spec 8 c); [lia|].
    rewrite refill_central_nonempty; [reflexivity|].
    rewrite Hcnt. destruct l; [contradiction | cbn [length]; lia]. }
  destruct (transfer_to_thread_spec c st l Hc Hok Hch Hcnt Hne Hmax)
    as (_ & Hth & Hthl & Hce & Hcc & Hok' & _ & Hlog & Hpm & _).
  fold moved in Hth, Hthl, Hce, Hcc.
  set (st' := transfer_to_thread c st) in *.
  pose proof (chain_NoDup _ _ _ Hch) as Hnd.
  destruct l as [|b0 rest0]; [contradiction|].
  assert (moved = S (Nat.min (length rest0) 31)) as Hm
    by (subst moved; cbn [length]; lia).
  rewrite Hm in Hth. cbn [take] in Hth.
  destruct Hch as (Hhd & Hb0 & _).
  destruct Hth as (Hhd' & _ & Hrest').
  apply NoDup_cons in Hnd as [Hnot _].
  destruct (Z.eqb_spec (thread_list st' c) 0) as [E|_]; [congruence|].
  assert (thread_list st' c = tc_list (central st c)) as Hsame by congruence.
  split; [cbn [pop_block fst]; fold (thread_list st' c); now rewrite Hsame|].
  split.
  { cbn [pop_block snd mem set_mem]. fold (thread_list st' c).
    rewrite Hsame. apply load_store_eq. }
  split.
  { rewrite pop_block_thread_list by assumption.
    cbn [pop_block snd mem set_mem]. fold (thread_list st' c).
    rewrite Hm. cbn [take drop]. rewrite Hhd'.
    apply segment_store_other; [|exact Hrest'].
    intros Hin. apply Hnot. eapply elem_of_take_l; exact Hin. }
  split.
  { rewrite pop_block_thread_len by assumption. rewrite Hthl.
    apply wrap_int_small. unfold INT_MAX in *. lia. }
  split.
  { cbn [pop_block snd mem set_mem]. fold (thread_list st' c).
    unfold central. cbn [transfer_caches set_mem set_my_cache].
    fold (central st' c). rewrite Hhd'.
    apply segment_store_other; [|exact Hce].
    rewrite Hm. cbn [drop]. intros Hin. apply Hnot.
    eapply elem_of_drop_l; exact Hin. }
  split; [exact Hcc|].
  split; [cbn; exact Hlog | cbn; exact Hpm].
Qed.

Lemma allocate_from_transfer_cache_witness :
  let st := Nat.iter 31 (fun s => snd (allocate None 64 s))
                     (snd (allocate (Some 40960) 64 init_state)) in
  let l := map (fun i => 40960 + 72 * Z.of_nat i) (rev (seq 0 24)) in
  let c := getSizeClassIndex 64 in
  let moved := Nat.min (length l) 32 in
  let r := allocate None 64 st in
  fst r = wrap64 (tc_list (central st c) + sizeof_BlockHeader) /\
  load (mem (snd r)) (tc_list (central st c)) = getClassSizeFromIndex c /\
  chain (mem (snd r)) (thread_list (snd r) c) (drop 1 (take moved l)) /\
  thread_len (snd r) c = Z.of_nat moved - 1 /\
  chain (mem (snd r)) (tc_list (central (snd r) c)) (drop moved l) /\
  count (central (snd r) c) = Z.of_nat (length l) - Z.of_nat moved /\
  os_log (snd r) = os_log st /\ page_map (snd r) = page_map st.
Proof.
  intros st l.
  apply (allocate_from_transfer_cache None 64 st l).
  - unfold MAX_SMALL_ALLOC_SIZE. lia.
  - vm_compute. repeat split; reflexivity.
  - vm_compute. reflexivity.
  - vm_compute. repeat split; discriminate.
  - vm_compute. reflexivity.
  - discriminate.
  - vm_compute. discriminate.
Defined.

(** ** Freeing a block twice *)

(** A free of a block stamped with class [c], below the scavenge threshold,
    is the push alone. *)
Lemma deallocate_push (h c : Z) (st : State) :
  arrays_ok st -> 0 <= c < 8 -> 0 < h < 2 ^ 64 - 8 ->
  getSizeClassIndex (load (mem st) h) = c ->
  0 <= thread_len st c < SCAVENGE_THRESHOLD ->
  deallocate (h + sizeof_BlockHeader) st = push_free c h st.
Proof.
  intros Hok Hc Hh Hidx Hlen.
  destruct (header_of_pointer h) as [_ Hhdr]; [lia|].
  rewrite (deallocate_small_step (h + sizeof_BlockHeader) c st);
    [| unfold sizeof_BlockHeader; lia | exact Hc | now rewrite Hhdr].
  rewrite Hhdr, push_free_thread_len by assumption.
  unfold SCAVENGE_THRESHOLD in *.
  rewrite wrap_int_small by (unfold INT_MAX; lia).
  destruct (Z.ltb_spec 128 (thread_len st c + 1)); [lia | reflexivity].
Qed.

Lemma allocate_pops (os : option Z) (size : Z) (st : State) :
  0 < size <= MAX_SMALL_ALLOC_SIZE ->
  thread_list st (getSizeClassIndex size) <> 0 ->
  allocate os size st = pop_block (getSizeClassIndex size) st.
Proof.
  intros Hs Hne.
  destruct (allocate_small_path os size st Hs) as (_ & _ & ->).
  now destruct (Z.eqb_spec (thread_list st (getSizeClassIndex size)) 0).
Qed.

(** X17: a double free is not detected.  Freeing a small block links it
    into the thread cache, which overwrites its size stamp with the old
    list head.  When that list was not empty (its head being an address
    above 1024, as every block address is), a second free of the same
    pointer reads the stored pointer as a large size and unmaps the whole
    page the block lies in, removing it from the page index, while the
    block stays recorded as the head of the thread cache of its class. *)
Theorem double_free_unmaps_page (h c sp : Z) (st : State) :
  arrays_ok st ->
  0 <= c < 8 ->
  0 < h < 2 ^ 64 - 8 ->
  load (mem st) h = getClassSizeFromIndex c ->
  MAX_SMALL_ALLOC_SIZE < thread_list st c ->
  0 <= thread_len st c < SCAVENGE_THRESHOLD ->
  lookupSpan h st = Some sp ->
  start_page_id (span_memory st !!! sp) = h / 4096 ->
  num_pages (span_memory st !!! sp) = 1 ->
  let ptr := h + sizeof_BlockHeader in
  let st2 := deallocate ptr (deallocate ptr st) in
  os_log st2 = Munmap (h / 4096 * 4096) 4096 :: os_log st /\
  page_mapped (os_log st2) (h / 4096) = false /\
  lookupSpan h st2 = None /\
  thread_list st2 c = h.
Proof.
  intros Hok Hc Hh Hstamp Hhead Hlen Hsp Hstart Hnum ptr st2.
  destruct (header_of_pointer h) as [Hwrap Hhdr]; [lia|].
  assert (0 <= h / 4096 < 2 ^ 52) as Hpid.
  { split; [apply Z.div_pos; lia | apply Z.div_lt_upper_bound; lia]. }
  assert (deallocate ptr st = push_free c h st) as E1.
  { apply deallocate_push; try assumption.
    rewrite Hstamp. now apply getSizeClassIndex_of_class. }
  assert (st2 = deallocateSpan sp (push_free c h st)) as E2.
  { subst st2. rewrite E1. unfold deallocate.
    destruct (Z.eqb_spec ptr 0) as [E|_];
      [subst ptr; unfold sizeof_BlockHeader in E; lia|].
    fold (header_of ptr). subst ptr. rewrite Hhdr. cbv zeta.
    rewrite push_free_mem, load_store_eq.
    destruct (Z.ltb_spec MAX_SMALL_ALLOC_SIZE (thread_list st c)); [|lia].
    unfold lookupSpan in *. cbn [push_free page_map set_my_cache set_mem].
    now rewrite Hsp. }
  clearbody st2. subst st2.
  assert (os_log (deallocateSpan sp (push_free c h st)) =
          Munmap (h / 4096 * 4096) 4096 :: os_log st) as Hlog.
  { unfold deallocateSpan. cbn. rewrite Hstart, Hnum, !shiftl_page.
    rewrite !wrap64_small by lia. reflexivity. }
  split; [exact Hlog|].
  split.
  { rewrite Hlog. cbn [page_mapped]. unfold region_has_page.
    destruct (Z.leb_spec (h / 4096 * 4096) (h / 4096 * 4096)); [|lia].
    destruct (Z.ltb_spec (h / 4096 * 4096) (h / 4096 * 4096 + 4096)); [|lia].
    reflexivity. }
  split.
  { unfold lookupSpan, deallocateSpan. cbn. rewrite Hstart, Hnum.
    change (Z.to_nat 1) with 1%nat. cbn [erase_pages].
    rewrite shiftr_page, Z.add_0_r, wrap64_small by lia.
    apply lookup_delete_eq. }
  change (thread_list (deallocateSpan sp (push_free c h st)) c)
    with (thread_list (push_free c h st) c).
  now apply push_free_thread_list.
Qed.

Lemma double_free_unmaps_page_witness :
  let st := snd (allocate (Some 40960) 64 init_state) in
  let ptr := 44920 + sizeof_BlockHeader in
  let st2 := deallocate ptr (deallocate ptr st) in
  os_log st2 = Munmap (44920 / 4096 * 4096) 4096 :: os_log st /\
  page_mapped (os_log st2) (44920 / 4096) = false /\
  lookupSpan 44920 st2 = None /\
  thread_list st2 3 = 44920.
Proof.
  intros st.
  apply (double_free_unmaps_page 44920 3 0 st).
  - vm_compute. repeat split; reflexivity.
  - lia.
  - lia.
  - vm_compute. reflexivity.
  - vm_compute. reflexivity.
  - vm_compute. split; [discriminate | reflexivity].
  - vm_compute. reflexivity.
  - vm_compute. reflexivity.
  - vm_compute. reflexivity.
Defined.

(** X18: the other half of the undetected double free.  When the thread
    cache of the block's class was empty, the first free leaves a null
    [next] in the header; the second free reads it as size 0 and pushes the
    block onto the list of class 0 as well.  The block then heads two lists
    (or is linked to itself when its class is 0), and two requests in a
    row, one of its class and one of at most 8 bytes, are answered with the
    same pointer, without any system call. *)
Theorem double_free_hands_out_twice (os1 os2 : option Z) (s1 s2 h : Z)
        (st : State) :
  0 < s1 <= MAX_SMALL_ALLOC_SIZE -> 0 < s2 <= 8 ->
  arrays_ok st ->
  0 < h < 2 ^ 64 - 8 ->
  load (mem st) h = getClassSizeFromIndex (getSizeClassIndex s1) ->
  thread_list st (getSizeClassIndex s1) = 0 ->
  0 <= thread_len st (getSizeClassIndex s1) < SCAVENGE_THRESHOLD - 1 ->
  0 <= thread_len st 0 < SCAVENGE_THRESHOLD - 1 ->
  let ptr := h + sizeof_BlockHeader in
  let st2 := deallocate ptr (deallocate ptr st) in
  let r1 := allocate os1 s1 st2 in
  let r2 := allocate os2 s2 (snd r1) in
  thread_list st2 (getSizeClassIndex s1) = h /\
  thread_list st2 0 = h /\
  fst r1 = ptr /\ fst r2 = ptr /\
  os_log (snd r2) = os_log st.
Proof.
  intros Hs1 Hs2 Hok Hh Hstamp Hempty Hlen Hlen0 ptr st2 r1 r2.
  destruct (allocate_small_path os1 s1 st Hs1) as (Hc & _ & _).
  remember (getSizeClassIndex s1) as c eqn:Ec.
  assert (getSizeClassIndex s2 = 0) as Ec2.
  { destruct (getSizeClassIndex_cases s2) as
      [[H E]|[[H E]|[[H E]|[[H E]|[[H E]|[[H E]|[[H E]|[[H E]|[H E]]]]]]]]];
      first [exact E | lia]. }
  destruct (header_of_pointer h) as [Hwrap Hhdr]; [lia|].
  unfold SCAVENGE_THRESHOLD in Hlen, Hlen0.
  assert (deallocate ptr st = push_free c h st) as E1.
  { apply deallocate_push; try assumption;
      first [ unfold SCAVENGE_THRESHOLD; lia
            | rewrite Hstamp; now apply getSizeClassIndex_of_class ]. }
  pose proof (push_free_arrays_ok c h st Hok) as Hok1.
  set (st1 := push_free c h st) in *.
  assert (load (mem st1) h = 0) as Hnull.
  { subst st1. rewrite push_free_mem, load_store_eq. exact Hempty. }
  assert (thread_list st1 c = h) as Hth1
    by (subst st1; now apply push_free_thread_list).
  assert (0 <= thread_len st1 0 < 128) as Hlen1.
  { subst st1. destruct (Z.eq_dec c 0) as [->|Hne].
    - rewrite push_free_thread_len by assumption.
      rewrite wrap_int_small by (unfold INT_MAX; lia). lia.
    - destruct (push_free_other c 0 h st Hc ltac:(lia) ltac:(lia)) as [_ ->].
      lia. }
  assert (st2 = push_free 0 h st1) as E2.
  { subst st2. rewrite E1. apply deallocate_push; try assumption;
      first [ unfold SCAVENGE_THRESHOLD; lia | rewrite Hnull; reflexivity ]. }
  clearbody st2. subst st2.
  pose proof (push_free_arrays_ok 0 h st1 Hok1) as Hok2.
  assert (thread_list (push_free 0 h st1) 0 = h) as Hth0
    by (apply push_free_thread_list; [lia | assumption]).
  assert (thread_list (push_free 0 h st1) c = h) as Hthc.
  { destruct (Z.eq_dec c 0) as [->|Hne]; [exact Hth0|].
    destruct (push_free_other 0 c h st1 ltac:(lia) Hc Hne) as [-> _].
    exact Hth1. }
  set (st2 := push_free 0 h st1) in *.
  assert (r1 = pop_block c st2) as Er1.
  { subst r1. rewrite allocate_pops; [now rewrite <- Ec | exact Hs1 |].
    rewrite <- Ec, Hthc. lia. }
  clearbody r1. subst r1.
  assert (thread_list (snd (pop_block c st2)) 0 = h) as Hth3.
  { destruct (Z.eq_dec c 0) as [->|Hne].
    - rewrite pop_block_thread_list by (assumption || lia).
      rewrite Hth0. subst st2. rewrite push_free_mem, load_store_eq.
      exact Hth1.
    - destruct (pop_block_other c st2 Hc 0 ltac:(lia) ltac:(lia)) as [-> _].
      exact Hth0. }
  assert (r2 = pop_block 0 (snd (pop_block c st2))) as Er2.
  { subst r2. rewrite allocate_pops;
      [now rewrite Ec2 | unfold MAX_SMALL_ALLOC_SIZE; lia |].
    rewrite Ec2, Hth3. lia. }
  clearbody r2. subst r2.
  split; [exact Hthc|]. split; [exact Hth0|].
  split.
  { unfold pop_block at 1. cbn [fst]. fold (thread_list st2 c).
    rewrite Hthc. exact Hwrap. }
  split.
  { unfold pop_block at 1. cbn [fst].
    fold (thread_list (snd (pop_block c st2)) 0).
    rewrite Hth3. exact Hwrap. }
  reflexivity.
Qed.

Lemma double_free_hands_out_twice_witness :
  let st := snd (allocate None 1024
              (snd (allocate None 1024
                 (snd (allocate (Some 40960) 1024 init_state))))) in
  let ptr := 40960 + sizeof_BlockHeader in
  let st2 := deallocate ptr (deallocate ptr st) in
  let r1 := allocate None 1024 st2 in
  let r2 := allocate None 8 (snd r1) in
  thread_list st2 (getSizeClassIndex 1024) = 40960 /\
  thread_list st2 0 = 40960 /\
  fst r1 = ptr /\ fst r2 = ptr /\
  os_log (snd r2) = os_log st.
Proof.
  intros st.
  apply (double_free_hands_out_twice None None 1024 8 40960 st).
  - unfold MAX_SMALL_ALLOC_SIZE. lia.
  - lia.
  - vm_compute. repeat split; reflexivity.
  - lia.
  - vm_compute. reflexivity.
  - vm_compute. reflexivity.
  - vm_compute. split; [discriminate | reflexivity].
  - vm_compute. split; [discriminate | reflexivity].
Defined.

(** ** When a small allocation fails *)

Lemma allocate_small_failed (os : option Z) (size : Z) (st : State) :
  0 < size <= MAX_SMALL_ALLOC_SIZE ->
  thread_list st (getSizeClassIndex size) = 0 ->
  count (central st (getSizeClassIndex size)) = 0 ->
  span_request_fails os st ->
  fst (allocate os size st) = 0.
Proof.
  intros Hs Hempty Hz Hfail.
  destruct (allocate_small_path os size st Hs) as (Hc & _ & ->).
  set (c := getSizeClassIndex size) in *.
  rewrite Hempty. cbn [Z.eqb].
  assert (exists st1, allocateSpan os 1 st = (None, st1)) as (st1 & E).
  { destruct Hfail as [->|Hx].
    - eexists. apply allocateSpan_mmap_failed.
    - destruct os as [a|].
      + eexists. now apply allocateSpan_pool_exhausted.
      + eexists. apply allocateSpan_mmap_failed. }
  unfold fetchFromTransferCache. destruct (Z.leb_spec 8 c); [lia|].
  rewrite (refill_central_failed os c st st1 Hc Hz E).
  apply allocateSpan_None in E as (_ & _ & _ & _ & _ & _ & _ & Hmc).
  unfold thread_list in *. rewrite Hmc, Hempty. reflexivity.
Qed.

(** X19: in a reachable state a small request fails in one situation only:
    both caches of its class are empty and the page heap cannot supply a
    page ([mmap] fails or the descriptor pool is exhausted).  In every
    other case the result is a non-null pointer. *)
Theorem small_allocate_null_iff (os : option Z) (size : Z) (st : State)
        (A : gset Z) :
  small_reachable st A ->
  0 < size <= MAX_SMALL_ALLOC_SIZE ->
  mmap_fresh (os_log st) 4096 os ->
  fst (allocate os size st) = 0 <->
  thread_list st (getSizeClassIndex size) = 0 /\
  count (central st (getSizeClassIndex size)) = 0 /\
  span_request_fails os st.
Proof.
  intros Hr Hs Hf.
  destruct (small_reachable_inv st A Hr) as (L & T & P & Hinv).
  split.
  - intros E.
    destruct (alloc_inv_allocate os size st L T A P Hinv Hs Hf)
      as [(_ & _ & H)|(b & L' & T' & P' & E' & _ & Hb & _)]; [exact H|].
    rewrite E' in E. unfold sizeof_BlockHeader in E. lia.
  - intros (H1 & H2 & H3). now apply allocate_small_failed.
Qed.

Lemma small_allocate_null_iff_witness :
  let st := snd (allocate (Some 40960) 64 init_state) in
  fst (allocate None 8 st) = 0 <->
  thread_list st (getSizeClassIndex 8) = 0 /\
  count (central st (getSizeClassIndex 8)) = 0 /\
  span_request_fails None st.
Proof.
  intros st. subst st.
  eapply (small_allocate_null_iff None 8).
  - apply sr_allocate; [apply sr_init| |];
      first [unfold MAX_SMALL_ALLOC_SIZE; lia | fresh_mmap].
  - unfold MAX_SMALL_ALLOC_SIZE. lia.
  - fresh_mmap.
Defined.

(** ** Free, then allocate *)

(** X20: last in, first out.  After a free that stays below the scavenge
    threshold, the next request of the block's class gets the very same
    pointer back, and the allocator is again in the state it had before
    the free: the size stamp, the list head and the length are restored. *)
Theorem small_free_alloc_restores (os : option Z) (size h : Z) (st : State) :
  0 < size <= MAX_SMALL_ALLOC_SIZE ->
  arrays_ok st ->
  0 < h < 2 ^ 64 - 8 ->
  load (mem st) h = getClassSizeFromIndex (getSizeClassIndex size) ->
  0 <= thread_len st (getSizeClassIndex size) < SCAVENGE_THRESHOLD ->
  allocate os size (deallocate (h + sizeof_BlockHeader) st) =
  (h + sizeof_BlockHeader, st).
Proof.
  intros Hs Hok Hh Hstamp Hlen.
  destruct (allocate_small_path os size st Hs) as (Hc & _ & _).
  remember (getSizeClassIndex size) as c eqn:Ec.
  destruct (header_of_pointer h) as [Hwrap _]; [lia|].
  rewrite (deallocate_push h c st Hok Hc Hh)
    by (assumption || (rewrite Hstamp; now apply getSizeClassIndex_of_class)).
  rewrite allocate_pops;
    [| exact Hs | rewrite <- Ec, push_free_thread_list by assumption; lia].
  rewrite <- Ec.
  pose proof (getClassSizeFromIndex_bounds c Hc) as Hcls.
  assert (mem st !! h = Some (getClassSizeFromIndex c)) as Hcell.
  { unfold load in Hstamp. destruct (mem st !! h) as [v|]; cbn in Hstamp.
    - now subst v.
    - lia. }
  unfold SCAVENGE_THRESHOLD in Hlen.
  destruct Hok as (H1 & H2 & H3).
  unfold pop_block, push_free. clear Ec Hstamp.
  destruct st as [m lg sm so pm tcs [fl ll]].
  unfold thread_list, thread_len, set_my_cache, set_mem, set_list_length,
    set_free_list, store, load in *.
  cbn [fst snd mem os_log span_memory span_offset page_map transfer_caches
       my_cache free_lists list_lengths] in *.
  rewrite !list_lookup_total_insert_eq by lia.
  rewrite !list_insert_insert_eq.
  rewrite lookup_insert_eq. cbn [default].
  rewrite (wrap_int_small (ll !!! Z.to_nat c + 1)) by (unfold INT_MAX; lia).
  replace (ll !!! Z.to_nat c + 1 - 1) with (ll !!! Z.to_nat c) by lia.
  rewrite wrap_int_small by (unfold INT_MAX; lia).
  rewrite insert_insert_eq, (insert_id m h _ Hcell).
  rewrite (list_insert_id fl), (list_insert_id ll);
    try (apply list_lookup_lookup_total_lt; lia).
  rewrite Hwrap. reflexivity.
Qed.

Lemma small_free_alloc_restores_witness :
  let st := snd (allocate (Some 40960) 64 init_state) in
  allocate None 50 (deallocate (44920 + sizeof_BlockHeader) st) =
  (44920 + sizeof_BlockHeader, st).
Proof.
  intros st.
  apply (small_free_alloc_restores None 50 44920 st).
  - unfold MAX_SMALL_ALLOC_SIZE. lia.
  - vm_compute. repeat split; reflexivity.
  - lia.
  - vm_compute. reflexivity.
  - vm_compute. split; [discriminate | reflexivity].
Defined.
